(** * serve-index: the directory-listing middleware of [src/index.ts]

    A shallow embedding of the request handler [serveIndex] and of the
    helpers it is built from ([getRequestedDir], [removeHidden], [stat],
    [fileSort], the three responders), followed by the properties the
    specification states about them.

    Conventions.
    - A JavaScript string is a [string]: the sequence of its bytes in UTF-8.
      The handler only tests strings for equality, for a prefix and for the
      presence of one character, which read the same on bytes as on UTF-16
      code units for well-formed text.
    - Callbacks are continuations.  Every call that leaves the process
      (a file-system call) is recorded, in the order it is issued, in the
      trace that a run returns together with its outcome.
    - What Node.js and the npm packages provide is not part of [src/]: the
      [path] module, [decodeURIComponent], the locale functions and the
      template substitution are the fields of the class [Host]; [batch] and
      [Array.prototype.sort] are modelled below next to their callers. *)

From Stdlib Require Import Bool Arith List ZArith Lia Ascii String.
From Stdlib Require Import Permutation Sorted.
Import ListNotations.

Local Open Scope string_scope.
Local Open Scope list_scope.
Local Open Scope Z_scope.

(* ================================================================== *)
(** ** JavaScript values used by the handler *)

Module Js.

(** [s.substr(from, len)] for non-negative arguments. *)
Definition substr (from len : nat) (s : string) : string :=
  String.substring from len s.

(** [s.indexOf(needle)]: the position of the first occurrence, or -1. *)
Definition indexOf (needle s : string) : Z :=
  match String.index 0 needle s with
  | Some n => Z.of_nat n
  | None => -1
  end.

(** [c] occurs in [s]. *)
Definition contains (c : ascii) (s : string) : Prop :=
  In c (list_ascii_of_string s).

(** [p] is a prefix of [s]. *)
Definition is_prefix (p s : string) : Prop :=
  exists rest : string, s = (p ++ rest)%string.

(** [~n], bitwise complement of a number. *)
Definition bitnot (n : Z) : Z := Z.lnot n.

(** Truthiness of a number that is not NaN. *)
Definition truthy (n : Z) : bool := negb (n =? 0).

(** [a || b] on numbers. *)
Definition or_else (a b : Z) : Z := if truthy a then a else b.

(** [Number(b)] on a boolean. *)
Definition Number (b : bool) : Z := if b then 1 else 0.

(** [s[0] !== c]: the first character, [undefined] on the empty string. *)
Definition first_char_differs (s : string) (c : ascii) : bool :=
  match s with
  | EmptyString => true
  | String c0 _ => negb (Ascii.eqb c0 c)
  end.

(** [o || dflt] on an optional string: [undefined] and [''] are falsy. *)
Definition string_or (o : option string) (dflt : string) : string :=
  match o with
  | Some s => if (s =? "")%string then dflt else s
  | None => dflt
  end.

(** [l.join(sep)]. *)
Definition join (sep : string) (l : list string) : string :=
  String.concat sep l.

(** [l.filter(f)], where [f] receives the element, its index and the
    array that is being filtered. *)
Fixpoint filter_from {A} (f : A -> nat -> list A -> bool) (whole : list A)
    (i : nat) (l : list A) : list A :=
  match l with
  | [] => []
  | x :: rest =>
      if f x i whole then x :: filter_from f whole (S i) rest
      else filter_from f whole (S i) rest
  end.

Definition filter {A} (f : A -> nat -> list A -> bool) (l : list A) : list A :=
  filter_from f l 0%nat l.

(** [l.sort(cmp)].  ECMAScript fixes the result, not the algorithm: the
    sort is stable, and [a] goes before [b] when [cmp a b < 0].  The model
    is the stable insertion sort; [x], which stood before all of [l], stays
    before every element it does not compare greater than. *)
Fixpoint insert {A} (cmp : A -> A -> Z) (x : A) (l : list A) : list A :=
  match l with
  | [] => [x]
  | y :: rest =>
      if cmp x y <=? 0 then x :: y :: rest
      else y :: insert cmp x rest
  end.

Fixpoint sort {A} (cmp : A -> A -> Z) (l : list A) : list A :=
  match l with
  | [] => []
  | x :: rest => insert cmp x (sort cmp rest)
  end.

(** A consistent comparator, as ECMAScript asks of the argument of [sort]
    and of [localeCompare]: the sign flips with the arguments, and "not
    after" is transitive. *)
Record Consistent {A} (cmp : A -> A -> Z) : Prop := {
  cmp_flip : forall a b, cmp a b < 0 <-> 0 < cmp b a;
  cmp_trans : forall a b c, cmp a b <= 0 -> cmp b c <= 0 -> cmp a c <= 0
}.

(** [a] does not go after [b]. *)
Definition not_after {A} (cmp : A -> A -> Z) (a b : A) : Prop :=
  cmp a b <= 0.

(** The comparator of [l.sort()] without argument: strings by code unit. *)
Definition default_compare (a b : string) : Z :=
  match String.compare a b with
  | Lt => -1
  | Eq => 0
  | Gt => 1
  end.

(** [JSON.stringify] on an array of strings: each element quoted by
    QuoteJSONString, separated by commas, in brackets. *)
Definition hex_digit (n : nat) : ascii :=
  nth n (list_ascii_of_string "0123456789abcdef") "0"%char.

Definition dquote : ascii := "034"%char.

Definition quote_char (c : ascii) : string :=
  let n := nat_of_ascii c in
  if (n =? 34)%nat then String "\"%char (String dquote "")
  else if (n =? 92)%nat then "\\"
  else if (n =? 8)%nat then "\b"
  else if (n =? 9)%nat then "\t"
  else if (n =? 10)%nat then "\n"
  else if (n =? 12)%nat then "\f"
  else if (n =? 13)%nat then "\r"
  else if (n <? 32)%nat then
    "\u00" ++ String (hex_digit (n / 16)) (String (hex_digit (n mod 16)) "")
  else String c "".

Fixpoint quote_chars (s : string) : string :=
  match s with
  | EmptyString => ""
  | String c rest => quote_char c ++ quote_chars rest
  end.

Definition QuoteJSONString (s : string) : string :=
  String dquote (quote_chars s) ++ String dquote "".

Definition JSON_stringify (l : list string) : string :=
  "[" ++ String.concat "," (map QuoteJSONString l) ++ "]".

(** [JSON.parse] on the text of an array of strings: the reader of the
    JSON grammar, for the escapes of one byte. *)
Definition put (c : ascii) (l : list string) : list string :=
  match l with
  | x :: rest => String c x :: rest
  | [] => []
  end.

Definition hex_value (c : ascii) : option nat :=
  let n := nat_of_ascii c in
  if (48 <=? n)%nat && (n <=? 57)%nat then Some (n - 48)%nat
  else if (65 <=? n)%nat && (n <=? 70)%nat then Some (n - 55)%nat
  else if (97 <=? n)%nat && (n <=? 102)%nat then Some (n - 87)%nat
  else None.

Definition escaped (e : ascii) : option ascii :=
  if Ascii.eqb e dquote then Some dquote
  else if Ascii.eqb e "\" then Some "\"%char
  else if Ascii.eqb e "/" then Some "/"%char
  else if Ascii.eqb e "b" then Some "008"%char
  else if Ascii.eqb e "t" then Some "009"%char
  else if Ascii.eqb e "n" then Some "010"%char
  else if Ascii.eqb e "f" then Some "012"%char
  else if Ascii.eqb e "r" then Some "013"%char
  else None.

(** Inside a string literal: the characters up to the closing quote go to
    the first element, the elements that follow are read in turn. *)
Fixpoint read_in (s : string) : option (list string) :=
  match s with
  | EmptyString => None
  | String c rest =>
      if Ascii.eqb c dquote then
        match rest with
        | String d rest' =>
            if Ascii.eqb d "]" then
              match rest' with
              | EmptyString => Some [EmptyString]
              | _ => None
              end
            else if Ascii.eqb d "," then
              match rest' with
              | String q rest'' =>
                  if Ascii.eqb q dquote then
                    option_map (cons EmptyString) (read_in rest'')
                  else None
              | EmptyString => None
              end
            else None
        | EmptyString => None
        end
      else if Ascii.eqb c "\" then
        match rest with
        | String e rest' =>
            if Ascii.eqb e "u" then
              match rest' with
              | String h1 (String h2 (String h3 (String h4 rest''))) =>
                  match hex_value h1, hex_value h2,
                        hex_value h3, hex_value h4 with
                  | Some O, Some O, Some a, Some b =>
                      option_map (put (ascii_of_nat (16 * a + b)))
                        (read_in rest'')
                  | _, _, _, _ => None
                  end
              | _ => None
              end
            else
              match escaped e with
              | Some ch => option_map (put ch) (read_in rest')
              | None => None
              end
        | EmptyString => None
        end
      else option_map (put c) (read_in rest)
  end.

Definition JSON_parse (s : string) : option (list string) :=
  match s with
  | String a (String b rest) =>
      if Ascii.eqb a "[" then
        if Ascii.eqb b "]" then
          match rest with
          | EmptyString => Some []
          | _ => None
          end
        else if Ascii.eqb b dquote then read_in rest
        else None
      else None
  | _ => None
  end.

(** What follows the closing quote of an element in the text of an array:
    the bracket, or a comma and the next elements. *)
Fixpoint after_element (l : list string) : string :=
  match l with
  | [] => "]"
  | y :: rest =>
      String "," (String dquote
        (quote_chars y ++ String dquote (after_element rest)))
  end.

End Js.

Local Notation "a =?s b" := (String.eqb a b) (at level 70, no associativity).

(* ================================================================== *)
(** ** Data model *)

(** An error object as the handler sees it: the [code] of a
    [NodeJS.ErrnoException] and the [status] that [http-errors] or the
    handler itself attaches. *)
Record Error := mkError {
  err_code : option string;
  err_status : option Z
}.

(** [createError(status)] of http-errors. *)
Definition createError (status : Z) : Error :=
  {| err_code := None; err_status := Some status |}.

(** [err.code === c]. *)
Definition code_is (e : Error) (c : string) : bool :=
  match err_code e with
  | Some c' => c' =?s c
  | None => false
  end.

(** The result an asynchronous call hands to its callback: [(err, data)]. *)
Inductive Result (A : Type) : Type :=
| Ok (a : A)
| Err (e : Error).
Arguments Ok {A} a.
Arguments Err {A} e.

(** [fs.Stats], as far as the listing reads it. *)
Record Stats := mkStats {
  isDirectory : bool;
  size : Z;
  mtime : Z
}.

(** The file system a request runs against. *)
Record FileSystem := {
  fs_stat : string -> Result Stats;
  fs_readdir : string -> Result (list string);
  fs_readFile : string -> Result string
}.

(** [fs.readdir] never lists the entries [.] and [..] of a directory. *)
Definition readdir_omits_dots (fs : FileSystem) : Prop :=
  forall p l, fs_readdir fs p = Ok l -> ~ In "." l /\ ~ In ".." l.

(** The calls a run makes to the file system. *)
Inductive FsCall :=
| CallStat (p : string)
| CallReaddir (p : string)
| CallReadFile (p : string).

(** [TemplateLocalFilter]: an entry of the listing with its metadata,
    [null] when the entry had vanished by the time it was looked up. *)
Record TemplateLocalFilter := mkFile {
  file_name : string;
  file_stat : option Stats
}.

(** [TemplateLocal]: what the HTML template receives. *)
Record TemplateLocal := {
  directory : string;
  displayIcons : bool;
  fileList : list TemplateLocalFilter;
  path : string;
  style : string;
  viewName : string
}.

(** The [template] option: a path, or a rendering function whose callback
    receives [(error, htmlString)]. *)
Inductive Template :=
| TemplatePath (p : string)
| TemplateFunction (f : TemplateLocal -> Result string).

(** [ServeIndexOptions]; an absent flag reads as [false]. *)
Record ServeIndexOptions := {
  filter : option (string -> nat -> list string -> string -> bool);
  hidden : bool;
  icons : bool;
  stylesheet : option string;
  template : option Template;
  view : option string
}.

(** The request, as the handler reads it: the method, the path components
    [parseUrl(req)?.pathname] and [parseUrl.original(req)?.pathname]
    ([None] for [undefined] or [null]) and what the client accepts. *)
Record IncomingMessage := {
  method : string;
  pathname : option string;
  original_pathname : option string;
  accept : string -> nat
}.

Inductive HeaderValue :=
| Text (s : string)
| Num (n : nat).

(** How a run of the handler ends. *)
Inductive Outcome :=
| End (statusCode : option Z) (headers : list (string * HeaderValue))
      (body : string)                 (* [res.end]: this handler answered *)
| Next (err : option Error)           (* [next()] or [next(err)] *)
| Throw (exn : string)                (* an exception left the handler *)
| Stalled.                            (* no callback was ever invoked *)

Definition Run : Type := list FsCall * Outcome.

Definition finish (o : Outcome) : Run := ([], o).

(** A call to the file system issued now, and the rest of the run. *)
Definition after (c : FsCall) (k : Run) : Run := (c :: fst k, snd k).

(** The world outside the process: the file system, and the order in which
    outstanding lookups complete (each number picks one of the lookups in
    flight, modulo their count). *)
Record World := {
  fs : FileSystem;
  completion : list nat
}.

(** What Node.js provides to the handler. *)
Class Host := {
  (** node:path; the separator is one character, [/] or a backslash *)
  separator : ascii;
  normalize : string -> string;
  join : string -> string -> string;
  resolve : string -> string;
  (** [__dirname] of the module *)
  dirname : string;
  (** [decodeURIComponent]; [None] when it throws URIError *)
  decodeURIComponent : string -> option string;
  (** [String.prototype.toLocaleLowerCase] and [localeCompare] *)
  toLocaleLowerCase : string -> string;
  localeCompare : string -> string -> Z;
  (** the four [replace] calls of [createHtmlRender] on a template text *)
  substitute : string -> TemplateLocal -> string
}.

(** [sep] of node:path. *)
Definition sep {host : Host} : string := String separator "".

(* ================================================================== *)
(** ** The [batch] package: bounded concurrency *)

Module Batch.
Section Queue.
Context {R : Type}.

(** A function pushed on the batch: the call it issues when it is
    started, and what it will pass to [done] when the call completes. *)
Definition Job : Type := (FsCall * Result R)%type.

Record State := {
  in_flight : list (nat * Result R);  (* started, not yet called back *)
  queued : list (nat * Job);          (* [fns] from [index] on *)
  results : list (nat * R);           (* [results[i] = res] so far *)
  issued : list FsCall                (* the calls started, in order *)
}.

(** Take the element at position [n] out of a list. *)
Fixpoint take_at {A} (n : nat) (l : list A) : option (A * list A) :=
  match l, n with
  | [], _ => None
  | x :: rest, O => Some (x, rest)
  | x :: rest, S n' =>
      match take_at n' rest with
      | Some (y, rest') => Some (y, x :: rest')
      | None => None
      end
  end.

(** The lookup that completes next, chosen by the world. *)
Definition pick {A} (choice : nat) (l : list A) : option (A * list A) :=
  take_at (choice mod List.length l) l.

(** The array [results], read in index order once every slot is set. *)
Definition slot (rs : list (nat * R)) (i : nat) : list R :=
  match find (fun p => (fst p =? i)%nat) rs with
  | Some p => [snd p]
  | None => []
  end.

Definition collect (total : nat) (rs : list (nat * R)) : list R :=
  flat_map (slot rs) (seq 0 total).

(** One completion per round: [callback(err, res)] of [Batch.prototype.end]
    with [throws] set.  An error ends the batch at once ([done = true;
    cb(err)]); a result is stored, and either the batch is complete
    ([--pending] reached 0) or the next queued function is started. *)
Fixpoint run (fuel total : nat) (sched : list nat) (st : State)
    : list FsCall * option (Result (list R)) :=
  match fuel with
  | O => (issued st, None)
  | S fuel' =>
      match pick (hd 0%nat sched) (in_flight st) with
      | None => (issued st, None)
      | Some ((i, Err e), _) => (issued st, Some (Err e))
      | Some ((i, Ok v), rest) =>
          let results' := (i, v) :: results st in
          if (total - List.length results' =? 0)%nat then
            (issued st, Some (Ok (collect total results')))
          else
            match queued st with
            | (j, (c, r)) :: q =>
                run fuel' total (tl sched)
                  {| in_flight := rest ++ [(j, r)]; queued := q;
                     results := results'; issued := issued st ++ [c] |}
            | [] =>
                run fuel' total (tl sched)
                  {| in_flight := rest; queued := [];
                     results := results'; issued := issued st |}
            end
      end
  end.

Definition started (p : nat * Job) : nat * Result R := (fst p, snd (snd p)).

(** [batch.end(cb)] on the pushed functions [fns], at most [max] of them
    in flight.  The result is [None] if [cb] is never called. *)
Definition end_ (max : nat) (sched : list nat) (fns : list Job)
    : list FsCall * option (Result (list R)) :=
  match fns with
  | [] => ([], Some (Ok []))
  | _ =>
      let indexed := combine (seq 0 (List.length fns)) fns in
      run (List.length fns) (List.length fns) sched
        {| in_flight := map started (firstn max indexed);
           queued := skipn max indexed;
           results := [];
           issued := map (fun p => fst (snd p)) (firstn max indexed) |}
  end.

(** What holds of the state between two completions. *)
Record Inv (fns : list Job) (st : State) : Prop := {
  inv_flight : forall i r, In (i, r) (in_flight st) ->
    exists c, nth_error fns i = Some (c, r);
  inv_queued : forall j c r, In (j, (c, r)) (queued st) ->
    nth_error fns j = Some (c, r);
  inv_results : forall i v, In (i, v) (results st) ->
    exists c, nth_error fns i = Some (c, Ok v);
  inv_issued :
    issued st ++ map (fun p => fst (snd p)) (queued st) = map fst fns;
  inv_cover : forall i, (i < List.length fns)%nat ->
    In i (map fst (results st)) \/ In i (map fst (in_flight st)) \/
    In i (map fst (queued st));
  inv_count :
    (List.length (results st) + List.length (in_flight st)
     + List.length (queued st) = List.length fns)%nat;
  inv_progress : in_flight st = [] -> queued st = []
}.

(** How a batch may end: the calls issued are the first ones of the
    functions, in order; results come one per function, in order, after
    every call was issued; an error is the error of one function. *)
Definition ends_well (fns : list Job) (calls : list FsCall)
    (out : Result (list R)) : Prop :=
  (exists more, calls ++ more = map fst fns) /\
  match out with
  | Ok vs => Forall2 (fun job v => snd job = Ok v) fns vs /\
             calls = map fst fns
  | Err e => exists c, In (c, Err e) fns
  end.
End Queue.
Arguments State R : clear implicits.
Arguments Job R : clear implicits.
End Batch.

(* ================================================================== *)
(** ** The helpers of [src/index.ts] *)

Section Handler.
Context {host : Host}.

(** [removeHidden]: drop the names whose first character is a dot. *)
Definition removeHidden (files : list string) : list string :=
  List.filter (fun file => Js.first_char_differs file "."%char) files.

(** [getRequestedDir]: the decoded path of the request, [None] for the
    [null] that the [catch] returns. *)
Definition getRequestedDir (req : IncomingMessage) : option string :=
  decodeURIComponent (match pathname req with Some p => p | None => "" end).

(** [b.stat && b.stat.isDirectory()], as [Number] reads it. *)
Definition is_dir (f : TemplateLocalFilter) : bool :=
  match file_stat f with
  | Some s => isDirectory s
  | None => false
  end.

(** [fileSort]: [..] on top, then directories, then by lower-cased name. *)
Definition fileSort (a b : TemplateLocalFilter) : Z :=
  if (file_name a =?s "..") || (file_name b =?s "..") then
    if file_name a =?s file_name b then 0
    else if file_name a =?s ".." then -1 else 1
  else
    Js.or_else
      (Js.Number (is_dir b) - Js.Number (is_dir a))
      (localeCompare (toLocaleLowerCase (file_name a))
                     (toLocaleLowerCase (file_name b))).

(** The class [fileSort] puts an entry in: the parent link, directories,
    the rest. *)
Definition rank (f : TemplateLocalFilter) : nat :=
  if file_name f =?s ".." then 0%nat else if is_dir f then 1%nat else 2%nat.

(** The comparison of two names within a class. *)
Definition compare_names (a b : TemplateLocalFilter) : Z :=
  localeCompare (toLocaleLowerCase (file_name a))
                (toLocaleLowerCase (file_name b)).

(** The function [stat] pushes on the batch for [file]: [fs.stat] on the
    joined path; ENOENT is passed on as a [null] stat, any other error as
    the error. *)
Definition stat_job (w : World) (dir file : string)
    : Batch.Job TemplateLocalFilter :=
  (CallStat (join dir file),
   match fs_stat (fs w) (join dir file) with
   | Err e =>
       if negb (code_is e "ENOENT") then Err e
       else Ok {| file_name := file; file_stat := None |}
   | Ok s => Ok {| file_name := file; file_stat := Some s |}
   end).

(** [stat]: look every file up, ten at a time, and call [cb] with the
    entries in the order of [files], or with the first error. *)
Definition stat (w : World) (dir : string) (files : list string)
    (cb : Result (list TemplateLocalFilter) -> Run) : Run :=
  match Batch.end_ 10 (completion w) (map (stat_job w dir) files) with
  | (calls, Some r) => (calls ++ fst (cb r), snd (cb r))
  | (calls, None) => (calls, Stalled)
  end.

(** The entry [stat] records for [file] when the lookup gives metadata or
    finds the file gone. *)
Definition entry (w : World) (dir file : string) : TemplateLocalFilter :=
  {| file_name := file;
     file_stat :=
       match fs_stat (fs w) (join dir file) with
       | Ok s => Some s
       | Err _ => None
       end |}.

(** The lookup of [file] fails, and not because the file is gone. *)
Definition lookup_fails (w : World) (dir file : string) (e : Error) : Prop :=
  fs_stat (fs w) (join dir file) = Err e /\ code_is e "ENOENT" = false.

(** The lookups of [files], in order. *)
Definition lookups (dir : string) (files : list string) : list FsCall :=
  map (fun file => CallStat (join dir file)) files.

(** [send]: the headers and the body of an answer. *)
Definition send (type body : string) : Outcome :=
  End None
    [("X-Content-Type-Options", Text "nosniff");
     ("Content-Type", Text (type ++ "; charset=utf-8"));
     ("Content-Length", Num (String.length body))]
    body.

(** [createHtmlRender]: read the template, substitute, call back. *)
Definition createHtmlRender (w : World) (template : string)
    (locals : TemplateLocal) (callback : Result string -> Run) : Run :=
  after (CallReadFile template)
    match fs_readFile (fs w) template with
    | Err e => callback (Err e)
    | Ok str => callback (Ok (substitute str locals))
    end.

(** The part of [serveIndex.html] that runs on the sorted entries: read
    the stylesheet, build the locals, render, send. *)
Definition html_render (w : World) (dir : string) (icons : bool)
    (path view : string) (template : Template) (stylesheet : string)
    (fileList : list TemplateLocalFilter) : Run :=
  let render :=
    match template with
    | TemplatePath p => createHtmlRender w p
    | TemplateFunction f => fun locals callback => callback (f locals)
    end in
  after (CallReadFile stylesheet)
    match fs_readFile (fs w) stylesheet with
    | Err e => finish (Next (Some e))
    | Ok style =>
        let locals :=
          {| directory := dir; displayIcons := icons; fileList := fileList;
             path := path; style := style; viewName := view |} in
        render locals (fun r =>
          match r with
          | Err e => finish (Next (Some e))
          | Ok body => finish (send "text/html" body)
          end)
    end.

(** [serveIndex.html]. *)
Definition serveIndex_html (w : World) (files : list string) (dir : string)
    (showUp icons : bool) (path view : string) (template : Template)
    (stylesheet : string) : Run :=
  let files := if showUp then ".." :: files else files in
  stat w path files (fun r =>
    match r with
    | Err e => finish (Next (Some e))
    | Ok fileList =>
        html_render w dir icons path view template stylesheet
          (Js.sort fileSort fileList)
    end).

(** The bodies of the two other responders, on the sorted entries. *)
Definition json_body (fileList : list TemplateLocalFilter) : string :=
  Js.JSON_stringify (map file_name fileList).

Definition LF : string := String "010"%char "".

Definition plain_body (fileList : list TemplateLocalFilter) : string :=
  Js.join LF (map file_name fileList) ++ LF.

(** [serveIndex.json]. *)
Definition serveIndex_json (w : World) (files : list string) (path : string)
    : Run :=
  stat w path files (fun r =>
    match r with
    | Err e => finish (Next (Some e))
    | Ok fileList =>
        finish (send "application/json"
                  (json_body (Js.sort fileSort fileList)))
    end).

(** [serveIndex.plain]. *)
Definition serveIndex_plain (w : World) (files : list string) (path : string)
    : Run :=
  stat w path files (fun r =>
    match r with
    | Err e => finish (Next (Some e))
    | Ok fileList =>
        finish (send "text/plain" (plain_body (Js.sort fileSort fileList)))
    end).

(** [mediaTypes] and the map [mediaType]. *)
Definition mediaTypes : list string :=
  ["text/html"; "text/plain"; "application/json"].

Inductive Responder := html | plain | json.

Definition mediaType (type : string) : option Responder :=
  if type =?s "text/html" then Some html
  else if type =?s "text/plain" then Some plain
  else if type =?s "application/json" then Some json
  else None.

(** Modelled from the spec: [accepts(req).type(offered)] of the accepts
    package, which [src/] only calls.  Section 4.6: given what the client
    declares acceptable and the offered set, exactly one offered type is
    selected; there is none when no offered type is acceptable; among
    equally preferred types the order of the offered set decides.  The
    client's declaration is [pref]: the preference it gives a media type,
    0 for a type it does not accept. *)
Fixpoint accepts_type (pref : string -> nat) (offered : list string)
    : option string :=
  match offered with
  | [] => None
  | t :: rest =>
      match accepts_type pref rest with
      | Some u => if (pref t <? pref u)%nat then Some u else Some t
      | None => if (pref t =? 0)%nat then None else Some t
      end
  end.

Definition defaultTemplate : string :=
  join (join dirname "public") "directory.html".

Definition defaultStylesheet : string :=
  join (join dirname "public") "style.css".

Definition NUL : string := String Ascii.zero "".

(** The root and the requested path, as [handle] computes them. *)
Definition root_path (root : string) : string :=
  normalize (resolve root ++ sep).

Definition resolved (root dir : string) : string :=
  normalize (join (root_path root) dir).

(** [showUp]: the requested directory is not the root. *)
Definition show_up (root dir : string) : bool :=
  negb (normalize (resolve (resolved root dir) ++ sep) =?s root_path root).

(** The request passes the method gate. *)
Definition reads (req : IncomingMessage) : Prop :=
  method req = "GET" \/ method req = "HEAD".

(** Both path components of the request decode. *)
Definition decodes (req : IncomingMessage) (dir originalDir : string) : Prop :=
  decodeURIComponent
    (match pathname req with Some p => p | None => "" end) = Some dir /\
  decodeURIComponent
    (match original_pathname req with Some p => p | None => "" end)
  = Some originalDir.

(** The entries handed to the responder: [readdir]'s, without the hidden
    ones unless [hidden] is set, through the [filter] option, sorted. *)
Definition listed (opts : ServeIndexOptions) (path : string)
    (files : list string) : list string :=
  let files := if negb (hidden opts) then removeHidden files else files in
  let files :=
    match filter opts with
    | Some f =>
        Js.filter (fun filename index list => f filename index list path)
          files
    | None => files
    end in
  Js.sort Js.default_compare files.

(** The options with their defaults, as the closure of [serveIndex]
    holds them. *)
Definition stylesheet_of (opts : ServeIndexOptions) : string :=
  Js.string_or (stylesheet opts) defaultStylesheet.

Definition template_of (opts : ServeIndexOptions) : Template :=
  match template opts with
  | Some (TemplatePath p) =>
      if p =?s "" then TemplatePath defaultTemplate else TemplatePath p
  | Some t => t
  | None => TemplatePath defaultTemplate
  end.

Definition view_of (opts : ServeIndexOptions) : string :=
  Js.string_or (view opts) "tiles".

(** [serveIndex[mediaType[type]](...)]. *)
Definition respond (opts : ServeIndexOptions) (w : World) (type : string)
    (files : list string) (originalDir : string) (showUp : bool)
    (path : string) : Run :=
  match mediaType type with
  | Some html =>
      serveIndex_html w files originalDir showUp (icons opts) path
        (view_of opts) (template_of opts) (stylesheet_of opts)
  | Some json => serveIndex_json w files path
  | Some plain => serveIndex_plain w files path
  | None => finish (Throw "TypeError")
  end.

(** The callback of [fs.readdir]. *)
Definition on_readdir (opts : ServeIndexOptions) (w : World)
    (req : IncomingMessage) (originalDir : string) (showUp : bool)
    (path : string) (r : Result (list string)) : Run :=
  match r with
  | Err err => finish (Next (Some err))
  | Ok files =>
      let files := listed opts path files in
      (* content-negotiation *)
      match accepts_type (accept req) mediaTypes with
      | None => finish (Next (Some (createError 406)))   (* not acceptable *)
      | Some type => respond opts w type files originalDir showUp path
      end
  end.

(** The callback of [fs.stat]: check if we have a directory. *)
Definition on_stat (opts : ServeIndexOptions) (w : World)
    (req : IncomingMessage) (originalDir : string) (showUp : bool)
    (path : string) (r : Result Stats) : Run :=
  match r with
  | Err err =>
      if code_is err "ENOENT" then finish (Next None)
      else
        finish (Next (Some
          {| err_code := err_code err;
             err_status :=
               Some (if code_is err "ENAMETOOLONG" then 414 else 500) |}))
  | Ok st =>
      if negb (isDirectory st) then finish (Next None)
      else
        (* fetch files *)
        after (CallReaddir path)
          (on_readdir opts w req originalDir showUp path
             (fs_readdir (fs w) path))
  end.

(** The function that [serveIndex(root, options)] returns. *)
Definition handle (root : string) (opts : ServeIndexOptions) (w : World)
    (req : IncomingMessage) : Run :=
  let rootPath := normalize (resolve root ++ sep) in
  if negb (method req =?s "GET") && negb (method req =?s "HEAD") then
    finish (End (Some (if "OPTIONS" =?s method req then 200 else 405))
                [("Allow", Text "GET, HEAD, OPTIONS");
                 ("Content-Length", Text "0")]
                "")
  else
  (* get dir *)
  match getRequestedDir req with
  | None => finish (Next (Some (createError 400)))   (* bad request *)
  | Some dir =>
  (* parse URLs *)
  match decodeURIComponent
          (match original_pathname req with Some p => p | None => "" end) with
  | None => finish (Throw "URIError")
  | Some originalDir =>
  (* join / normalize from root dir *)
  let path := normalize (join rootPath dir) in
  (* null byte(s), bad request *)
  if Js.truthy (Js.bitnot (Js.indexOf NUL path)) then
    finish (Next (Some (createError 400)))
  (* malicious path *)
  else if negb (Js.substr 0 (String.length rootPath) (path ++ sep)
                =?s rootPath) then
    finish (Next (Some (createError 403)))
  else
  (* determine ".." display *)
  let showUp := negb (normalize (resolve path ++ sep) =?s rootPath) in
  after (CallStat path)
    (on_stat opts w req originalDir showUp path (fs_stat (fs w) path))
  end
  end.

(** The request reaches the listing of a directory: it passes the guards,
    its path is a directory, and [readdir] gives [raw]. *)
Definition reaches_listing (root : string) (w : World)
    (req : IncomingMessage) (dir originalDir : string) (raw : list string)
    : Prop :=
  reads req /\ decodes req dir originalDir /\
  ~ Js.contains Ascii.zero (resolved root dir) /\
  Js.is_prefix (root_path root) (resolved root dir ++ sep) /\
  (exists st, fs_stat (fs w) (resolved root dir) = Ok st /\
              isDirectory st = true) /\
  fs_readdir (fs w) (resolved root dir) = Ok raw.

(** The names a responder hands to [stat]: only [serveIndex.html] puts
    [..] in front, and only when [showUp] is set. *)
Definition given_to_stat (t : Responder) (showUp : bool)
    (files : list string) : list string :=
  match t with
  | html => if showUp then ".." :: files else files
  | _ => files
  end.

(** The sorted entries of [files]: what a responder renders once every
    lookup has called back. *)
Definition listing (w : World) (path : string) (files : list string)
    : list TemplateLocalFilter :=
  Js.sort fileSort (map (entry w path) files).

(** What a responder does with the sorted entries. *)
Definition rendered (opts : ServeIndexOptions) (w : World) (t : Responder)
    (originalDir path : string) (fileList : list TemplateLocalFilter) : Run :=
  match t with
  | html =>
      html_render w originalDir (icons opts) path (view_of opts)
        (template_of opts) (stylesheet_of opts) fileList
  | json => finish (send "application/json" (json_body fileList))
  | plain => finish (send "text/plain" (plain_body fileList))
  end.

(** No lookup of [files] fails, except by finding a file gone. *)
Definition lookups_succeed (w : World) (dir : string) (files : list string)
    : Prop :=
  forall f e, In f files -> ~ lookup_fails w dir f e.

(** The name starts with a dot. *)
Definition starts_with_dot (name : string) : Prop :=
  exists rest, name = String "."%char rest.

(** [serveIndex]: the root is required. *)
Definition serveIndex (root : string) (opts : ServeIndexOptions)
    : string + (World -> IncomingMessage -> Run) :=
  if root =?s "" then inl "TypeError: serveIndex() root path required"
  else inr (handle root opts).

End Handler.

(* ================================================================== *)
(** ** A host to run the model on: POSIX paths, the C locale

    The examples below need the host's functions at concrete arguments.
    [Posix] follows Node's [path.posix] and ECMAScript's Decode; the
    theorems do not depend on it. *)

Module Posix.
Local Open Scope string_scope.

(** [s.split(c)]. *)
Fixpoint split (c : ascii) (s : string) : list string :=
  match s with
  | EmptyString => [""]
  | String x rest =>
      match split c rest with
      | seg :: segs =>
          if Ascii.eqb x c then "" :: seg :: segs else String x seg :: segs
      | [] => []
      end
  end.

(** [normalizeString]: drop empty and [.] segments, let [..] remove the
    segment before it; above the start it is kept or dropped. *)
Definition segment (allowAboveRoot : bool) (acc : list string)
    (seg : string) : list string :=
  if (seg =?s "") || (seg =?s ".") then acc
  else if seg =?s ".." then
    match acc with
    | top :: below =>
        if top =?s ".." then ".." :: acc else below
    | [] => if allowAboveRoot then [".."] else []
    end
  else seg :: acc.

Definition normalizeString (allowAboveRoot : bool) (p : string) : string :=
  String.concat "/"
    (rev (fold_left (segment allowAboveRoot) (split "/" p) [])).

Definition starts_with_slash (p : string) : bool :=
  match p with
  | String c _ => Ascii.eqb c "/"
  | EmptyString => false
  end.

Fixpoint ends_with_slash (p : string) : bool :=
  match p with
  | EmptyString => false
  | String c EmptyString => Ascii.eqb c "/"
  | String _ rest => ends_with_slash rest
  end.

Definition normalize (p : string) : string :=
  if p =?s "" then "."
  else
    let isAbsolute := starts_with_slash p in
    let trailingSeparator := ends_with_slash p in
    let q := normalizeString (negb isAbsolute) p in
    if q =?s "" then
      if isAbsolute then "/" else if trailingSeparator then "./" else "."
    else
      let q := if trailingSeparator then q ++ "/" else q in
      if isAbsolute then "/" ++ q else q.

Definition join (a b : string) : string :=
  if a =?s "" then (if b =?s "" then "." else normalize b)
  else if b =?s "" then normalize a
  else normalize (a ++ "/" ++ b).

(** [resolve(p)] in the working directory [cwd], an absolute path. *)
Definition resolve (cwd p : string) : string :=
  let full :=
    if p =?s "" then cwd ++ "/"
    else if starts_with_slash p then p ++ "/"
    else cwd ++ "/" ++ p ++ "/" in
  "/" ++ normalizeString false full.

(** Decode of ECMAScript for [decodeURIComponent]: every escape is a
    percent sign and two hexadecimal digits, and the escaped bytes from
    128 on form well-formed UTF-8. *)
Fixpoint unescape (s : string) : option (list (bool * nat)) :=
  match s with
  | EmptyString => Some []
  | String c rest =>
      if Ascii.eqb c "%" then
        match rest with
        | String a (String b rest') =>
            match Js.hex_value a, Js.hex_value b, unescape rest' with
            | Some x, Some y, Some l => Some ((true, 16 * x + y)%nat :: l)
            | _, _, _ => None
            end
        | _ => None
        end
      else
        match unescape rest with
        | Some l => Some ((false, nat_of_ascii c) :: l)
        | None => None
        end
  end.

Definition between (lo hi n : nat) : bool := (lo <=? n)%nat && (n <=? hi)%nat.

Definition second_of_three (b b1 : nat) : bool :=
  if (b =? 224)%nat then between 160 191 b1
  else if (b =? 237)%nat then between 128 159 b1
  else between 128 191 b1.

Definition second_of_four (b b1 : nat) : bool :=
  if (b =? 240)%nat then between 144 191 b1
  else if (b =? 244)%nat then between 128 143 b1
  else between 128 191 b1.

Fixpoint well_formed (l : list (bool * nat)) : bool :=
  match l with
  | [] => true
  | (false, _) :: rest => well_formed rest
  | (true, b) :: rest =>
      if (b <? 128)%nat then well_formed rest
      else if between 194 223 b then
        match rest with
        | (true, b1) :: rest1 => between 128 191 b1 && well_formed rest1
        | _ => false
        end
      else if between 224 239 b then
        match rest with
        | (true, b1) :: (true, b2) :: rest2 =>
            second_of_three b b1 && between 128 191 b2 && well_formed rest2
        | _ => false
        end
      else if between 240 244 b then
        match rest with
        | (true, b1) :: (true, b2) :: (true, b3) :: rest3 =>
            second_of_four b b1 && between 128 191 b2 && between 128 191 b3
            && well_formed rest3
        | _ => false
        end
      else false
  end.

Definition decodeURIComponent (s : string) : option string :=
  match unescape s with
  | Some l =>
      if well_formed l then
        Some (string_of_list_ascii (map (fun p => ascii_of_nat (snd p)) l))
      else None
  | None => None
  end.

(** Lower case and comparison in the C locale. *)
Definition lower (c : ascii) : ascii :=
  let n := nat_of_ascii c in
  if between 65 90 n then ascii_of_nat (n + 32) else c.

Fixpoint toLocaleLowerCase (s : string) : string :=
  match s with
  | EmptyString => ""
  | String c rest => String (lower c) (toLocaleLowerCase rest)
  end.

Definition localeCompare (a b : string) : Z := Js.default_compare a b.

(** The host: working directory [/], module directory [/lib], templates
    that hold no token. *)
Definition host : Host :=
  Build_Host "/"%char normalize join (resolve "/") "/lib" decodeURIComponent
    toLocaleLowerCase localeCompare (fun str _ => str).

End Posix.

(* ================================================================== *)
(** ** A small site to run requests against

    [/srv/www] holds the directory [A], the file [b.txt] and the hidden
    file [.hidden]; [A] holds the file [x]. *)

Module Site.
Local Open Scope string_scope.

Definition ENOENT : Error := {| err_code := Some "ENOENT"; err_status := None |}.
Definition EACCES : Error := {| err_code := Some "EACCES"; err_status := None |}.
Definition ENAMETOOLONG : Error :=
  {| err_code := Some "ENAMETOOLONG"; err_status := None |}.

Definition dir_stats : Stats := {| isDirectory := true; size := 4096; mtime := 0 |}.
Definition file_stats : Stats := {| isDirectory := false; size := 12; mtime := 0 |}.

Definition tree : list (string * Stats) :=
  [("/srv", dir_stats); ("/srv/", dir_stats);
   ("/srv/www", dir_stats); ("/srv/www/", dir_stats);
   ("/srv/www/A", dir_stats); ("/srv/www/A/", dir_stats);
   ("/srv/www/b.txt", file_stats); ("/srv/www/.hidden", file_stats);
   ("/srv/www/A/x", file_stats)].

Fixpoint lookup {A} (k : string) (l : list (string * A)) : option A :=
  match l with
  | [] => None
  | (k', v) :: rest => if k' =?s k then Some v else lookup k rest
  end.

(** The file system, with the lookups that [faults] makes fail. *)
Definition files_with (faults : list (string * Error)) : FileSystem :=
  {| fs_stat := fun p =>
       match lookup p faults with
       | Some e => Err e
       | None =>
           match lookup p tree with
           | Some s => Ok s
           | None => Err ENOENT
           end
       end;
     fs_readdir := fun p =>
       if (p =?s "/srv/www/") || (p =?s "/srv/www") then
         Ok ["b.txt"; ".hidden"; "A"]
       else if (p =?s "/srv/www/A/") || (p =?s "/srv/www/A") then Ok ["x"]
       else Err ENOENT;
     fs_readFile := fun p =>
       if p =?s "/lib/public/style.css" then Ok "ul{}"
       else if p =?s "/lib/public/directory.html" then Ok "<html>"
       else Err ENOENT |}.

Definition files : FileSystem := files_with [].

Definition world : World := {| fs := files; completion := [] |}.

(** The same site when [b.txt] cannot be looked up, and when it has been
    removed since the directory was read; lookups complete last first. *)
Definition locked : World :=
  {| fs := files_with [("/srv/www/b.txt", EACCES)]; completion := [1; 0]%nat |}.

Definition raced : World :=
  {| fs := files_with [("/srv/www/b.txt", ENOENT)]; completion := [1; 0]%nat |}.

(** The site when neither [A] nor [b.txt] can be looked up, for two
    orders of completion. *)
Definition broken (order : list nat) : World :=
  {| fs := files_with [("/srv/www/A", EACCES);
                       ("/srv/www/b.txt", ENAMETOOLONG)];
     completion := order |}.

(** A template function that writes one line per entry: the name, and
    what the metadata says. *)
Definition describe (f : TemplateLocalFilter) : string :=
  file_name f ++
  match file_stat f with
  | Some s => if isDirectory s then " (directory)" else " (file)"
  | None => " (no metadata)"
  end.

Definition lines : Template :=
  TemplateFunction (fun locals =>
    Ok (String.concat LF (map describe (fileList locals)))).

Definition options : ServeIndexOptions :=
  {| filter := None; hidden := false; icons := false; stylesheet := None;
     template := None; view := None |}.

Definition options_lines : ServeIndexOptions :=
  {| filter := None; hidden := false; icons := false; stylesheet := None;
     template := Some lines; view := None |}.

(** Clients that accept one media type only, or anything. *)
Definition only (type : string) : string -> nat :=
  fun t => if t =?s type then 1000%nat else 0%nat.

Definition anything : string -> nat := fun _ => 1000%nat.

Definition request (method url : string) (accept : string -> nat)
    : IncomingMessage :=
  {| method := method; pathname := Some url; original_pathname := Some url;
     accept := accept |}.

Definition get (url : string) (accept : string -> nat) : IncomingMessage :=
  request "GET" url accept.

(** A request below a mount point: [req.url] is [url] and
    [req.originalUrl] has [mount] before it. *)
Definition mounted (mount url : string) (accept : string -> nat)
    : IncomingMessage :=
  {| method := "GET"; pathname := Some url;
     original_pathname := Some (mount ++ url); accept := accept |}.

(** A callback for [stat] that reports what it is called with. *)
Definition report (r : Result (list TemplateLocalFilter)) : Run :=
  finish (match r with
          | Ok l => send "text/plain" (plain_body l)
          | Err e => Next (Some e)
          end).

(** Four entries out of order. *)
Definition unsorted : list TemplateLocalFilter :=
  [ {| file_name := "b.txt"; file_stat := Some file_stats |};
    {| file_name := "Zoo"; file_stat := Some dir_stats |};
    {| file_name := ".."; file_stat := None |};
    {| file_name := "a.txt"; file_stat := None |};
    {| file_name := "A"; file_stat := Some dir_stats |} ].

(** [serveIndex('/srv/www')] on this host. *)
Definition serve : World -> IncomingMessage -> Run :=
  @handle Posix.host "/srv/www" options.

End Site.

(* ================================================================== *)
(** ** More of [src/index.ts] *)

Section Visible.

(** The names that are left once [removeHidden] has been applied, or all
    of them when [hidden] is set: the array [filter] is called on. *)
Definition visible (opts : ServeIndexOptions) (files : list string)
    : list string :=
  if negb (hidden opts) then removeHidden files else files.

End Visible.

(** Inputs for more runs on the small site. *)
Module Cases.
Local Open Scope string_scope.

(** Options whose [filter] rejects every name. *)
Definition nothing : ServeIndexOptions :=
  {| filter := Some (fun _ _ _ _ => false); hidden := false; icons := false;
     stylesheet := None; template := None; view := None |}.

End Cases.

(* ================================================================== *)
(** ** The page: links, icons and their styles *)

(** What the page takes from Node.js and the packages besides [Host]. *)
Class Markup := {
  (** the escape-html package *)
  escapeHtml : string -> string;
  (** [encodeURIComponent] *)
  encodeURIComponent : string -> string;
  (** [extname] of node:path *)
  extname : string -> string;
  (** [mime.lookup]; [None] for [false] *)
  mime_lookup : string -> option string;
  (** [String(Object.prototype[k])] for a property [k] of [Object.prototype] *)
  inherited_text : string -> string;
  (** [toLocaleDateString] and [toLocaleTimeString] of the date [mtime] *)
  toLocaleDateString : Z -> string;
  toLocaleTimeString : Z -> string;
  (** [String(n)] for a number *)
  number_text : Z -> string
}.

Module Text.
Local Open Scope string_scope.

(** [s.substring(1)]. *)
Definition substring1 (s : string) : string :=
  match s with
  | EmptyString => ""
  | String _ rest => rest
  end.

(** [s.replace(c, by)] for a pattern of one character: the first
    occurrence is replaced. *)
Fixpoint replace_first (c : ascii) (by_ : string) (s : string) : string :=
  match s with
  | EmptyString => ""
  | String x rest =>
      if Ascii.eqb x c then by_ ++ rest else String x (replace_first c by_ rest)
  end.

(** How often [c] occurs in [s]. *)
Fixpoint count (c : ascii) (s : string) : nat :=
  match s with
  | EmptyString => 0
  | String x rest => (if Ascii.eqb x c then 1 else 0) + count c rest
  end.

(** Every character through [f]. *)
Fixpoint map_chars (f : ascii -> ascii) (s : string) : string :=
  match s with
  | EmptyString => ""
  | String x rest => String (f x) (map_chars f rest)
  end.

(** The value of the first pair with the key [k]. *)
Fixpoint assoc {A} (k : string) (l : list (string * A)) : option A :=
  match l with
  | [] => None
  | (k', v) :: rest => if k' =?s k then Some v else assoc k rest
  end.

(** The names of the properties of [Object.prototype], which every object
    literal inherits. *)
Definition object_prototype : list string :=
  ["constructor"; "__defineGetter__"; "__defineSetter__"; "hasOwnProperty";
   "__lookupGetter__"; "__lookupSetter__"; "isPrototypeOf";
   "propertyIsEnumerable"; "toString"; "valueOf"; "__proto__";
   "toLocaleString"].

Definition inherited (k : string) : bool :=
  existsb (String.eqb k) object_prototype.

End Text.

(** The icon map [icons]. *)
Module Assets.
Definition icons : list (string * string) :=
  [ ("default", "page_white.png");
    ("folder", "folder.png");
    ("font", "font.png");
    ("image", "image.png");
    ("text", "page_white_text.png");
    ("video", "film.png");
    ("+json", "page_white_code.png");
    ("+xml", "page_white_code.png");
    ("+zip", "box.png");
    ("application/javascript", "page_white_code_red.png");
    ("application/json", "page_white_code.png");
    ("application/msword", "page_white_word.png");
    ("application/pdf", "page_white_acrobat.png");
    ("application/postscript", "page_white_vector.png");
    ("application/rtf", "page_white_word.png");
    ("application/vnd.ms-excel", "page_white_excel.png");
    ("application/vnd.ms-powerpoint", "page_white_powerpoint.png");
    ("application/vnd.oasis.opendocument.presentation", "page_white_powerpoint.png");
    ("application/vnd.oasis.opendocument.spreadsheet", "page_white_excel.png");
    ("application/vnd.oasis.opendocument.text", "page_white_word.png");
    ("application/x-7z-compressed", "box.png");
    ("application/x-sh", "application_xp_terminal.png");
    ("application/x-msaccess", "page_white_database.png");
    ("application/x-shockwave-flash", "page_white_flash.png");
    ("application/x-sql", "page_white_database.png");
    ("application/x-tar", "box.png");
    ("application/x-xz", "box.png");
    ("application/xml", "page_white_code.png");
    ("application/zip", "box.png");
    ("image/svg+xml", "page_white_vector.png");
    ("text/css", "page_white_code.png");
    ("text/html", "page_white_code.png");
    ("text/less", "page_white_code.png");
    (".accdb", "page_white_database.png");
    (".apk", "box.png");
    (".app", "application_xp.png");
    (".as", "page_white_actionscript.png");
    (".asp", "page_white_code.png");
    (".aspx", "page_white_code.png");
    (".bat", "application_xp_terminal.png");
    (".bz2", "box.png");
    (".c", "page_white_c.png");
    (".cab", "box.png");
    (".cfm", "page_white_coldfusion.png");
    (".clj", "page_white_code.png");
    (".cc", "page_white_cplusplus.png");
    (".cgi", "application_xp_terminal.png");
    (".cpp", "page_white_cplusplus.png");
    (".cs", "page_white_csharp.png");
    (".db", "page_white_database.png");
    (".dbf", "page_white_database.png");
    (".deb", "box.png");
    (".dll", "page_white_gear.png");
    (".dmg", "drive.png");
    (".docx", "page_white_word.png");
    (".erb", "page_white_ruby.png");
    (".exe", "application_xp.png");
    (".fnt", "font.png");
    (".gam", "controller.png");
    (".gz", "box.png");
    (".h", "page_white_h.png");
    (".ini", "page_white_gear.png");
    (".iso", "cd.png");
    (".jar", "box.png");
    (".java", "page_white_cup.png");
    (".jsp", "page_white_cup.png");
    (".lua", "page_white_code.png");
    (".lz", "box.png");
    (".lzma", "box.png");
    (".m", "page_white_code.png");
    (".map", "map.png");
    (".msi", "box.png");
    (".mv4", "film.png");
    (".pdb", "page_white_database.png");
    (".php", "page_white_php.png");
    (".pl", "page_white_code.png");
    (".pkg", "box.png");
    (".pptx", "page_white_powerpoint.png");
    (".psd", "page_white_picture.png");
    (".py", "page_white_code.png");
    (".rar", "box.png");
    (".rb", "page_white_ruby.png");
    (".rm", "film.png");
    (".rom", "controller.png");
    (".rpm", "box.png");
    (".sass", "page_white_code.png");
    (".sav", "controller.png");
    (".scss", "page_white_code.png");
    (".srt", "page_white_text.png");
    (".tbz2", "box.png");
    (".tgz", "box.png");
    (".tlz", "box.png");
    (".vb", "page_white_code.png");
    (".vbs", "page_white_code.png");
    (".xcf", "page_white_picture.png");
    (".xlsx", "page_white_excel.png");
    (".yaws", "page_white_code.png") ].
End Assets.

(** What [iconStyle] may throw: the error of [fs.readFileSync], or the
    TypeError of calling [indexOf] on what has none. *)
Inductive Thrown :=
| ReadError (e : Error)
| TypeError.

Inductive Try (A : Type) : Type :=
| Returned (a : A)
| Raised (t : Thrown).
Arguments Returned {A} a.
Arguments Raised {A} t.

Section Page.
Context {host : Host} {markup : Markup}.

(** [normalizeSlashes]: the separator of the system to [/]. *)
Definition normalizeSlashes (path : string) : string :=
  Js.join "/" (Posix.split separator path).

(** The anchor of one crumb of [htmlPath]. *)
Definition crumb_link (href text : string) : string :=
  ("<a href=" ++ String Js.dquote (escapeHtml href)
   ++ String Js.dquote ">" ++ escapeHtml text ++ "</a>")%string.

(** The loop of [htmlPath]: [done] are the parts before, already encoded
    in place; an empty part leaves a hole in [crumb]. *)
Fixpoint crumbs (done parts : list string) : list string :=
  match parts with
  | [] => []
  | part :: rest =>
      if part =?s "" then "" :: crumbs (done ++ [part]) rest
      else
        let encoded := encodeURIComponent part in
        crumb_link (Js.join "/" (done ++ [encoded])) part
          :: crumbs (done ++ [encoded]) rest
  end.

(** A part of the path as [htmlPath] leaves it in [parts]. *)
Definition encoded_part (part : string) : string :=
  if part =?s "" then "" else encodeURIComponent part.

(** [htmlPath]: the linked path of a directory. *)
Definition htmlPath (dir : string) : string :=
  Js.join " / " (crumbs [] (Posix.split "/" dir)).

(** [icons[key]]: the value of the map, the inherited property for a key
    that names one (it is truthy), [None] for [undefined]. *)
Definition icons_get (key : string) : option string :=
  match Text.assoc key Assets.icons with
  | Some v => Some v
  | None => if Text.inherited key then Some (inherited_text key) else None
  end.

(** [icons.default] and [icons.folder]. *)
Definition icons_dot (key : string) : string :=
  match Text.assoc key Assets.icons with
  | Some v => v
  | None => ""
  end.

Record Icon := {
  className : string;
  fileName : string
}.

(** [iconLookup]: by extension, by mime type, by mime suffix, by the type
    alone, else the default. *)
Definition iconLookup (filename : string) : Icon :=
  let ext := extname filename in
  match icons_get ext with
  | Some f => {| className := "icon-" ++ Text.substring1 ext; fileName := f |}
  | None =>
  match mime_lookup ext with
  | None => {| className := "icon-default"; fileName := icons_dot "default" |}
  | Some mimetype =>
  match icons_get mimetype with
  | Some f =>
      {| className :=
           "icon-" ++ Text.replace_first "+" "_"
                        (Text.replace_first "/" "-" mimetype);
         fileName := f |}
  | None =>
  let by_type :=
    let type := hd "" (Posix.split "/" mimetype) in
    match icons_get type with
    | Some f => {| className := "icon-" ++ type; fileName := f |}
    | None =>
        {| className := "icon-default"; fileName := icons_dot "default" |}
    end in
  match nth_error (Posix.split "+" mimetype) 1 with
  | Some suffix =>
      if suffix =?s "" then by_type
      else
        match icons_get ("+" ++ suffix) with
        | Some f => {| className := "icon-" ++ suffix; fileName := f |}
        | None => by_type
        end
  | None => by_type
  end
  end
  end
  end.

(** The shape node:path's [extname] gives: nothing, or a dot and more. *)
Definition extension_like (ext : string) : Prop :=
  ext = "" \/ exists rest, ext = String "." rest.

(** The shape of a media type: a slash after a type that is no property
    of [Object.prototype]. *)
Definition media_type_like (m : string) : Prop :=
  Js.contains "/" m
  /\ Text.inherited (hd "" (Posix.split "/" m)) = false.

(** The icon of an entry of the listing. *)
Definition icon_of (file : TemplateLocalFilter) : Icon :=
  if is_dir file then
    {| className := "icon-directory"; fileName := icons_dot "folder" |}
  else iconLookup (file_name file).

(** The classes of the link of an entry. *)
Definition classes_of (useIcons : bool) (file : TemplateLocalFilter)
    : list string :=
  if useIcons then
    if is_dir file then ["icon"; "icon-directory"]
    else
      let classes :=
        ["icon"; "icon";
         ("icon-" ++ Text.substring1 (extname (file_name file)))%string] in
      let icon := iconLookup (file_name file) in
      if existsb (String.eqb (className icon)) classes then classes
      else classes ++ [className icon]
  else [].

(** The address of the link of an entry of [dir]. *)
Definition link_of (dir : string) (file : TemplateLocalFilter) : string :=
  normalizeSlashes
    (normalize
       (Js.join "/"
          (map encodeURIComponent (Posix.split "/" dir)
           ++ [encodeURIComponent (file_name file)]))).

(** The date and the size an entry shows. *)
Definition date_of (file : TemplateLocalFilter) : string :=
  match file_stat file with
  | Some st =>
      if file_name file =?s ".." then ""%string
      else (toLocaleDateString (mtime st) ++ " "
            ++ toLocaleTimeString (mtime st))%string
  | None => ""%string
  end.

Definition size_of (file : TemplateLocalFilter) : string :=
  match file_stat file with
  | Some st => if isDirectory st then ""%string else number_text (size st)
  | None => ""%string
  end.

(** [attr="value"], the value escaped. *)
Definition attribute (name value : string) : string :=
  (name ++ "=" ++ String Js.dquote (escapeHtml value)
   ++ String Js.dquote "")%string.

(** [<span class="name">text</span>], the text escaped. *)
Definition span (name text : string) : string :=
  ("<span class=" ++ String Js.dquote name ++ String Js.dquote ">"
   ++ escapeHtml text ++ "</span>")%string.

(** One entry of the list of [createHtmlFileList]. *)
Definition list_item (dir : string) (useIcons : bool)
    (file : TemplateLocalFilter) : string :=
  ("<li><a " ++ attribute "href" (link_of dir file)
   ++ " " ++ attribute "class" (Js.join " " (classes_of useIcons file))
   ++ " " ++ attribute "title" (file_name file) ++ ">"
   ++ span "name" (file_name file)
   ++ span "size" (size_of file)
   ++ span "date" (date_of file)
   ++ "</a></li>")%string.

(** The header of the details view. *)
Definition list_header : string :=
  ("<li class=" ++ String Js.dquote "header" ++ String Js.dquote ">"
   ++ "<span class=" ++ String Js.dquote "name" ++ String Js.dquote ">"
   ++ "Name</span>"
   ++ "<span class=" ++ String Js.dquote "size" ++ String Js.dquote ">"
   ++ "Size</span>"
   ++ "<span class=" ++ String Js.dquote "date" ++ String Js.dquote ">"
   ++ "Modified</span>"
   ++ "</li>")%string.

(** [createHtmlFileList]: the entries as an unordered list. *)
Definition createHtmlFileList (files : list TemplateLocalFilter)
    (dir : string) (useIcons : bool) (view : string) : string :=
  ("<ul id=" ++ String Js.dquote "files" ++ String Js.dquote " class="
   ++ String Js.dquote "view-" ++ escapeHtml view ++ String Js.dquote ">"
   ++ (if view =?s "details" then list_header else "")
   ++ Js.join LF (map (list_item dir useIcons) files)
   ++ "</ul>")%string.

(** What escape-html promises: no [<], [>] or double quote is left. *)
Definition escapes (f : string -> string) : Prop :=
  forall s,
    Text.count "<" (f s) = 0%nat /\ Text.count ">" (f s) = 0%nat
    /\ Text.count Js.dquote (f s) = 0%nat.

(** The own properties of the object [cache], the latest first. *)
Definition Cache : Type := list (string * string).

(** The path [load] reads an icon from. *)
Definition icon_path (icon : string) : string :=
  (dirname ++ "/public/icons/" ++ icon)%string.

(** [if (cache[icon]) return cache[icon]]: the text the cache answers
    with, if any.  An own property counts unless it is the empty text; a
    name [Object.prototype] defines gives what it inherits. *)
Definition cached (cache : Cache) (icon : string) : option string :=
  match Text.assoc icon cache with
  | Some v => if v =?s "" then None else Some v
  | None => if Text.inherited icon then Some (inherited_text icon) else None
  end.

(** [load]: the cached text if there is one, else the file in base64,
    which is cached; [disk] is [fs.readFileSync(path, 'base64')], and its
    error is thrown. *)
Definition load (disk : string -> Result string) (cache : Cache)
    (icon : string) : Cache * list FsCall * Try string :=
  match cached cache icon with
  | Some v => (cache, [], Returned v)
  | None =>
      match disk (icon_path icon) with
      | Ok data => ((icon, data) :: cache, [CallReadFile (icon_path icon)],
                    Returned data)
      | Err e => (cache, [CallReadFile (icon_path icon)],
                  Raised (ReadError e))
      end
  end.

(** The objects [rules] and [selectors] and the array [list] of
    [iconStyle], one record per icon in the order of [list]. *)
Record Rule := {
  rule_icon : string;
  rule_text : string;
  rule_selectors : list string
}.

Definition has_rule (iconName : string) (sheet : list Rule) : bool :=
  existsb (fun r => rule_icon r =?s iconName) sheet.

(** [if (selectors[iconName].indexOf(selector) === -1) push]. *)
Fixpoint add_selector (iconName selector : string) (sheet : list Rule)
    : list Rule :=
  match sheet with
  | [] => []
  | r :: rest =>
      if rule_icon r =?s iconName then
        (if existsb (String.eqb selector) (rule_selectors r) then r
         else {| rule_icon := rule_icon r; rule_text := rule_text r;
                 rule_selectors := rule_selectors r ++ [selector] |})
        :: rest
      else r :: add_selector iconName selector rest
  end.

Definition background (data : string) : string :=
  ("background-image: url(data:image/png;base64," ++ data ++ ");")%string.

Definition selector_of (icon : Icon) : string :=
  ("#files ." ++ className icon ++ " .name")%string.

(** The first loop of [iconStyle].  An icon name without a rule of its
    own that [Object.prototype] defines passes for one with a rule, and
    its selectors have no [indexOf]. *)
Fixpoint style_loop (disk : string -> Result string) (cache : Cache)
    (sheet : list Rule) (files : list TemplateLocalFilter)
    : Cache * list FsCall * Try (list Rule) :=
  match files with
  | [] => (cache, [], Returned sheet)
  | file :: rest =>
      let icon := icon_of file in
      let iconName := fileName icon in
      if has_rule iconName sheet then
        style_loop disk cache (add_selector iconName (selector_of icon) sheet)
          rest
      else if Text.inherited iconName then (cache, [], Raised TypeError)
      else
        match load disk cache iconName with
        | (cache', calls, Returned data) =>
            let sheet' :=
              sheet ++ [{| rule_icon := iconName;
                           rule_text := background data;
                           rule_selectors := [] |}] in
            match style_loop disk cache'
                    (add_selector iconName (selector_of icon) sheet') rest with
            | (cache'', calls', r) => (cache'', calls ++ calls', r)
            end
        | (cache', calls, Raised t) => (cache', calls, Raised t)
        end
  end.

(** One rule of the style sheet. *)
Definition print_rule (r : Rule) : string :=
  (Js.join ("," ++ LF) (rule_selectors r) ++ " {" ++ LF ++ "  "
   ++ rule_text r ++ LF ++ "}" ++ LF)%string.

(** [iconStyle]: the css of the icons of the entries. *)
Definition iconStyle (disk : string -> Result string) (cache : Cache)
    (files : list TemplateLocalFilter) (useIcons : bool)
    : Cache * list FsCall * Try string :=
  if negb useIcons then (cache, [], Returned "")
  else
    match style_loop disk cache [] files with
    | (cache', calls, Returned sheet) =>
        (cache', calls, Returned (String.concat "" (map print_rule sheet)))
    | (cache', calls, Raised t) => (cache', calls, Raised t)
    end.

(** The texts of [names] in the order of their first occurrence, without
    those in [seen]. *)
Fixpoint firsts (seen names : list string) : list string :=
  match names with
  | [] => []
  | n :: rest =>
      if existsb (String.eqb n) seen then firsts seen rest
      else n :: firsts (seen ++ [n]) rest
  end.

(** The icon file of each entry, and the selectors of the entries that
    share an icon file. *)
Definition icon_names (files : list TemplateLocalFilter) : list string :=
  map (fun file => fileName (icon_of file)) files.

Definition selectors_for (iconName : string)
    (files : list TemplateLocalFilter) : list string :=
  map (fun file => selector_of (icon_of file))
    (List.filter (fun file => fileName (icon_of file) =?s iconName) files).

(** An icon the cache has no text for. *)
Definition missing (cache : Cache) (icon : string) : bool :=
  match cached cache icon with
  | Some _ => false
  | None => true
  end.

(** The text [load] answers with when the file can be read. *)
Definition icon_text (disk : string -> Result string) (cache : Cache)
    (icon : string) : string :=
  match cached cache icon with
  | Some v => v
  | None =>
      match disk (icon_path icon) with
      | Ok data => data
      | Err _ => ""
      end
  end.

Definition read_icon (icon : string) : FsCall :=
  CallReadFile (icon_path icon).

(** The icons [iconStyle] reads for [files]: those of the entries, each
    once, that the cache has no text for. *)
Definition icons_read (cache : Cache) (files : list TemplateLocalFilter)
    : list string :=
  List.filter (missing cache) (firsts [] (icon_names files)).

(** The rule of an icon: its image, and the selectors of the entries that
    show it. *)
Definition rule_of (disk : string -> Result string) (cache : Cache)
    (files : list TemplateLocalFilter) (icon : string) : Rule :=
  {| rule_icon := icon;
     rule_text := background (icon_text disk cache icon);
     rule_selectors := firsts [] (selectors_for icon files) |}.

(** Every icon of [files] can be had: its name is none that
    [Object.prototype] defines, and the cache has its text or the disk
    its file. *)
Definition icons_at_hand (disk : string -> Result string) (cache : Cache)
    (files : list TemplateLocalFilter) : Prop :=
  forall n, In n (icon_names files) ->
    Text.inherited n = false
    /\ (cached cache n = None -> exists d, disk (icon_path n) = Ok d).

(** The entries have names of the usual kind: the extension of each that
    is no directory has the shape node:path gives, and so has its media
    type, if mime-types knows one. *)
Definition usual_names (files : list TemplateLocalFilter) : Prop :=
  forall file, In file files -> is_dir file = false ->
    extension_like (extname (file_name file))
    /\ forall m, mime_lookup (extname (file_name file)) = Some m ->
                 media_type_like m.

(** A rule with the selectors that [files] add to it. *)
Definition grow (files : list TemplateLocalFilter) (r : Rule) : Rule :=
  {| rule_icon := rule_icon r;
     rule_text := rule_text r;
     rule_selectors :=
       rule_selectors r
       ++ firsts (rule_selectors r) (selectors_for (rule_icon r) files) |}.

End Page.

(* ================================================================== *)
(** ** The states of a batch *)

Module Steps.
Import Batch.
Section Steps.
Context {R : Type}.





End Steps.
End Steps.

(* ================================================================== *)
(** ** A page to run the model on *)

Module Web.
Local Open Scope string_scope.

(** The five characters escape-html replaces. *)
Definition escape_char (c : ascii) : string :=
  let n := nat_of_ascii c in
  if (n =? 34)%nat then "&quot;"
  else if (n =? 38)%nat then "&amp;"
  else if (n =? 39)%nat then "&#39;"
  else if (n =? 60)%nat then "&lt;"
  else if (n =? 62)%nat then "&gt;"
  else String c "".

Fixpoint escapeHtml (s : string) : string :=
  match s with
  | EmptyString => ""
  | String c rest => escape_char c ++ escapeHtml rest
  end.

(** [encodeURIComponent] on the bytes of the text: letters, digits and
    [-_.!~*'()] stay, every other byte is escaped. *)
Definition unreserved (c : ascii) : bool :=
  let n := nat_of_ascii c in
  Posix.between 48 57 n || Posix.between 65 90 n || Posix.between 97 122 n
  || existsb (Nat.eqb n) [45; 95; 46; 33; 126; 42; 39; 40; 41]%nat.

Definition upper_hex (n : nat) : ascii :=
  nth n (list_ascii_of_string "0123456789ABCDEF") "0"%char.

Definition encode_char (c : ascii) : string :=
  if unreserved c then String c ""
  else
    let n := nat_of_ascii c in
    String "%" (String (upper_hex (n / 16)) (String (upper_hex (n mod 16)) "")).

Fixpoint encodeURIComponent (s : string) : string :=
  match s with
  | EmptyString => ""
  | String c rest => encode_char c ++ encodeURIComponent rest
  end.

(** [extname] on a name without separator: from the last dot on, nothing
    when there is no dot, when the only dot starts the name, or for [..]. *)
Fixpoint from_last_dot (s : string) : option string :=
  match s with
  | EmptyString => None
  | String c rest =>
      match from_last_dot rest with
      | Some e => Some e
      | None => if Ascii.eqb c "." then Some s else None
      end
  end.

Definition extname (name : string) : string :=
  if name =?s ".." then ""
  else
    match name with
    | EmptyString => ""
    | String _ rest =>
        match from_last_dot rest with
        | Some e => e
        | None => ""
        end
    end.

(** A few lines of the mime database. *)
Definition mime_types : list (string * string) :=
  [("txt", "text/plain"); ("html", "text/html"); ("json", "application/json");
   ("svg", "image/svg+xml"); ("png", "image/png"); ("mp4", "video/mp4");
   ("epub", "application/epub+zip"); ("bin", "application/octet-stream")].

Definition mime_lookup (ext : string) : option string :=
  Text.assoc (Posix.toLocaleLowerCase (Text.substring1 ext)) mime_types.

(** A whole number in decimal digits. *)
Fixpoint digits_before (fuel : nat) (n : Z) (acc : string) : string :=
  match fuel with
  | O => acc
  | S fuel' =>
      let acc' := String (ascii_of_nat (48 + Z.to_nat (n mod 10))) acc in
      if (n / 10 =? 0)%Z then acc' else digits_before fuel' (n / 10) acc'
  end.

Definition digits (n : Z) : string :=
  if (n <? 0)%Z then
    "-" ++ digits_before (Z.to_nat (Z.log2 (- n)) + 1) (- n) ""
  else digits_before (Z.to_nat (Z.log2 n) + 1) n "".

Definition markup : Markup :=
  Build_Markup escapeHtml encodeURIComponent extname mime_lookup
    (fun k => "function " ++ k ++ "() { [native code] }")
    (fun t => "day " ++ digits (t / 86400000))
    (fun t => "ms " ++ digits (t mod 86400000))
    digits.

(** The icon files, all with the same content. *)
Definition disk (p : string) : Result string :=
  if String.prefix "/lib/public/icons/" p then Ok "iVBORw0KGgo="
  else Err Site.ENOENT.

(** A listing with two text files, a picture, a directory and a file
    without extension. *)
Definition entries : list TemplateLocalFilter :=
  [ {| file_name := "A"; file_stat := Some Site.dir_stats |};
    {| file_name := "a.txt"; file_stat := Some Site.file_stats |};
    {| file_name := "b.txt"; file_stat := None |};
    {| file_name := "c.svg"; file_stat := Some Site.file_stats |};
    {| file_name := "Makefile"; file_stat := Some Site.file_stats |} ].

End Web.

(* ================================================================== *)
(** ** The batch: every schedule ends, with the results in order or with
       the error of one of the functions *)

Module BatchFacts.
Import Batch.
Section Facts.
Context {R : Type}.
Variable fns : list (Job R).

Lemma take_at_perm {A} (n : nat) (l : list A) x rest :
  take_at n l = Some (x, rest) -> Permutation l (x :: rest).
Proof.
  revert n x rest. induction l as [|y l IH]; intros n x rest H.
  - destruct n; discriminate.
  - destruct n as [|n]; simpl in H.
    + injection H as <- <-. apply Permutation_refl.
    + destruct (take_at n l) as [[z rest']|] eqn:E; [|discriminate].
      injection H as <- <-.
      eapply Permutation_trans; [|apply perm_swap].
      constructor. eapply IH; eauto.
Qed.

Lemma take_at_some {A} (n : nat) (l : list A) :
  (n < List.length l)%nat -> exists x rest, take_at n l = Some (x, rest).
Proof.
  revert n. induction l as [|y l IH]; intros n H; simpl in H; [lia|].
  destruct n as [|n]; simpl; eauto.
  destruct (IH n) as (x & rest & E); [lia|]. rewrite E. eauto.
Qed.

Lemma pick_some {A} (choice : nat) (l : list A) :
  l <> [] -> exists x rest, pick choice l = Some (x, rest).
Proof.
  intros H. apply take_at_some. apply Nat.mod_upper_bound.
  destruct l; [congruence | discriminate].
Qed.

Lemma in_indexed {A} (l : list A) a i x :
  In (i, x) (combine (seq a (List.length l)) l) ->
  (a <= i)%nat /\ nth_error l (i - a) = Some x.
Proof.
  revert a. induction l as [|y l IH]; intros a H; simpl in H; [tauto|].
  destruct H as [H|H].
  - injection H as <- <-. rewrite Nat.sub_diag. split; [lia | reflexivity].
  - apply IH in H as [H1 H2]. split; [lia|].
    replace (i - a)%nat with (S (i - S a)) by lia. exact H2.
Qed.

Lemma indexed_in {A} (l : list A) a k :
  (k < List.length l)%nat ->
  In (a + k)%nat (map fst (combine (seq a (List.length l)) l)).
Proof.
  revert a k. induction l as [|y l IH]; intros a k H; simpl in H; [lia|].
  destruct k as [|k]; simpl.
  - left. lia.
  - right. replace (a + S k)%nat with (S a + k)%nat by lia.
    apply IH. lia.
Qed.

Lemma map_snd_indexed {A} (l : list A) a :
  map snd (combine (seq a (List.length l)) l) = l.
Proof.
  revert a. induction l as [|y l IH]; intros a; simpl; [reflexivity|].
  now rewrite IH.
Qed.

Lemma find_index (rs : list (nat * R)) i :
  In i (map fst rs) ->
  exists v, find (fun p => (fst p =? i)%nat) rs = Some (i, v) /\ In (i, v) rs.
Proof.
  induction rs as [|[j v] rs IH]; simpl; [tauto|].
  intros H. destruct (Nat.eqb_spec j i) as [->|Hne].
  - exists v. auto.
  - destruct H as [H|H]; [contradiction|].
    destruct (IH H) as (v' & E & Hin). eauto.
Qed.

(** Reading the slots in order gives the value of every function. *)
Lemma collect_all (rs : list (nat * R)) :
  (forall i, (i < List.length fns)%nat -> In i (map fst rs)) ->
  (forall i v, In (i, v) rs -> exists c, nth_error fns i = Some (c, Ok v)) ->
  Forall2 (fun job v => snd job = Ok v) fns (collect (List.length fns) rs).
Proof.
  unfold collect. intros Hcover Hval.
  assert (G : forall (l : list (FsCall * Result R)) off,
    (forall k, (k < List.length l)%nat -> In (off + k)%nat (map fst rs)) ->
    (forall k v, (k < List.length l)%nat -> In ((off + k)%nat, v) rs ->
       exists c, nth_error l k = Some (c, Ok v)) ->
    Forall2 (fun job v => snd job = Ok v) l
      (flat_map (slot rs) (seq off (List.length l)))).
  { induction l as [|job l IH]; intros off Hc Hv; simpl; [constructor|].
    unfold slot at 1.
    destruct (find_index rs off) as (v & E & Hin).
    { specialize (Hc 0%nat). rewrite Nat.add_0_r in Hc. apply Hc. simpl. lia. }
    rewrite E. simpl. constructor.
    - destruct (Hv 0%nat v) as (c & Hc0); [simpl; lia | now rewrite Nat.add_0_r|].
      simpl in Hc0. injection Hc0 as ->. reflexivity.
    - apply IH.
      + intros k Hk. replace (S off + k)%nat with (off + S k)%nat by lia.
        apply Hc. simpl. lia.
      + intros k w Hk Hin'.
        replace (S off + k)%nat with (off + S k)%nat in Hin' by lia.
        destruct (Hv (S k) w) as (c & Hc'); [simpl; lia | exact Hin'|].
        exists c. exact Hc'. }
  apply G.
  - intros k Hk. apply Hcover. exact Hk.
  - intros k v Hk Hin. apply (Hval _ _ Hin).
Qed.

Lemma run_ends fuel : forall sched st,
  Inv fns st -> in_flight st <> [] ->
  (List.length (in_flight st) + List.length (queued st) <= fuel)%nat ->
  exists calls out,
    run fuel (List.length fns) sched st = (calls, Some out) /\
    ends_well fns calls out.
Proof.
  induction fuel as [|fuel IH]; intros sched st HI Hne Hfuel.
  - destruct (in_flight st); [congruence | simpl in Hfuel; lia].
  - destruct (pick_some (hd 0%nat sched) (in_flight st) Hne)
      as ([i r] & rest & Epick).
    pose proof (take_at_perm _ _ _ _ Epick) as Hperm.
    pose proof (Permutation_length Hperm) as Hlen. simpl in Hlen.
    assert (Hin : forall x, In x (in_flight st) <-> x = (i, r) \/ In x rest).
    { intros x. split; intros Hx.
      - apply (Permutation_in _ Hperm) in Hx. destruct Hx; auto.
      - apply (Permutation_in _ (Permutation_sym Hperm)).
        destruct Hx; [left | right]; auto. }
    destruct HI as [Hfl Hqu Hre Hiss Hcov Hcnt Hprog].
    simpl. rewrite Epick. destruct r as [v|e].
    + destruct (Nat.eqb_spec
                  (List.length fns - S (List.length (results st))) 0)
        as [Hz|Hnz].
      * (* the last completion *)
        simpl List.length in Hz.
        assert (Hq : queued st = []).
        { destruct (queued st) eqn:E; [reflexivity|]. simpl in Hcnt. lia. }
        assert (Hr : rest = []).
        { destruct rest; [reflexivity|]. simpl in Hlen. lia. }
        subst rest. rewrite Hq in *. simpl in Hiss. rewrite app_nil_r in Hiss.
        do 2 eexists. split; [reflexivity|]. split.
        { exists []. now rewrite app_nil_r. }
        split; [|exact Hiss].
        apply collect_all.
        -- intros k Hk. destruct (Hcov k Hk) as [H|[H|H]].
           ++ simpl. auto.
           ++ apply in_map_iff in H as ([k' r'] & <- & H).
              apply Hin in H as [H|[]]. injection H as -> _. simpl. auto.
           ++ destruct H.
        -- intros k w [H|H].
           ++ injection H as <- <-. apply Hfl. apply Hin. auto.
           ++ apply Hre. exact H.
      * simpl List.length in Hnz.
        destruct (queued st) as [|[j [c r]] q] eqn:Eq.
        -- (* nothing left to start *)
           apply IH; simpl.
           ++ constructor; simpl.
              ** intros k r' H. apply Hfl. apply Hin. auto.
              ** intros ? ? ? [].
              ** intros k w [H|H].
                 --- injection H as <- <-. apply Hfl. apply Hin. auto.
                 --- apply Hre. exact H.
              ** exact Hiss.
              ** intros k Hk. destruct (Hcov k Hk) as [H|[H|H]].
                 --- auto.
                 --- apply in_map_iff in H as ([k' r'] & <- & H).
                     apply Hin in H as [H|H].
                     +++ injection H as -> _. simpl. auto.
                     +++ right. left. apply in_map_iff.
                         exists (k', r'). auto.
                 --- destruct H.
              ** simpl in Hcnt. lia.
              ** reflexivity.
           ++ destruct rest; [simpl in *; lia | discriminate].
           ++ simpl in Hfuel. lia.
        -- (* the next queued function is started *)
           apply IH; simpl.
           ++ constructor; simpl.
              ** intros k r' H. apply in_app_or in H as [H|[H|[]]].
                 --- apply Hfl. apply Hin. auto.
                 --- injection H as <- <-. exists c. apply Hqu. simpl. auto.
              ** intros j' c' r' H. apply Hqu. simpl. auto.
              ** intros k w [H|H].
                 --- injection H as <- <-. apply Hfl. apply Hin. auto.
                 --- apply Hre. exact H.
              ** rewrite <- app_assoc. exact Hiss.
              ** intros k Hk. destruct (Hcov k Hk) as [H|[H|H]].
                 --- auto.
                 --- apply in_map_iff in H as ([k' r'] & <- & H).
                     apply Hin in H as [H|H].
                     +++ injection H as -> _. simpl. auto.
                     +++ right. left. rewrite map_app. apply in_or_app.
                         left. apply in_map_iff. exists (k', r'). auto.
                 --- simpl in H. destruct H as [<-|H].
                     +++ right. left. rewrite map_app. apply in_or_app.
                         right. simpl. auto.
                     +++ auto.
              ** rewrite length_app. simpl in *. lia.
              ** intros H. destruct rest; discriminate.
           ++ destruct rest; discriminate.
           ++ rewrite length_app. simpl in *. lia.
    + (* an error ends the batch *)
      do 2 eexists. split; [reflexivity|]. split.
      * eexists. exact Hiss.
      * destruct (Hfl i (Err e)) as (c & Hc); [apply Hin; auto|].
        exists c. eapply nth_error_In. exact Hc.
Qed.

(** [batch.end] calls back, whatever the order of completion. *)
Lemma end_ends (max : nat) (sched : list nat) :
  (0 < max)%nat ->
  exists calls out,
    end_ max sched fns = (calls, Some out) /\ ends_well fns calls out.
Proof.
  intros Hmax. unfold end_. destruct fns as [|job tl] eqn:Efns.
  - do 2 eexists. split; [reflexivity|]. split; [exists []; reflexivity|].
    split; [constructor | reflexivity].
  - rewrite <- Efns.
    set (indexed := combine (seq 0 (List.length fns)) fns).
    assert (Hsplit : firstn max indexed ++ skipn max indexed = indexed)
      by apply firstn_skipn.
    assert (Hidx : forall i x, In (i, x) indexed -> nth_error fns i = Some x).
    { intros i x H. apply in_indexed in H as [_ H].
      now rewrite Nat.sub_0_r in H. }
    assert (Hne : firstn max indexed <> []).
    { subst indexed. rewrite Efns. destruct max; [lia | discriminate]. }
    apply run_ends.
    + constructor; simpl.
      * intros i r H. apply in_map_iff in H as ([i' [c r']] & E & H).
        injection E as <- <-. exists c. apply Hidx.
        rewrite <- Hsplit. apply in_or_app. auto.
      * intros j c r H. apply Hidx. rewrite <- Hsplit. apply in_or_app. auto.
      * intros ? ? [].
      * rewrite <- (map_app _ (firstn max indexed) (skipn max indexed)).
        rewrite Hsplit. subst indexed.
        transitivity (map fst (map snd (combine (seq 0 (List.length fns)) fns))).
        { now rewrite map_map. }
        now rewrite map_snd_indexed.
      * intros i Hi. right.
        pose proof (indexed_in fns 0 i Hi) as H. simpl in H.
        fold indexed in H. rewrite <- Hsplit, map_app in H.
        apply in_app_or in H as [H|H]; [left | right; exact H].
        rewrite map_map. exact H.
      * rewrite length_map, <- length_app, Hsplit. subst indexed.
        rewrite length_combine, length_seq. lia.
      * intros H. apply map_eq_nil in H. contradiction.
    + simpl. intros H. apply map_eq_nil in H. contradiction.
    + simpl. rewrite length_map, <- length_app, Hsplit. subst indexed.
      rewrite length_combine, length_seq. lia.
Qed.
End Facts.
End BatchFacts.

(* ================================================================== *)
(** ** [stat]: the gathered entries *)

Section StatFacts.
Context {host : Host}.

Lemma stat_job_ok w dir file v :
  snd (stat_job w dir file) = Ok v ->
  v = entry w dir file /\ forall e, ~ lookup_fails w dir file e.
Proof.
  unfold stat_job, entry, lookup_fails. simpl.
  destruct (fs_stat (fs w) (join dir file)) as [s|e] eqn:E.
  - intros H. injection H as <-. split; [reflexivity|].
    intros e [H _]. discriminate.
  - destruct (code_is e "ENOENT") eqn:C; simpl; [|discriminate].
    intros H. injection H as <-. split; [reflexivity|].
    intros e' [H1 H2]. injection H1 as <-. congruence.
Qed.

Lemma stat_job_err w dir file e :
  snd (stat_job w dir file) = Err e -> lookup_fails w dir file e.
Proof.
  unfold stat_job, lookup_fails. simpl.
  destruct (fs_stat (fs w) (join dir file)) as [s|e'] eqn:E; [discriminate|].
  destruct (code_is e' "ENOENT") eqn:C; simpl; [discriminate|].
  intros H. injection H as <-. auto.
Qed.

Lemma lookups_jobs w dir files :
  map fst (map (stat_job w dir) files) = lookups dir files.
Proof. unfold lookups. rewrite map_map. reflexivity. Qed.

(** The batch of [stat] ends in one of two ways. *)
Lemma stat_cases w dir files cb :
  (exists calls f e,
     In f files /\ lookup_fails w dir f e /\
     (exists more, calls ++ more = lookups dir files) /\
     stat w dir files cb = (calls ++ fst (cb (Err e)), snd (cb (Err e))))
  \/
  ((forall f e, In f files -> ~ lookup_fails w dir f e) /\
   stat w dir files cb =
     (lookups dir files ++ fst (cb (Ok (map (entry w dir) files))),
      snd (cb (Ok (map (entry w dir) files))))).
Proof.
  unfold stat.
  destruct (BatchFacts.end_ends (map (stat_job w dir) files) 10 (completion w))
    as (calls & out & E & Hpre & Hout); [lia|].
  rewrite E. rewrite lookups_jobs in Hpre. destruct out as [vs|e].
  - right. destruct Hout as [Hall Hcalls]. rewrite lookups_jobs in Hcalls.
    subst calls.
    assert (G : forall l vs',
      Forall2 (fun job v => snd job = Ok v) (map (stat_job w dir) l) vs' ->
      vs' = map (entry w dir) l /\
      forall f e, In f l -> ~ lookup_fails w dir f e).
    { induction l as [|f l IH]; intros vs' H; inversion H; subst.
      - split; [reflexivity | intros ? ? []].
      - match goal with
        | H1 : snd _ = Ok _, H2 : Forall2 _ _ _ |- _ =>
            apply stat_job_ok in H1 as [-> Hf]; apply IH in H2 as [-> Hl]
        end.
        split; [reflexivity|]. intros f' e [<-|Hin]; [apply Hf | now apply Hl]. }
    destruct (G files vs Hall) as [-> Hno]. split; [exact Hno | reflexivity].
  - left. destruct Hout as (c & Hin).
    apply in_map_iff in Hin as (f & Ef & Hin).
    exists calls, f, e. split; [exact Hin|].
    split; [apply stat_job_err; now rewrite Ef|].
    split; [exact Hpre | reflexivity].
Qed.

(** Without a failing lookup, [stat] calls back with one entry per file,
    in the order of [files], after looking every file up. *)
Lemma stat_ok w dir files cb :
  (forall f e, In f files -> ~ lookup_fails w dir f e) ->
  stat w dir files cb =
    (lookups dir files ++ fst (cb (Ok (map (entry w dir) files))),
     snd (cb (Ok (map (entry w dir) files)))).
Proof.
  intros Hno. destruct (stat_cases w dir files cb)
    as [(calls & f & e & Hin & Hf & _)|[_ E]]; [|exact E].
  exfalso. exact (Hno f e Hin Hf).
Qed.

(** With a failing lookup, [stat] calls back with the error of a failing
    lookup, and with nothing else. *)
Lemma stat_err w dir files cb f0 e0 :
  In f0 files -> lookup_fails w dir f0 e0 ->
  exists calls f e,
    In f files /\ lookup_fails w dir f e /\
    (exists more, calls ++ more = lookups dir files) /\
    stat w dir files cb = (calls ++ fst (cb (Err e)), snd (cb (Err e))).
Proof.
  intros Hin Hf. destruct (stat_cases w dir files cb) as [H|[Hno _]]; [exact H|].
  exfalso. exact (Hno f0 e0 Hin Hf).
Qed.

End StatFacts.

(* ================================================================== *)
(** ** The tests of [handle] on strings *)

Section StringFacts.
Local Open Scope string_scope.

Lemma substr_is_prefix p s :
  Js.substr 0 (String.length p) s = p <-> Js.is_prefix p s.
Proof.
  unfold Js.substr, Js.is_prefix. revert s.
  induction p as [|a p IH]; intros s; simpl.
  - split; [intros _; exists s; reflexivity|]. intros _. destruct s; reflexivity.
  - destruct s as [|b s]; simpl.
    + split; [discriminate | intros [rest H]; discriminate].
    + split.
      * intros H. injection H as -> H. apply IH in H as [rest ->].
        exists rest. reflexivity.
      * intros [rest H]. injection H as -> H. f_equal. apply IH.
        exists rest. exact H.
Qed.

Lemma substr_test p s :
  (Js.substr 0 (String.length p) s =? p) = true <-> Js.is_prefix p s.
Proof. rewrite String.eqb_eq. apply substr_is_prefix. Qed.

(** A prefix of [p] followed by one character is a prefix of [p], or all
    of it. *)
Lemma is_prefix_snoc r p c :
  Js.is_prefix r (p ++ String c "") ->
  Js.is_prefix r p \/ r = p ++ String c "".
Proof.
  unfold Js.is_prefix. revert r. induction p as [|b p IH]; intros r [rest H].
  - destruct r as [|a r]; [left; exists ""; reflexivity|].
    simpl in H. injection H as <- H. right.
    destruct r; [reflexivity | discriminate].
  - destruct r as [|a r]; [left; eexists; reflexivity|].
    simpl in H. injection H as <- H.
    destruct (IH r (ex_intro _ rest H)) as [[rest' ->] | ->].
    + left. exists rest'. reflexivity.
    + right. reflexivity.
Qed.

Lemma index_char c s :
  String.index 0 (String c "") s = None <-> ~ Js.contains c s.
Proof.
  unfold Js.contains. induction s as [|b s IH]; simpl.
  - tauto.
  - destruct (ascii_dec c b) as [<-|Hne].
    + replace (String.prefix "" s) with true by (destruct s; reflexivity).
      split; [discriminate | intros H; exfalso; apply H; auto].
    + destruct (String.index 0 (String c "") s) eqn:E.
      * split; [discriminate|]. intros H. exfalso. apply H. right.
        destruct (in_dec ascii_dec c (list_ascii_of_string s)) as [Hin|Hin];
          [exact Hin|]. apply IH in Hin. discriminate.
      * split; [|reflexivity]. intros _ [H|H]; [congruence|].
        apply IH in H; auto.
Qed.

(** [~path.indexOf('\0')] is truthy exactly when [path] holds a NUL. *)
Lemma nul_test path :
  Js.truthy (Js.bitnot (Js.indexOf NUL path)) = true
  <-> Js.contains Ascii.zero path.
Proof.
  unfold Js.truthy, Js.bitnot, Js.indexOf, NUL.
  destruct (String.index 0 (String Ascii.zero "") path) as [n|] eqn:E.
  - split.
    + intros _.
      destruct (in_dec ascii_dec Ascii.zero (list_ascii_of_string path))
        as [H|H]; [exact H|]. apply index_char in H. congruence.
    + intros _. apply negb_true_iff, Z.eqb_neq. unfold Z.lnot. lia.
  - split; [discriminate|]. intros H. apply index_char in E. contradiction.
Qed.

Lemma nul_test_false path :
  Js.truthy (Js.bitnot (Js.indexOf NUL path)) = false
  <-> ~ Js.contains Ascii.zero path.
Proof.
  rewrite <- nul_test. destruct (Js.truthy _); split; congruence.
Qed.

End StringFacts.

(* ================================================================== *)
(** ** [JSON.stringify] and back *)

Section JsonFacts.
Local Open Scope string_scope.

Lemma append_assoc (a b c : string) : (a ++ b) ++ c = a ++ (b ++ c).
Proof. induction a as [|x a IH]; simpl; [reflexivity | now rewrite IH]. Qed.

(** Reading a quoted character gives the character. *)
Lemma read_in_char c t :
  Js.read_in (Js.quote_char c ++ t) = option_map (Js.put c) (Js.read_in t).
Proof.
  destruct c as [[] [] [] [] [] [] [] []]; reflexivity.
Qed.

Lemma read_in_element l : forall x,
  Js.read_in (Js.quote_chars x ++ String Js.dquote (Js.after_element l))
  = Some (x :: l).
Proof.
  induction l as [|y l IHl]; intros x; induction x as [|c x IHx].
  - reflexivity.
  - simpl Js.quote_chars. rewrite append_assoc, read_in_char, IHx.
    reflexivity.
  - simpl. rewrite IHl. reflexivity.
  - simpl Js.quote_chars. rewrite append_assoc, read_in_char, IHx.
    reflexivity.
Qed.

Lemma stringify_elements x l :
  String.concat "," (map Js.QuoteJSONString (x :: l)) ++ "]"
  = String Js.dquote (Js.quote_chars x
                        ++ String Js.dquote (Js.after_element l)).
Proof.
  revert x. induction l as [|y l IH]; intros x.
  - simpl. unfold Js.QuoteJSONString. simpl. now rewrite append_assoc.
  - change (map Js.QuoteJSONString (x :: y :: l))
      with (Js.QuoteJSONString x :: map Js.QuoteJSONString (y :: l)).
    change (String.concat "," (Js.QuoteJSONString x
                                 :: map Js.QuoteJSONString (y :: l)))
      with (Js.QuoteJSONString x ++ "," ++
            String.concat "," (map Js.QuoteJSONString (y :: l))).
    rewrite !append_assoc, IH. unfold Js.QuoteJSONString. simpl.
    rewrite append_assoc. reflexivity.
Qed.

(** The text [JSON.stringify] writes for an array of strings reads back
    as that array. *)
Lemma JSON_roundtrip l : Js.JSON_parse (Js.JSON_stringify l) = Some l.
Proof.
  destruct l as [|x l]; [reflexivity|].
  unfold Js.JSON_stringify. rewrite stringify_elements.
  apply read_in_element.
Qed.

End JsonFacts.

(* ================================================================== *)
(** ** The guards of [handle] *)

Section Guards.
Context {host : Host}.
Variables (root : string) (opts : ServeIndexOptions) (w : World)
          (req : IncomingMessage).

Lemma reads_gate :
  reads req ->
  negb (method req =?s "GET") && negb (method req =?s "HEAD") = false.
Proof.
  intros [H|H]; rewrite H; reflexivity.
Qed.

Lemma handle_other_method :
  negb (method req =?s "GET") && negb (method req =?s "HEAD") = true ->
  handle root opts w req =
    ([], End (Some (if "OPTIONS" =?s method req then 200 else 405))
             [("Allow", Text "GET, HEAD, OPTIONS");
              ("Content-Length", Text "0")] "").
Proof. intros H. unfold handle. rewrite H. reflexivity. Qed.

Lemma handle_undecodable :
  reads req -> getRequestedDir req = None ->
  handle root opts w req = ([], Next (Some (createError 400))).
Proof.
  intros Hm Hd. unfold handle. rewrite (reads_gate Hm), Hd. reflexivity.
Qed.

Lemma handle_nul dir originalDir :
  reads req -> decodes req dir originalDir ->
  Js.contains Ascii.zero (resolved root dir) ->
  handle root opts w req = ([], Next (Some (createError 400))).
Proof.
  intros Hm [Hd Ho] Hn. unfold handle, getRequestedDir.
  rewrite (reads_gate Hm), Hd, Ho.
  apply nul_test in Hn. unfold resolved, root_path in Hn. rewrite Hn.
  reflexivity.
Qed.

Lemma handle_escape dir originalDir :
  reads req -> decodes req dir originalDir ->
  ~ Js.contains Ascii.zero (resolved root dir) ->
  ~ Js.is_prefix (root_path root) (resolved root dir ++ sep) ->
  handle root opts w req = ([], Next (Some (createError 403))).
Proof.
  intros Hm [Hd Ho] Hn Hp. unfold handle, getRequestedDir.
  rewrite (reads_gate Hm), Hd, Ho.
  apply nul_test_false in Hn. unfold resolved, root_path in Hn. rewrite Hn.
  destruct (Js.substr 0 _ _ =?s _) eqn:E; [|reflexivity].
  exfalso. apply Hp. apply substr_test. exact E.
Qed.

Lemma handle_probe dir originalDir :
  reads req -> decodes req dir originalDir ->
  ~ Js.contains Ascii.zero (resolved root dir) ->
  Js.is_prefix (root_path root) (resolved root dir ++ sep) ->
  handle root opts w req =
    after (CallStat (resolved root dir))
      (on_stat opts w req originalDir (show_up root dir) (resolved root dir)
         (fs_stat (fs w) (resolved root dir))).
Proof.
  intros Hm [Hd Ho] Hn Hp. unfold handle, getRequestedDir.
  rewrite (reads_gate Hm), Hd, Ho.
  apply nul_test_false in Hn. unfold resolved, root_path in Hn. rewrite Hn.
  apply substr_test in Hp. unfold resolved, root_path in Hp. rewrite Hp.
  reflexivity.
Qed.

End Guards.

(** Tests that decide the hypotheses on concrete strings. *)
Lemma no_nul_by_test path :
  Js.truthy (Js.bitnot (Js.indexOf NUL path)) = false ->
  ~ Js.contains Ascii.zero path.
Proof. apply nul_test_false. Qed.

Lemma no_prefix_by_test p s :
  (Js.substr 0 (String.length p) s =?s p) = false -> ~ Js.is_prefix p s.
Proof. intros H Hp. apply substr_test in Hp. congruence. Qed.

Lemma prefix_by_test p s :
  (Js.substr 0 (String.length p) s =?s p) = true -> Js.is_prefix p s.
Proof. apply substr_test. Qed.

(* ================================================================== *)
(** ** Path confinement, bad requests, the directory probe *)

Section Resolution.
Context {host : Host}.

(** C1, as the code has it.  For a GET or HEAD request whose path
    components decode and whose joined, normalized path holds no NUL: if
    the root is not a prefix of that path followed by the separator, the
    handler passes on Forbidden (403) and has made no file-system call; if
    it is, the handler goes on to look the path up, and the root is a prefix
    of the path or is the path followed by the separator. *)
Theorem path_confinement root opts w req dir originalDir :
  reads req -> decodes req dir originalDir ->
  ~ Js.contains Ascii.zero (resolved root dir) ->
  (~ Js.is_prefix (root_path root) (resolved root dir ++ sep) ->
   handle root opts w req = ([], Next (Some (createError 403))))
  /\
  (Js.is_prefix (root_path root) (resolved root dir ++ sep) ->
   handle root opts w req =
     after (CallStat (resolved root dir))
       (on_stat opts w req originalDir (show_up root dir) (resolved root dir)
          (fs_stat (fs w) (resolved root dir)))
   /\ (Js.is_prefix (root_path root) (resolved root dir)
       \/ root_path root = (resolved root dir ++ sep)%string)).
Proof.
  intros Hm Hd Hn. split; intros Hp.
  - eapply handle_escape; eauto.
  - split; [eapply handle_probe; eauto|].
    apply is_prefix_snoc. exact Hp.
Qed.

(** C8, as the code has it.  For a GET or HEAD request: if the URL path
    does not decode, or if both path components decode and the joined,
    normalized path holds a NUL, the handler passes on Bad Request (400)
    and has made no file-system call. *)
Theorem bad_request root opts w req :
  reads req ->
  (getRequestedDir req = None ->
   handle root opts w req = ([], Next (Some (createError 400))))
  /\
  (forall dir originalDir,
     decodes req dir originalDir ->
     Js.contains Ascii.zero (resolved root dir) ->
     handle root opts w req = ([], Next (Some (createError 400)))).
Proof.
  intros Hm. split.
  - apply handle_undecodable. exact Hm.
  - intros dir originalDir. apply handle_nul. exact Hm.
Qed.

(** C4.  For a resolved path: a missing file defers to the next handler
    without an error; any other failure of the lookup is passed on with
    status 414 for ENAMETOOLONG and 500 otherwise; a path that is no
    directory defers to the next handler; a directory is read. *)
Theorem directory_probe root opts w req dir originalDir :
  reads req -> decodes req dir originalDir ->
  ~ Js.contains Ascii.zero (resolved root dir) ->
  Js.is_prefix (root_path root) (resolved root dir ++ sep) ->
  (forall e, fs_stat (fs w) (resolved root dir) = Err e ->
     code_is e "ENOENT" = true ->
     handle root opts w req = ([CallStat (resolved root dir)], Next None))
  /\
  (forall e, fs_stat (fs w) (resolved root dir) = Err e ->
     code_is e "ENOENT" = false ->
     handle root opts w req =
       ([CallStat (resolved root dir)],
        Next (Some {| err_code := err_code e;
                      err_status :=
                        Some (if code_is e "ENAMETOOLONG" then 414
                              else 500) |})))
  /\
  (forall st, fs_stat (fs w) (resolved root dir) = Ok st ->
     isDirectory st = false ->
     handle root opts w req = ([CallStat (resolved root dir)], Next None))
  /\
  (forall st, fs_stat (fs w) (resolved root dir) = Ok st ->
     isDirectory st = true ->
     handle root opts w req =
       after (CallStat (resolved root dir))
         (after (CallReaddir (resolved root dir))
            (on_readdir opts w req originalDir (show_up root dir)
               (resolved root dir)
               (fs_readdir (fs w) (resolved root dir))))).
Proof.
  intros Hm Hd Hn Hp.
  rewrite (handle_probe root opts w req dir originalDir Hm Hd Hn Hp).
  repeat split.
  - intros e E C. rewrite E. unfold on_stat. rewrite C. reflexivity.
  - intros e E C. rewrite E. unfold on_stat. rewrite C. reflexivity.
  - intros st E D. rewrite E. unfold on_stat. rewrite D. reflexivity.
  - intros st E D. rewrite E. unfold on_stat. rewrite D. reflexivity.
Qed.

End Resolution.

(** Runs of the two cases of [path_confinement]. *)
Lemma path_confinement_witness :
  Site.serve Site.world (Site.get "/../" Site.anything)
    = ([], Next (Some (createError 403)))
  /\ Site.serve Site.world (Site.get "/A/x/.." Site.anything)
     = after (CallStat "/srv/www/A")
         (@on_stat Posix.host Site.options Site.world
            (Site.get "/A/x/.." Site.anything) "/A/x/.." true "/srv/www/A"
            (Ok Site.dir_stats)).
Proof.
  split.
  - refine (proj1 (@path_confinement Posix.host "/srv/www" Site.options
                     Site.world (Site.get "/../" Site.anything)
                     "/../" "/../" _ _ _) _).
    + left; reflexivity.
    + split; reflexivity.
    + apply no_nul_by_test; reflexivity.
    + apply no_prefix_by_test; reflexivity.
  - refine (proj1 (proj2 (@path_confinement Posix.host "/srv/www" Site.options
                     Site.world (Site.get "/A/x/.." Site.anything)
                     "/A/x/.." "/A/x/.." _ _ _) _)).
    + left; reflexivity.
    + split; reflexivity.
    + apply no_nul_by_test; reflexivity.
    + apply prefix_by_test; reflexivity.
Defined.

(** C1 as stated fails: the path of [GET /../%00] leaves the root, and the
    handler answers 400, not 403, because the NUL test comes first. *)
Lemma nul_before_confinement :
  reads (Site.get "/../%00" Site.anything)
  /\ @decodes Posix.host (Site.get "/../%00" Site.anything)
       ("/../" ++ NUL) ("/../" ++ NUL)
  /\ @resolved Posix.host "/srv/www" ("/../" ++ NUL) = ("/srv/" ++ NUL)%string
  /\ (Js.substr 0 (String.length (@root_path Posix.host "/srv/www"))
        (@resolved Posix.host "/srv/www" ("/../" ++ NUL) ++ "/")
      =?s @root_path Posix.host "/srv/www") = false
  /\ Site.serve Site.world (Site.get "/../%00" Site.anything)
     = ([], Next (Some (createError 400))).
Proof.
  split; [left; reflexivity|]. split; [split; reflexivity|].
  repeat split; reflexivity.
Qed.

(** Runs of the two cases of [bad_request]. *)
Lemma bad_request_witness :
  Site.serve Site.world (Site.get "/%zz" Site.anything)
    = ([], Next (Some (createError 400)))
  /\ Site.serve Site.world (Site.get "/A/%00" Site.anything)
     = ([], Next (Some (createError 400))).
Proof.
  split.
  - refine (proj1 (@bad_request Posix.host "/srv/www" Site.options Site.world
                     (Site.get "/%zz" Site.anything) _) _).
    + left; reflexivity.
    + reflexivity.
  - refine (proj2 (@bad_request Posix.host "/srv/www" Site.options Site.world
                     (Site.get "/A/%00" Site.anything) _)
                  ("/A/" ++ NUL)%string ("/A/" ++ NUL)%string _ _).
    + left; reflexivity.
    + split; reflexivity.
    + apply nul_test; reflexivity.
Defined.

(** C8 as stated fails: the URL path of [POST /%zz] does not decode, and
    the handler answers 405 itself; and below a mount point whose part of
    the URL does not decode, [GET /%00] ends in a URIError that leaves the
    handler. *)
Lemma bad_request_needs_get :
  @getRequestedDir Posix.host (Site.request "POST" "/%zz" Site.anything) = None
  /\ Site.serve Site.world (Site.request "POST" "/%zz" Site.anything)
     = ([], End (Some 405)
                [("Allow", Text "GET, HEAD, OPTIONS");
                 ("Content-Length", Text "0")] "")
  /\ @getRequestedDir Posix.host (Site.mounted "/%zz" "/%00" Site.anything)
     = Some ("/" ++ NUL)%string
  /\ Site.serve Site.world (Site.mounted "/%zz" "/%00" Site.anything)
     = ([], Throw "URIError").
Proof. repeat split; reflexivity. Qed.

(** Runs of the four cases of [directory_probe]. *)
Lemma directory_probe_witness :
  Site.serve Site.world (Site.get "/missing" Site.anything)
    = ([CallStat "/srv/www/missing"], Next None)
  /\ Site.serve Site.world (Site.get "/b.txt" Site.anything)
     = ([CallStat "/srv/www/b.txt"], Next None).
Proof.
  split.
  - refine (proj1 (@directory_probe Posix.host "/srv/www" Site.options
                     Site.world (Site.get "/missing" Site.anything)
                     "/missing" "/missing" _ _ _ _) Site.ENOENT _ _).
    + left; reflexivity.
    + split; reflexivity.
    + apply no_nul_by_test; reflexivity.
    + apply prefix_by_test; reflexivity.
    + reflexivity.
    + reflexivity.
  - refine (proj1 (proj2 (proj2 (@directory_probe Posix.host "/srv/www"
                     Site.options Site.world (Site.get "/b.txt" Site.anything)
                     "/b.txt" "/b.txt" _ _ _ _))) Site.file_stats _ _).
    + left; reflexivity.
    + split; reflexivity.
    + apply no_nul_by_test; reflexivity.
    + apply prefix_by_test; reflexivity.
    + reflexivity.
    + reflexivity.
Defined.

(* ================================================================== *)
(** ** Negotiation *)

Section Negotiation.
Variable pref : string -> nat.

Lemma accepts_type_none offered :
  accepts_type pref offered = None <->
  forall t, In t offered -> pref t = 0%nat.
Proof.
  induction offered as [|t rest IH]; simpl.
  - split; [intros _ ? [] | reflexivity].
  - destruct (accepts_type pref rest) as [u|].
    + split.
      * destruct (pref t <? pref u)%nat; discriminate.
      * intros H. assert (N : Some u = None) by (apply IH; auto). discriminate.
    + destruct (Nat.eqb_spec (pref t) 0) as [Hz|Hnz].
      * split; [|reflexivity]. intros _ t' [<-|Hin]; [exact Hz|].
        apply IH; auto.
      * split; [discriminate|]. intros H. exfalso. apply Hnz, H. auto.
Qed.

(** The chosen type is acceptable, no offered type is preferred to it, and
    every type offered before it is less preferred. *)
Lemma accepts_type_some offered t :
  accepts_type pref offered = Some t ->
  exists before later,
    offered = before ++ t :: later /\
    (0 < pref t)%nat /\
    (forall u, In u before -> (pref u < pref t)%nat) /\
    (forall u, In u later -> (pref u <= pref t)%nat).
Proof.
  revert t. induction offered as [|t0 rest IH]; simpl; intros t H.
  - discriminate.
  - destruct (accepts_type pref rest) as [u|] eqn:E.
    + destruct (IH u eq_refl) as (before & later & -> & Hpos & Hb & Hl).
      destruct (Nat.ltb_spec (pref t0) (pref u)) as [Hlt|Hge];
        injection H as <-.
      * exists (t0 :: before), later.
        split; [reflexivity|]. split; [exact Hpos|]. split; [|exact Hl].
        intros v [<-|Hin]; auto.
      * exists [], (before ++ u :: later).
        split; [reflexivity|]. split; [lia|]. split; [intros ? []|].
        intros v Hin. apply in_app_or in Hin as [Hin|[<-|Hin]].
        -- specialize (Hb v Hin). lia.
        -- exact Hge.
        -- specialize (Hl v Hin). lia.
    + destruct (Nat.eqb_spec (pref t0) 0) as [Hz|Hnz]; [discriminate|].
      injection H as <-. exists [], rest.
      split; [reflexivity|]. split; [lia|]. split; [intros ? []|].
      intros v Hin.
      assert (Z0 : pref v = 0%nat) by (eapply accepts_type_none; eauto).
      lia.
Qed.

Lemma accepted_type_known t :
  accepts_type pref mediaTypes = Some t ->
  exists r, mediaType t = Some r.
Proof.
  intros H. apply accepts_type_some in H as (before & later & E & _).
  assert (Hin : In t mediaTypes) by (rewrite E; apply in_elt).
  unfold mediaTypes in Hin. simpl in Hin.
  destruct Hin as [<-|[<-|[<-|[]]]]; eexists; reflexivity.
Qed.

End Negotiation.

(* ================================================================== *)
(** ** From the directory to the responder *)

Section Listing.
Context {host : Host}.

Lemma handle_listed root opts w req dir originalDir raw :
  reaches_listing root w req dir originalDir raw ->
  handle root opts w req =
    after (CallStat (resolved root dir))
      (after (CallReaddir (resolved root dir))
         (on_readdir opts w req originalDir (show_up root dir)
            (resolved root dir) (Ok raw))).
Proof.
  intros (Hm & Hd & Hn & Hp & (st & Hst & Hdir) & Hrd).
  rewrite (handle_probe root opts w req dir originalDir Hm Hd Hn Hp).
  rewrite Hst. unfold on_stat. rewrite Hdir, Hrd. reflexivity.
Qed.

(** A responder either passes on the error of a failing lookup, or renders
    the sorted entries of the names it handed to [stat]. *)
Lemma respond_cases opts w type t files originalDir showUp path :
  mediaType type = Some t ->
  (exists calls f e,
     In f (given_to_stat t showUp files) /\ lookup_fails w path f e /\
     (exists more,
        calls ++ more = lookups path (given_to_stat t showUp files)) /\
     respond opts w type files originalDir showUp path
       = (calls, Next (Some e)))
  \/
  (lookups_succeed w path (given_to_stat t showUp files) /\
   respond opts w type files originalDir showUp path =
     (lookups path (given_to_stat t showUp files)
        ++ fst (rendered opts w t originalDir path
                  (listing w path (given_to_stat t showUp files))),
      snd (rendered opts w t originalDir path
             (listing w path (given_to_stat t showUp files))))).
Proof.
  intros Ht. unfold respond. rewrite Ht.
  destruct t; simpl given_to_stat;
    unfold serveIndex_html, serveIndex_json, serveIndex_plain;
    match goal with
    | |- context [stat w path ?l ?cb] =>
        destruct (stat_cases w path l cb)
          as [(calls & f & e & Hin & Hf & Hpre & E)|[Hno E]]
    end;
    rewrite E; simpl.
  all: try (left; exists calls, f, e; rewrite app_nil_r; auto; fail).
  all: right; split; [exact Hno | reflexivity].
Qed.

End Listing.

(* ================================================================== *)
(** ** [Array.prototype.sort] *)

Section SortFacts.
Context {A : Type} (cmp : A -> A -> Z).

Lemma insert_perm x l : Permutation (x :: l) (Js.insert cmp x l).
Proof.
  induction l as [|y l IH]; simpl; [apply Permutation_refl|].
  destruct (cmp x y <=? 0); [apply Permutation_refl|].
  eapply Permutation_trans; [apply perm_swap|]. now constructor.
Qed.

Lemma sort_perm l : Permutation l (Js.sort cmp l).
Proof.
  induction l as [|x l IH]; simpl; [constructor|].
  eapply Permutation_trans; [|apply insert_perm]. now constructor.
Qed.

Lemma sort_in l x : In x (Js.sort cmp l) <-> In x l.
Proof.
  split; apply Permutation_in;
    [apply Permutation_sym|]; apply sort_perm.
Qed.

(** A sorted array is left as it is. *)
Lemma sort_fixed l : Sorted (Js.not_after cmp) l -> Js.sort cmp l = l.
Proof.
  induction 1 as [|a l Hs IH Hhd]; simpl; [reflexivity|].
  rewrite IH. destruct Hhd as [|b l' Hab]; simpl; [reflexivity|].
  unfold Js.not_after in Hab.
  destruct (Z.leb_spec (cmp a b) 0); [reflexivity | lia].
Qed.

Hypothesis consistent : Js.Consistent cmp.

Lemma cmp_sym0 a b : cmp a b = 0 -> cmp b a = 0.
Proof.
  intros H. pose proof (Js.cmp_flip cmp consistent a b).
  pose proof (Js.cmp_flip cmp consistent b a). lia.
Qed.

Lemma cmp_total a b : 0 < cmp a b -> cmp b a <= 0.
Proof.
  intros H. pose proof (Js.cmp_flip cmp consistent b a). lia.
Qed.

Lemma cmp_coherent a x y : cmp a x = 0 -> cmp a y = 0 -> cmp x y = 0.
Proof.
  intros Hx Hy.
  pose proof (cmp_sym0 _ _ Hx) as Hx'. pose proof (cmp_sym0 _ _ Hy) as Hy'.
  assert (cmp x y <= 0)
    by (apply (Js.cmp_trans cmp consistent x a y); lia).
  assert (cmp y x <= 0)
    by (apply (Js.cmp_trans cmp consistent y a x); lia).
  pose proof (Js.cmp_flip cmp consistent x y). lia.
Qed.

Lemma insert_sorted x l :
  StronglySorted (Js.not_after cmp) l ->
  StronglySorted (Js.not_after cmp) (Js.insert cmp x l).
Proof.
  induction 1 as [|y l Hs IH Hall]; simpl.
  - repeat constructor.
  - destruct (Z.leb_spec (cmp x y) 0) as [Hle|Hgt].
    + constructor; [now constructor|]. constructor; [exact Hle|].
      eapply Forall_impl; [|exact Hall]. intros z Hyz.
      exact (Js.cmp_trans cmp consistent x y z Hle Hyz).
    + constructor; [exact IH|].
      apply Forall_forall. intros z Hz.
      apply (Permutation_in _ (Permutation_sym (insert_perm x l))) in Hz.
      destruct Hz as [<-|Hz].
      * apply cmp_total. exact Hgt.
      * rewrite Forall_forall in Hall. now apply Hall.
Qed.

Lemma sort_sorted l : StronglySorted (Js.not_after cmp) (Js.sort cmp l).
Proof.
  induction l as [|x l IH]; simpl; [constructor|]. now apply insert_sorted.
Qed.

Lemma sort_idempotent l : Js.sort cmp (Js.sort cmp l) = Js.sort cmp l.
Proof. apply sort_fixed, StronglySorted_Sorted, sort_sorted. Qed.

(** The elements that compare equal to [a] keep their order. *)
Lemma insert_stable a x l :
  List.filter (fun y => cmp a y =? 0) (Js.insert cmp x l)
  = List.filter (fun y => cmp a y =? 0) (x :: l).
Proof.
  induction l as [|y l IH]; [reflexivity|].
  simpl Js.insert. destruct (Z.leb_spec (cmp x y) 0) as [Hle|Hgt];
    [reflexivity|].
  simpl in *. rewrite IH.
  destruct (Z.eqb_spec (cmp a x) 0) as [Hx|Hx];
    destruct (Z.eqb_spec (cmp a y) 0) as [Hy|Hy]; try reflexivity.
  pose proof (cmp_coherent a x y Hx Hy). lia.
Qed.

Lemma sort_stable a l :
  List.filter (fun y => cmp a y =? 0) (Js.sort cmp l)
  = List.filter (fun y => cmp a y =? 0) l.
Proof.
  induction l as [|x l IH]; [reflexivity|].
  simpl Js.sort. rewrite insert_stable. simpl. now rewrite IH.
Qed.

(** In a sorted array, an earlier element is not after a later one. *)
Lemma sorted_apart before a middle b later :
  StronglySorted (Js.not_after cmp) (before ++ a :: middle ++ b :: later) ->
  cmp a b <= 0.
Proof.
  induction before as [|x before IH]; simpl; intros H.
  - apply StronglySorted_inv in H as [_ H]. rewrite Forall_forall in H.
    apply H. apply in_or_app. right. left. reflexivity.
  - apply StronglySorted_inv in H as [H _]. now apply IH.
Qed.

End SortFacts.

(* ================================================================== *)
(** ** Every run ends *)

Section Ends.
Context {host : Host}.

Lemma stat_calls_back w dir files cb :
  exists r, snd (stat w dir files cb) = snd (cb r).
Proof.
  destruct (stat_cases w dir files cb)
    as [(calls & f & e & _ & _ & _ & E)|[_ E]]; rewrite E; simpl; eauto.
Qed.

Lemma html_render_ends w dir icons path view template stylesheet fileList :
  snd (html_render w dir icons path view template stylesheet fileList)
  <> Stalled.
Proof.
  unfold html_render, createHtmlRender, after, finish.
  destruct (fs_readFile (fs w) stylesheet); simpl; [|discriminate].
  destruct template as [p|f]; simpl.
  - destruct (fs_readFile (fs w) p); simpl; discriminate.
  - destruct (f _); simpl; discriminate.
Qed.

Lemma respond_ends opts w type files originalDir showUp path :
  snd (respond opts w type files originalDir showUp path) <> Stalled.
Proof.
  unfold respond.
  destruct (mediaType type) as [[| |]|]; simpl; [| | |discriminate];
    unfold serveIndex_html, serveIndex_json, serveIndex_plain;
    match goal with
    | |- snd (stat w path ?l ?cb) <> _ =>
        destruct (stat_calls_back w path l cb) as [[fileList|e] ->]
    end; simpl; try discriminate.
  apply html_render_ends.
Qed.

(** The handler never leaves a request without an outcome: it answers,
    calls [next], or lets an exception through. *)
Lemma handle_ends root opts w req :
  snd (handle root opts w req) <> Stalled.
Proof.
  unfold handle, on_stat, on_readdir, after, finish.
  repeat match goal with
         | |- context [if ?b then _ else _] => destruct b; simpl
         | |- context [match ?x with _ => _ end] => destruct x; simpl
         end; try discriminate.
  all: apply respond_ends.
Qed.

End Ends.

(* ================================================================== *)
(** ** The display sort *)

Section DisplaySort.
Context {host : Host}.

(** [fileSort] orders by class first, then by name. *)
Lemma fileSort_rank a b :
  fileSort a b =
    if (rank a <? rank b)%nat then -1
    else if (rank b <? rank a)%nat then 1
    else if (rank a =? 0)%nat then 0 else compare_names a b.
Proof.
  unfold fileSort, rank, compare_names, Js.or_else, Js.truthy, Js.Number.
  destruct (String.eqb_spec (file_name a) "..") as [Ea|Ea];
    destruct (String.eqb_spec (file_name b) "..") as [Eb|Eb]; simpl.
  - rewrite Ea, Eb. reflexivity.
  - destruct (String.eqb_spec (file_name a) (file_name b)); [congruence|].
    destruct (is_dir b); reflexivity.
  - destruct (String.eqb_spec (file_name a) (file_name b)); [congruence|].
    destruct (is_dir a); reflexivity.
  - destruct (is_dir a), (is_dir b); reflexivity.
Qed.

Hypothesis locale : Js.Consistent localeCompare.

Lemma fileSort_consistent : Js.Consistent fileSort.
Proof.
  constructor.
  - intros a b. rewrite !fileSort_rank. unfold compare_names.
    pose proof (Js.cmp_flip _ locale (toLocaleLowerCase (file_name a))
                  (toLocaleLowerCase (file_name b))).
    destruct (Nat.ltb_spec (rank a) (rank b));
      destruct (Nat.ltb_spec (rank b) (rank a));
      destruct (Nat.eqb_spec (rank a) 0);
      destruct (Nat.eqb_spec (rank b) 0); lia.
  - intros a b c. rewrite !fileSort_rank. unfold compare_names.
    pose proof (Js.cmp_trans _ locale (toLocaleLowerCase (file_name a))
                  (toLocaleLowerCase (file_name b))
                  (toLocaleLowerCase (file_name c))).
    destruct (Nat.ltb_spec (rank a) (rank b));
      destruct (Nat.ltb_spec (rank b) (rank a));
      destruct (Nat.ltb_spec (rank b) (rank c));
      destruct (Nat.ltb_spec (rank c) (rank b));
      destruct (Nat.ltb_spec (rank a) (rank c));
      destruct (Nat.ltb_spec (rank c) (rank a));
      destruct (Nat.eqb_spec (rank a) 0);
      destruct (Nat.eqb_spec (rank b) 0); lia.
Qed.

(** What "not after" means for two entries. *)
Lemma fileSort_not_after a b :
  fileSort a b <= 0 ->
  (file_name b = ".." -> file_name a = "..") /\
  (file_name a <> ".." -> is_dir b = true -> is_dir a = true) /\
  (file_name a <> ".." -> is_dir a = is_dir b -> compare_names a b <= 0).
Proof.
  rewrite fileSort_rank. unfold rank.
  destruct (String.eqb_spec (file_name a) "..") as [Ea|Ea];
    destruct (String.eqb_spec (file_name b) "..") as [Eb|Eb];
    destruct (is_dir a), (is_dir b); simpl; intros H;
    repeat split; intros; try congruence; try lia.
Qed.

(** C9.  With the consistent [localeCompare] that ECMAScript prescribes,
    the display sort is a function that rearranges the entries so that an
    earlier entry is never after a later one in the order of [fileSort]:
    an entry named [..] comes before all others, directories come before
    the rest, entries of one class are in the order of the lower-cased
    names; entries that compare equal keep their original order; and
    sorting a sorted list returns it unchanged. *)
Theorem display_sort (l : list TemplateLocalFilter) :
  Permutation l (Js.sort fileSort l)
  /\ StronglySorted (Js.not_after fileSort) (Js.sort fileSort l)
  /\ (forall before a middle b later,
        Js.sort fileSort l = before ++ a :: middle ++ b :: later ->
        (file_name b = ".." -> file_name a = "..") /\
        (file_name a <> ".." -> is_dir b = true -> is_dir a = true) /\
        (file_name a <> ".." -> is_dir a = is_dir b ->
         compare_names a b <= 0))
  /\ (forall x,
        List.filter (fun y => fileSort x y =? 0) (Js.sort fileSort l)
        = List.filter (fun y => fileSort x y =? 0) l)
  /\ Js.sort fileSort (Js.sort fileSort l) = Js.sort fileSort l.
Proof.
  pose proof fileSort_consistent as C.
  split; [apply sort_perm|].
  split; [apply sort_sorted; exact C|].
  split.
  { intros before a middle b later E. apply fileSort_not_after.
    apply (sorted_apart fileSort before a middle b later).
    rewrite <- E. apply sort_sorted. exact C. }
  split; [intros x; apply sort_stable; exact C|].
  apply sort_idempotent. exact C.
Qed.

End DisplaySort.

(* ================================================================== *)
(** ** The entries that are listed *)

Section Entries.
Context {host : Host}.

Lemma starts_with_dot_test name :
  Js.first_char_differs name "."%char = true <-> ~ starts_with_dot name.
Proof.
  unfold starts_with_dot. destruct name as [|c rest]; simpl.
  - split; [intros _ [r H]; discriminate | reflexivity].
  - destruct (Ascii.eqb_spec c "."%char) as [->|Hne]; simpl.
    + split; [discriminate|]. intros H. exfalso. apply H. eexists; reflexivity.
    + split; [|reflexivity]. intros _ [r H]. congruence.
Qed.

Lemma removeHidden_in files f :
  In f (removeHidden files) <-> In f files /\ ~ starts_with_dot f.
Proof.
  unfold removeHidden. rewrite filter_In, starts_with_dot_test. reflexivity.
Qed.

Lemma filter_from_in {A} (p : A -> nat -> list A -> bool) whole i l x :
  In x (Js.filter_from p whole i l) -> In x l.
Proof.
  revert i. induction l as [|y l IH]; intros i; simpl; [tauto|].
  destruct (p y i whole); simpl; intros H.
  - destruct H; [left | right; eapply IH]; eauto.
  - right. eapply IH; eauto.
Qed.

(** What is listed was read from the directory, and is not hidden unless
    the option [hidden] is set. *)
Lemma listed_in opts p raw f :
  In f (listed opts p raw) ->
  In f raw /\ (hidden opts = false -> ~ starts_with_dot f).
Proof.
  unfold listed. rewrite sort_in. intros H.
  assert (H' : In f (if negb (hidden opts) then removeHidden raw else raw)).
  { destruct (filter opts); [|exact H].
    unfold Js.filter in H. eapply filter_from_in; eauto. }
  destruct (hidden opts); simpl in H'.
  - split; [exact H' | discriminate].
  - apply removeHidden_in in H' as [H1 H2]. auto.
Qed.

Lemma listing_names w p files :
  Permutation files (map file_name (listing w p files)).
Proof.
  unfold listing.
  eapply Permutation_trans;
    [|apply Permutation_map, sort_perm].
  rewrite map_map. simpl. rewrite map_id. apply Permutation_refl.
Qed.

Lemma listing_in w p files e :
  In e (listing w p files) <-> exists f, In f files /\ e = entry w p f.
Proof.
  unfold listing. rewrite sort_in, in_map_iff.
  split; intros (f & H1 & H2); exists f; auto.
Qed.

(** A request that reaches a responder either passes on the error of a
    failing lookup, or renders the sorted entries. *)
Lemma handle_rendering root opts w req dir originalDir raw type t :
  reaches_listing root w req dir originalDir raw ->
  accepts_type (accept req) mediaTypes = Some type ->
  mediaType type = Some t ->
  (exists calls f e,
     In f (given_to_stat t (show_up root dir)
             (listed opts (resolved root dir) raw)) /\
     lookup_fails w (resolved root dir) f e /\
     handle root opts w req =
       (CallStat (resolved root dir) :: CallReaddir (resolved root dir)
          :: calls, Next (Some e)))
  \/
  (lookups_succeed w (resolved root dir)
     (given_to_stat t (show_up root dir)
        (listed opts (resolved root dir) raw)) /\
   handle root opts w req =
     (CallStat (resolved root dir) :: CallReaddir (resolved root dir)
        :: lookups (resolved root dir)
             (given_to_stat t (show_up root dir)
                (listed opts (resolved root dir) raw))
           ++ fst (rendered opts w t originalDir (resolved root dir)
                     (listing w (resolved root dir)
                        (given_to_stat t (show_up root dir)
                           (listed opts (resolved root dir) raw)))),
      snd (rendered opts w t originalDir (resolved root dir)
             (listing w (resolved root dir)
                (given_to_stat t (show_up root dir)
                   (listed opts (resolved root dir) raw)))))).
Proof.
  intros Hr Ha Ht. rewrite (handle_listed root opts w req dir originalDir raw Hr).
  unfold on_readdir. rewrite Ha.
  destruct (respond_cases opts w type t (listed opts (resolved root dir) raw)
              originalDir (show_up root dir) (resolved root dir) Ht)
    as [(calls & f & e & Hin & Hf & _ & E)|[Hno E]]; rewrite E.
  - left. exists calls, f, e. auto.
  - right. split; [exact Hno | reflexivity].
Qed.

End Entries.

(* ================================================================== *)
(** ** Gathering, negotiating, rendering *)

Section Rendering.
Context {host : Host}.

(** C5.  If no lookup fails other than by finding its file gone, [stat]
    looks every file up and calls back with one entry per file, in order,
    an entry without metadata for each file that was gone; if a lookup
    fails in another way, [stat] calls back with the error of such a
    lookup and with no entries, and with that very error when it is the
    only one that occurs. *)
Theorem stat_gathering w dir files cb :
  (lookups_succeed w dir files ->
   stat w dir files cb =
     (lookups dir files ++ fst (cb (Ok (map (entry w dir) files))),
      snd (cb (Ok (map (entry w dir) files))))
   /\ forall f e, In f files -> fs_stat (fs w) (join dir f) = Err e ->
        code_is e "ENOENT" = true /\
        In {| file_name := f; file_stat := None |} (map (entry w dir) files))
  /\
  (forall f0 e0, In f0 files -> lookup_fails w dir f0 e0 ->
     (exists calls f e,
        In f files /\ lookup_fails w dir f e /\
        (exists more, calls ++ more = lookups dir files) /\
        stat w dir files cb = (calls ++ fst (cb (Err e)), snd (cb (Err e))))
     /\
     ((forall f e, In f files -> lookup_fails w dir f e -> e = e0) ->
      exists calls,
        stat w dir files cb = (calls ++ fst (cb (Err e0)), snd (cb (Err e0))))).
Proof.
  split.
  - intros Hno. split; [apply stat_ok; exact Hno|].
    intros f e Hin E. split.
    + destruct (code_is e "ENOENT") eqn:C; [reflexivity|].
      exfalso. apply (Hno f e Hin). split; assumption.
    + apply in_map_iff. exists f. split; [|exact Hin].
      unfold entry. rewrite E. reflexivity.
  - intros f0 e0 Hin Hf.
    destruct (stat_err w dir files cb f0 e0 Hin Hf)
      as (calls & f & e & Hin' & Hf' & Hpre & E).
    split.
    + exists calls, f, e. auto.
    + intros Huniq. exists calls. rewrite <- (Huniq f e Hin' Hf'). exact E.
Qed.

(** C3, as the code has it.  The entry [..] that [serveIndex.html] adds
    when [showUp] is set goes through [stat] like every other name: it is
    the first lookup, on the directory joined with [..], and its entry
    carries the metadata that this lookup returns. *)
Theorem parent_entry_is_looked_up w files dir icons path view template
    stylesheet :
  lookups_succeed w path (".." :: files) ->
  serveIndex_html w files dir true icons path view template stylesheet =
    (CallStat (join path "..") :: lookups path files
       ++ fst (html_render w dir icons path view template stylesheet
                 (listing w path (".." :: files))),
     snd (html_render w dir icons path view template stylesheet
            (listing w path (".." :: files))))
  /\ In (entry w path "..") (listing w path (".." :: files))
  /\ forall st, fs_stat (fs w) (join path "..") = Ok st ->
       entry w path ".." = {| file_name := ".."; file_stat := Some st |}.
Proof.
  intros Hno. split; [|split].
  - unfold serveIndex_html. rewrite stat_ok by exact Hno. reflexivity.
  - apply listing_in. exists "..". split; [left|]; reflexivity.
  - intros st E. unfold entry. rewrite E. reflexivity.
Qed.

(** C6.  For a request that reaches the listing of a directory: if the
    client accepts none of the offered types, the handler passes on Not
    Acceptable (406) and neither looks an entry up nor sends a body; the
    negotiation has no result exactly in that case; and a type it selects
    is acceptable, no offered type is preferred to it, and the types
    offered before it are less preferred, so that among equally preferred
    types the earliest offered is chosen. *)
Theorem content_negotiation root opts w req dir originalDir raw :
  reaches_listing root w req dir originalDir raw ->
  ((forall t, In t mediaTypes -> accept req t = 0%nat) ->
   handle root opts w req =
     ([CallStat (resolved root dir); CallReaddir (resolved root dir)],
      Next (Some (createError 406))))
  /\
  (accepts_type (accept req) mediaTypes = None <->
   forall t, In t mediaTypes -> accept req t = 0%nat)
  /\
  (forall t, accepts_type (accept req) mediaTypes = Some t ->
     (exists before later,
        mediaTypes = before ++ t :: later /\
        (0 < accept req t)%nat /\
        (forall u, In u before -> (accept req u < accept req t)%nat) /\
        (forall u, In u later -> (accept req u <= accept req t)%nat))
     /\
     handle root opts w req =
       after (CallStat (resolved root dir))
         (after (CallReaddir (resolved root dir))
            (respond opts w t (listed opts (resolved root dir) raw)
               originalDir (show_up root dir) (resolved root dir)))).
Proof.
  intros Hr.
  rewrite (handle_listed root opts w req dir originalDir raw Hr).
  unfold on_readdir. split; [|split].
  - intros Hnone. apply accepts_type_none in Hnone. rewrite Hnone.
    reflexivity.
  - apply accepts_type_none.
  - intros t Ht. split; [apply accepts_type_some; exact Ht|].
    rewrite Ht. reflexivity.
Qed.

(** C7.  For a request that reaches the listing of a directory whose
    lookups succeed: when JSON is negotiated the body is the JSON array of
    the names of the sorted entries, in their order, and of nothing else
    (read as JSON, the body is the list of these names); when plain text
    is negotiated the body is these names joined by newlines, followed by
    one newline. *)
Theorem json_and_plain_bodies root opts w req dir originalDir raw :
  reaches_listing root w req dir originalDir raw ->
  lookups_succeed w (resolved root dir)
    (listed opts (resolved root dir) raw) ->
  (accepts_type (accept req) mediaTypes = Some "application/json" ->
   handle root opts w req =
     (CallStat (resolved root dir) :: CallReaddir (resolved root dir)
        :: lookups (resolved root dir) (listed opts (resolved root dir) raw),
      send "application/json"
        (Js.JSON_stringify
           (map file_name
              (listing w (resolved root dir)
                 (listed opts (resolved root dir) raw)))))
   /\ Js.JSON_parse
        (Js.JSON_stringify
           (map file_name
              (listing w (resolved root dir)
                 (listed opts (resolved root dir) raw))))
      = Some (map file_name
                (listing w (resolved root dir)
                   (listed opts (resolved root dir) raw))))
  /\
  (accepts_type (accept req) mediaTypes = Some "text/plain" ->
   handle root opts w req =
     (CallStat (resolved root dir) :: CallReaddir (resolved root dir)
        :: lookups (resolved root dir) (listed opts (resolved root dir) raw),
      send "text/plain"
        (Js.join LF
           (map file_name
              (listing w (resolved root dir)
                 (listed opts (resolved root dir) raw)))
         ++ LF))).
Proof.
  intros Hr Hno. split; intros Ha.
  - split; [|apply JSON_roundtrip].
    destruct (handle_rendering root opts w req dir originalDir raw
                "application/json" json Hr Ha eq_refl)
      as [(calls & f & e & Hin & Hf & _)|[_ E]].
    + exfalso. exact (Hno f e Hin Hf).
    + rewrite E. simpl. rewrite app_nil_r. reflexivity.
  - destruct (handle_rendering root opts w req dir originalDir raw
                "text/plain" plain Hr Ha eq_refl)
      as [(calls & f & e & Hin & Hf & _)|[_ E]].
    + exfalso. exact (Hno f e Hin Hf).
    + rewrite E. simpl. rewrite app_nil_r. reflexivity.
Qed.

(** C2, as the code has it.  With [hidden] unset, a request that reaches a
    responder either passes on the error of a failing lookup or renders
    the sorted entries, and the only entry among them whose name starts
    with a dot is the parent link [..] of an HTML listing below the root. *)
Theorem hidden_entries root opts w req dir originalDir raw type t :
  reaches_listing root w req dir originalDir raw ->
  hidden opts = false ->
  accepts_type (accept req) mediaTypes = Some type ->
  mediaType type = Some t ->
  (exists calls e,
     handle root opts w req =
       (CallStat (resolved root dir) :: CallReaddir (resolved root dir)
          :: calls, Next (Some e)))
  \/
  (exists calls fileList,
     handle root opts w req =
       (calls, snd (rendered opts w t originalDir (resolved root dir)
                      fileList)) /\
     fileList =
       listing w (resolved root dir)
         (given_to_stat t (show_up root dir)
            (listed opts (resolved root dir) raw)) /\
     forall f, In f fileList -> starts_with_dot (file_name f) ->
       file_name f = ".." /\ t = html /\ show_up root dir = true).
Proof.
  intros Hr Hh Ha Ht.
  destruct (handle_rendering root opts w req dir originalDir raw type t
              Hr Ha Ht)
    as [(calls & f & e & _ & _ & E)|[_ E]].
  - left. exists calls, e. exact E.
  - right. eexists. eexists. split; [exact E|]. split; [reflexivity|].
    intros f Hin Hdot. apply listing_in in Hin as (name & Hname & ->).
    simpl in Hdot |- *.
    assert (Hlisted : In name (listed opts (resolved root dir) raw) ->
                      False).
    { intros H. apply listed_in in H as [_ H]. exact (H Hh Hdot). }
    destruct t; simpl in Hname; try (exfalso; auto; fail).
    destruct (show_up root dir); [|exfalso; auto].
    destruct Hname as [<-|Hname]; [auto | exfalso; auto].
Qed.

(** C10.  On a file system whose [readdir] omits [.] and [..], a request
    that reaches a responder either passes on the error of a failing
    lookup or renders the sorted entries, and an entry named [..] is among
    them exactly when HTML was negotiated below the root: the JSON and the
    plain listing never hold one. *)
Theorem parent_link_only_in_html root opts w req dir originalDir raw type t :
  reaches_listing root w req dir originalDir raw ->
  readdir_omits_dots (fs w) ->
  accepts_type (accept req) mediaTypes = Some type ->
  mediaType type = Some t ->
  (exists calls e,
     handle root opts w req =
       (CallStat (resolved root dir) :: CallReaddir (resolved root dir)
          :: calls, Next (Some e)))
  \/
  (exists calls fileList,
     handle root opts w req =
       (calls, snd (rendered opts w t originalDir (resolved root dir)
                      fileList)) /\
     fileList =
       listing w (resolved root dir)
         (given_to_stat t (show_up root dir)
            (listed opts (resolved root dir) raw)) /\
     (In ".." (map file_name fileList) <->
      t = html /\ show_up root dir = true)).
Proof.
  intros Hr Hfs Ha Ht.
  destruct (handle_rendering root opts w req dir originalDir raw type t
              Hr Ha Ht)
    as [(calls & f & e & _ & _ & E)|[_ E]].
  - left. exists calls, e. exact E.
  - right. eexists. eexists. split; [exact E|]. split; [reflexivity|].
    assert (Hraw : ~ In ".." (listed opts (resolved root dir) raw)).
    { intros H. apply listed_in in H as [H _].
      destruct Hr as (_ & _ & _ & _ & _ & Hrd).
      exact (proj2 (Hfs _ _ Hrd) H). }
    split.
    + intros Hin.
      apply (Permutation_in _ (Permutation_sym (listing_names _ _ _))) in Hin.
      destruct t; simpl in Hin; try contradiction.
      destruct (show_up root dir); [auto | contradiction].
    + intros [-> Hup]. rewrite Hup. simpl.
      apply (Permutation_in _ (listing_names _ _ _)). left. reflexivity.
Qed.

End Rendering.

(* ================================================================== *)
(** ** Runs on the small site *)

Section SiteFacts.
Local Open Scope string_scope.

(** Comparison by code unit is consistent. *)
Lemma compare_not_gt_trans a : forall b c,
  String.compare a b <> Gt -> String.compare b c <> Gt ->
  String.compare a c <> Gt.
Proof.
  induction a as [|x a IH]; intros [|y b] [|z c]; simpl; try congruence.
  unfold Ascii.compare.
  destruct (N.compare_spec (N_of_ascii x) (N_of_ascii y));
    destruct (N.compare_spec (N_of_ascii y) (N_of_ascii z));
    destruct (N.compare_spec (N_of_ascii x) (N_of_ascii z));
    try congruence; try lia; apply IH.
Qed.

Lemma posix_locale : Js.Consistent Posix.localeCompare.
Proof.
  unfold Posix.localeCompare, Js.default_compare. constructor.
  - intros a b. rewrite (String.compare_antisym b a).
    destruct (String.compare a b); simpl; lia.
  - intros a b c Hab Hbc.
    pose proof (compare_not_gt_trans a b c) as T.
    destruct (String.compare a b); destruct (String.compare b c);
      destruct (String.compare a c); try lia;
      exfalso; apply T; congruence.
Qed.

Lemma site_omits_dots faults : readdir_omits_dots (Site.files_with faults).
Proof.
  assert (G : forall l : list string,
            Forall (fun f => f <> "." /\ f <> "..") l ->
            ~ In "." l /\ ~ In ".." l).
  { intros l H. rewrite Forall_forall in H.
    split; intros F; apply H in F; tauto. }
  intros p l. simpl.
  destruct ((p =? "/srv/www/") || (p =? "/srv/www"))%bool.
  - intros H. injection H as <-. apply G.
    repeat constructor; discriminate.
  - destruct ((p =? "/srv/www/A/") || (p =? "/srv/www/A"))%bool;
      [|discriminate].
    intros H. injection H as <-. apply G. repeat constructor; discriminate.
Qed.

Lemma root_reached accept :
  @reaches_listing Posix.host "/srv/www" Site.world (Site.get "/" accept)
    "/" "/" ["b.txt"; ".hidden"; "A"].
Proof.
  split; [left; reflexivity|]. split; [split; reflexivity|].
  split; [apply no_nul_by_test; reflexivity|].
  split; [apply prefix_by_test; reflexivity|].
  split; [exists Site.dir_stats; split; reflexivity | reflexivity].
Qed.

Lemma below_reached accept :
  @reaches_listing Posix.host "/srv/www" Site.world (Site.get "/A/" accept)
    "/A/" "/A/" ["x"].
Proof.
  split; [left; reflexivity|]. split; [split; reflexivity|].
  split; [apply no_nul_by_test; reflexivity|].
  split; [apply prefix_by_test; reflexivity|].
  split; [exists Site.dir_stats; split; reflexivity | reflexivity].
Qed.

Lemma lookups_succeed_by_test {host : Host} w dir files :
  Forall (fun f =>
            match fs_stat (fs w) (join dir f) with
            | Ok _ => True
            | Err e => code_is e "ENOENT" = true
            end) files ->
  lookups_succeed w dir files.
Proof.
  intros H f e Hin [E C]. rewrite Forall_forall in H. specialize (H f Hin).
  rewrite E in H. congruence.
Qed.

End SiteFacts.

(** [stat] on the site when [b.txt] is gone, and when it cannot be looked
    up. *)
Lemma stat_gathering_witness :
  @stat Posix.host Site.raced "/srv/www/" ["A"; "b.txt"] Site.report
    = ([CallStat "/srv/www/A"; CallStat "/srv/www/b.txt"],
       send "text/plain" ("A" ++ LF ++ "b.txt" ++ LF))
  /\ exists calls,
       @stat Posix.host Site.locked "/srv/www/" ["A"; "b.txt"] Site.report
       = (calls ++ [], Next (Some Site.EACCES)).
Proof.
  split.
  - refine (proj1 (proj1 (@stat_gathering Posix.host Site.raced "/srv/www/"
                            ["A"; "b.txt"] Site.report) _)).
    apply lookups_succeed_by_test. repeat constructor.
  - refine (proj2 (proj2 (@stat_gathering Posix.host Site.locked "/srv/www/"
                            ["A"; "b.txt"] Site.report)
                     "b.txt" Site.EACCES _ _) _).
    + right; left; reflexivity.
    + split; reflexivity.
    + intros f e [<-|[<-|[]]] [E C]; vm_compute in E;
        first [discriminate | injection E as <-; reflexivity].
Defined.

(** [serveIndex.html] below the root of the site. *)
Lemma parent_entry_is_looked_up_witness :
  @serveIndex_html Posix.host Site.world ["x"] "/A/" true false
    "/srv/www/A/" "tiles" Site.lines "/lib/public/style.css"
  = ([CallStat "/srv/www"; CallStat "/srv/www/A/x";
      CallReadFile "/lib/public/style.css"],
     send "text/html" (".. (directory)" ++ LF ++ "x (file)")).
Proof.
  refine (proj1 (@parent_entry_is_looked_up Posix.host Site.world ["x"] "/A/"
                   false "/srv/www/A/" "tiles" Site.lines
                   "/lib/public/style.css" _)).
  apply lookups_succeed_by_test. repeat constructor.
Defined.

(** C3 as stated fails: for the listing of [/A], the entry [..] is looked
    up (the lookup of [/srv/www], the directory joined with [..]) and the
    template receives it with the metadata of a directory. *)
Lemma parent_entry_has_metadata :
  @join Posix.host "/srv/www/A" ".." = "/srv/www"
  /\ @handle Posix.host "/srv/www" Site.options_lines Site.world
       (Site.get "/A" (Site.only "text/html"))
     = ([CallStat "/srv/www/A"; CallReaddir "/srv/www/A";
         CallStat "/srv/www"; CallStat "/srv/www/A/x";
         CallReadFile "/lib/public/style.css"],
        send "text/html" (".. (directory)" ++ LF ++ "x (file)")).
Proof. split; reflexivity. Qed.

(** C2 as stated fails: with [hidden] unset, the HTML listing of [/A/]
    holds the entry [..], whose name starts with a dot. *)
Lemma parent_link_is_listed :
  hidden Site.options_lines = false
  /\ @listing Posix.host Site.world "/srv/www/A/"
       (given_to_stat html true (listed Site.options_lines "/srv/www/A/" ["x"]))
     = [ {| file_name := ".."; file_stat := Some Site.dir_stats |};
         {| file_name := "x"; file_stat := Some Site.file_stats |} ]
  /\ starts_with_dot ".."
  /\ @handle Posix.host "/srv/www" Site.options_lines Site.world
       (Site.get "/A/" (Site.only "text/html"))
     = ([CallStat "/srv/www/A/"; CallReaddir "/srv/www/A/";
         CallStat "/srv/www"; CallStat "/srv/www/A/x";
         CallReadFile "/lib/public/style.css"],
        send "text/html" (".. (directory)" ++ LF ++ "x (file)")).
Proof.
  split; [reflexivity|]. split; [reflexivity|].
  split; [exists "."; reflexivity | reflexivity].
Qed.

(** The root of the site for a client that accepts only XML, and for one
    that accepts every type alike: the first offered type is served. *)
Lemma content_negotiation_witness :
  Site.serve Site.world (Site.get "/" (Site.only "application/xml"))
    = ([CallStat "/srv/www/"; CallReaddir "/srv/www/"],
       Next (Some (createError 406)))
  /\ Site.serve Site.world (Site.get "/" Site.anything)
     = after (CallStat "/srv/www/")
         (after (CallReaddir "/srv/www/")
            (@respond Posix.host Site.options Site.world "text/html"
               ["A"; "b.txt"] "/" false "/srv/www/")).
Proof.
  split.
  - refine (proj1 (@content_negotiation Posix.host "/srv/www" Site.options
                     Site.world (Site.get "/" (Site.only "application/xml"))
                     "/" "/" ["b.txt"; ".hidden"; "A"] (root_reached _)) _).
    intros t [<-|[<-|[<-|[]]]]; reflexivity.
  - exact (proj2 (proj2 (proj2 (@content_negotiation Posix.host "/srv/www"
                     Site.options Site.world (Site.get "/" Site.anything)
                     "/" "/" ["b.txt"; ".hidden"; "A"] (root_reached _)))
                     "text/html" eq_refl)).
Defined.

(** The listing of the root of the site, as JSON and as plain text. *)
Lemma json_and_plain_bodies_witness :
  Site.serve Site.world (Site.get "/" (Site.only "application/json"))
    = ([CallStat "/srv/www/"; CallReaddir "/srv/www/";
        CallStat "/srv/www/A"; CallStat "/srv/www/b.txt"],
       send "application/json" (Js.JSON_stringify ["A"; "b.txt"]))
  /\ Site.serve Site.world (Site.get "/" (Site.only "text/plain"))
     = ([CallStat "/srv/www/"; CallReaddir "/srv/www/";
         CallStat "/srv/www/A"; CallStat "/srv/www/b.txt"],
        send "text/plain" ("A" ++ LF ++ "b.txt" ++ LF)).
Proof.
  split.
  - refine (proj1 (proj1 (@json_and_plain_bodies Posix.host "/srv/www"
                     Site.options
                     Site.world (Site.get "/" (Site.only "application/json"))
                     "/" "/" ["b.txt"; ".hidden"; "A"] (root_reached _) _) _)).
    + apply lookups_succeed_by_test. repeat constructor.
    + reflexivity.
  - refine (proj2 (@json_and_plain_bodies Posix.host "/srv/www" Site.options
                     Site.world (Site.get "/" (Site.only "text/plain"))
                     "/" "/" ["b.txt"; ".hidden"; "A"] (root_reached _) _) _).
    + apply lookups_succeed_by_test. repeat constructor.
    + reflexivity.
Defined.

(** The HTML listing of the root of the site holds no hidden entry. *)
Lemma hidden_entries_witness :
  (exists calls e,
     Site.serve Site.world (Site.get "/" (Site.only "text/html"))
     = (CallStat "/srv/www/" :: CallReaddir "/srv/www/" :: calls,
        Next (Some e)))
  \/
  (exists calls fileList,
     Site.serve Site.world (Site.get "/" (Site.only "text/html"))
     = (calls, snd (@rendered Posix.host Site.options Site.world html "/"
                      "/srv/www/" fileList)) /\
     fileList
     = [ {| file_name := "A"; file_stat := Some Site.dir_stats |};
         {| file_name := "b.txt"; file_stat := Some Site.file_stats |} ] /\
     forall f, In f fileList -> starts_with_dot (file_name f) ->
       file_name f = ".." /\ html = html /\ false = true).
Proof.
  exact (@hidden_entries Posix.host "/srv/www" Site.options Site.world
           (Site.get "/" (Site.only "text/html")) "/" "/"
           ["b.txt"; ".hidden"; "A"] "text/html" html
           (root_reached _) eq_refl eq_refl eq_refl).
Defined.

(** The JSON listing of [/A/], which is below the root, holds no [..]. *)
Lemma parent_link_only_in_html_witness :
  (exists calls e,
     Site.serve Site.world (Site.get "/A/" (Site.only "application/json"))
     = (CallStat "/srv/www/A/" :: CallReaddir "/srv/www/A/" :: calls,
        Next (Some e)))
  \/
  (exists calls fileList,
     Site.serve Site.world (Site.get "/A/" (Site.only "application/json"))
     = (calls, send "application/json" (json_body fileList)) /\
     fileList = [ {| file_name := "x"; file_stat := Some Site.file_stats |} ] /\
     (In ".." (map file_name fileList) <-> json = html /\ true = true)).
Proof.
  exact (@parent_link_only_in_html Posix.host "/srv/www" Site.options
           Site.world (Site.get "/A/" (Site.only "application/json"))
           "/A/" "/A/" ["x"] "application/json" json
           (below_reached _) (site_omits_dots []) eq_refl eq_refl).
Defined.

(** Sorting five entries in the C locale. *)
Lemma display_sort_witness :
  map file_name (@Js.sort _ (@fileSort Posix.host) Site.unsorted)
    = [".."; "A"; "Zoo"; "a.txt"; "b.txt"]
  /\ StronglySorted (Js.not_after (@fileSort Posix.host))
       (@Js.sort _ (@fileSort Posix.host) Site.unsorted)
  /\ @Js.sort _ (@fileSort Posix.host)
       (@Js.sort _ (@fileSort Posix.host) Site.unsorted)
     = @Js.sort _ (@fileSort Posix.host) Site.unsorted.
Proof.
  split; [reflexivity|].
  split.
  - exact (proj1 (proj2 (@display_sort Posix.host posix_locale Site.unsorted))).
  - exact (proj2 (proj2 (proj2 (proj2
             (@display_sort Posix.host posix_locale Site.unsorted))))).
Defined.

(* ================================================================== *)
(** ** More runs on the small site *)

(** Other methods are answered by the handler itself. *)
Example options_request :
  Site.serve Site.world (Site.request "OPTIONS" "/" Site.anything)
  = ([], End (Some 200)
             [("Allow", Text "GET, HEAD, OPTIONS");
              ("Content-Length", Text "0")] "")
  /\ Site.serve Site.world (Site.request "DELETE" "/" Site.anything)
     = ([], End (Some 405)
                [("Allow", Text "GET, HEAD, OPTIONS");
                 ("Content-Length", Text "0")] "").
Proof. split; reflexivity. Qed.

(** When two lookups fail, the error that is passed on is the one of the
    lookup that completes first. *)
Example first_error_wins :
  @stat Posix.host (Site.broken [0%nat]) "/srv/www/" ["A"; "b.txt"]
    Site.report
  = ([CallStat "/srv/www/A"; CallStat "/srv/www/b.txt"],
     Next (Some Site.EACCES))
  /\ @stat Posix.host (Site.broken [1%nat]) "/srv/www/" ["A"; "b.txt"]
       Site.report
     = ([CallStat "/srv/www/A"; CallStat "/srv/www/b.txt"],
        Next (Some Site.ENAMETOOLONG)).
Proof. split; reflexivity. Qed.

(** Eleven names: the eleventh lookup starts when a first one has
    completed, and is not started once a lookup has failed. *)
Example eleventh_lookup :
  fst (@stat Posix.host Site.world "/srv/www/"
         ["0"; "1"; "2"; "3"; "4"; "5"; "6"; "7"; "8"; "9"; "b.txt"]
         Site.report)
  = @lookups Posix.host "/srv/www/"
      ["0"; "1"; "2"; "3"; "4"; "5"; "6"; "7"; "8"; "9"; "b.txt"]
  /\ fst (@stat Posix.host (Site.broken [0%nat]) "/srv/www/"
            ["A"; "1"; "2"; "3"; "4"; "5"; "6"; "7"; "8"; "9"; "b.txt"]
            Site.report)
     = @lookups Posix.host "/srv/www/"
         ["A"; "1"; "2"; "3"; "4"; "5"; "6"; "7"; "8"; "9"].
Proof. split; reflexivity. Qed.

(** The text of a JSON listing. *)
Example json_text :
  Js.JSON_stringify ["A"; "b.txt"]
  = ("[" ++ String Js.dquote "A" ++ String Js.dquote ","
         ++ String Js.dquote "b.txt" ++ String Js.dquote "]")%string.
Proof. reflexivity. Qed.

(* ================================================================== *)
(** ** The course of a request *)

Section Course.
Context {host : Host}.

Lemma gate_reads req :
  negb (method req =?s "GET") && negb (method req =?s "HEAD") = false ->
  reads req.
Proof.
  unfold reads.
  destruct (String.eqb_spec (method req) "GET"); [auto|].
  destruct (String.eqb_spec (method req) "HEAD"); [auto | discriminate].
Qed.

(** A run makes no call, or passes the guards and looks the path up. *)
Lemma handle_tree root opts w req :
  (fst (handle root opts w req) = [] /\
   ((exists s hs, snd (handle root opts w req) = End (Some s) hs "")
    \/ snd (handle root opts w req) = Next (Some (createError 400))
    \/ snd (handle root opts w req) = Throw "URIError"
    \/ snd (handle root opts w req) = Next (Some (createError 403))))
  \/
  exists dir originalDir,
    reads req /\ decodes req dir originalDir /\
    ~ Js.contains Ascii.zero (resolved root dir) /\
    Js.is_prefix (root_path root) (resolved root dir ++ sep) /\
    handle root opts w req =
      after (CallStat (resolved root dir))
        (on_stat opts w req originalDir (show_up root dir)
           (resolved root dir) (fs_stat (fs w) (resolved root dir))).
Proof.
  destruct (negb (method req =?s "GET") && negb (method req =?s "HEAD"))
    eqn:Hm.
  { left. rewrite handle_other_method by exact Hm. split; [reflexivity|].
    left. eexists. eexists. reflexivity. }
  apply gate_reads in Hm.
  destruct (getRequestedDir req) as [dir|] eqn:Hd.
  2:{ left. rewrite handle_undecodable by assumption.
      split; [reflexivity | auto]. }
  destruct (decodeURIComponent
              (match original_pathname req with Some p => p | None => "" end))
    as [originalDir|] eqn:Ho.
  2:{ left. unfold handle. rewrite (reads_gate req Hm), Hd, Ho.
      split; [reflexivity | auto]. }
  assert (Hdec : decodes req dir originalDir) by (split; assumption).
  destruct (Js.truthy (Js.bitnot (Js.indexOf NUL (resolved root dir))))
    eqn:Hn.
  { left. apply nul_test in Hn.
    rewrite (handle_nul root opts w req dir originalDir Hm Hdec Hn).
    split; [reflexivity | auto]. }
  apply nul_test_false in Hn.
  destruct (Js.substr 0 (String.length (root_path root))
              (resolved root dir ++ sep) =?s root_path root) eqn:Hp.
  - right. exists dir, originalDir. apply substr_test in Hp.
    repeat (split; [assumption|]). apply handle_probe; assumption.
  - left. apply no_prefix_by_test in Hp.
    rewrite (handle_escape root opts w req dir originalDir Hm Hdec Hn Hp).
    split; [reflexivity | auto].
Qed.

Lemma on_stat_tree opts w req originalDir showUp p r :
  (fst (on_stat opts w req originalDir showUp p r) = [] /\
   (snd (on_stat opts w req originalDir showUp p r) = Next None
    \/ exists e, r = Err e /\ code_is e "ENOENT" = false /\
         snd (on_stat opts w req originalDir showUp p r) =
           Next (Some {| err_code := err_code e;
                         err_status :=
                           Some (if code_is e "ENAMETOOLONG" then 414
                                 else 500) |})))
  \/
  exists st, r = Ok st /\ isDirectory st = true /\
    on_stat opts w req originalDir showUp p r =
      after (CallReaddir p)
        (on_readdir opts w req originalDir showUp p (fs_readdir (fs w) p)).
Proof.
  unfold on_stat. destruct r as [st|e].
  - destruct (isDirectory st) eqn:D; simpl.
    + right. exists st. auto.
    + left. split; [reflexivity | auto].
  - left. destruct (code_is e "ENOENT") eqn:C; simpl;
      (split; [reflexivity|]); [auto | right; exists e; auto].
Qed.

Lemma on_readdir_tree opts w req originalDir showUp p r :
  (fst (on_readdir opts w req originalDir showUp p r) = [] /\
   ((exists e, r = Err e /\
       snd (on_readdir opts w req originalDir showUp p r) = Next (Some e))
    \/ snd (on_readdir opts w req originalDir showUp p r)
       = Next (Some (createError 406))))
  \/
  exists raw type t,
    r = Ok raw /\ accepts_type (accept req) mediaTypes = Some type /\
    mediaType type = Some t /\
    on_readdir opts w req originalDir showUp p r =
      respond opts w type (listed opts p raw) originalDir showUp p.
Proof.
  unfold on_readdir. destruct r as [raw|e].
  - destruct (accepts_type (accept req) mediaTypes) as [type|] eqn:Ha.
    + right. destruct (accepted_type_known _ _ Ha) as [t Ht].
      exists raw, type, t. auto.
    + left. split; [reflexivity | auto].
  - left. split; [reflexivity | left; eauto].
Qed.

(** The calls of [stat] are lookups of the names it was given, followed
    by what the callback does. *)
Lemma stat_calls w dir files cb c :
  In c (fst (stat w dir files cb)) ->
  (exists f, In f files /\ c = CallStat (join dir f))
  \/ exists r, In c (fst (cb r)).
Proof.
  assert (G : forall calls more, calls ++ more = lookups dir files ->
            In c calls -> exists f, In f files /\ c = CallStat (join dir f)).
  { intros calls more E Hin.
    assert (H : In c (lookups dir files))
      by (rewrite <- E; apply in_or_app; auto).
    unfold lookups in H. apply in_map_iff in H as (f & <- & Hf). eauto. }
  destruct (stat_cases w dir files cb)
    as [(calls & f & e & _ & _ & (more & Hpre) & E)|[_ E]];
    rewrite E; simpl; intros Hin; apply in_app_or in Hin as [Hin|Hin]; eauto.
  left. apply (G _ [] (app_nil_r _) Hin).
Qed.

Lemma html_render_calls w dir icons p view template stylesheet fileList c :
  In c (fst (html_render w dir icons p view template stylesheet fileList)) ->
  c = CallReadFile stylesheet
  \/ exists q, template = TemplatePath q /\ c = CallReadFile q.
Proof.
  unfold html_render, createHtmlRender, after, finish. simpl.
  intros [<-|Hin]; [auto|].
  destruct (fs_readFile (fs w) stylesheet); simpl in Hin; [|contradiction].
  destruct template as [q|f]; simpl in Hin.
  - destruct Hin as [<-|Hin]; [eauto|].
    destruct (fs_readFile (fs w) q); simpl in Hin; contradiction.
  - destruct (f _); simpl in Hin; contradiction.
Qed.

Lemma respond_calls opts w type files originalDir showUp p c :
  In c (fst (respond opts w type files originalDir showUp p)) ->
  (exists f, (f = ".." \/ In f files) /\ c = CallStat (join p f))
  \/ c = CallReadFile (stylesheet_of opts)
  \/ exists q, template_of opts = TemplatePath q /\ c = CallReadFile q.
Proof.
  unfold respond.
  destruct (mediaType type) as [[| |]|]; simpl; [| | |contradiction];
    unfold serveIndex_html, serveIndex_json, serveIndex_plain;
    intros Hin; apply stat_calls in Hin as [(f & Hf & ->)|[r Hin]].
  - left. exists f. split; [|reflexivity].
    destruct showUp; [destruct Hf as [<-|Hf]|]; auto.
  - destruct r as [fileList|e]; simpl in Hin; [|contradiction].
    right. apply html_render_calls in Hin. exact Hin.
  - left. exists f. auto.
  - destruct r; simpl in Hin; contradiction.
  - left. exists f. auto.
  - destruct r; simpl in Hin; contradiction.
Qed.

End Course.

(* ================================================================== *)
(** ** What a run touches and how it ends *)

Section Footprint.
Context {host : Host}.

(** X1.  The handler sets a status code itself exactly for the methods
    other than GET and HEAD: it answers them at once, 200 for OPTIONS and
    405 for the rest, with the [Allow] header and an empty body, whatever
    the path, the options and the file system are; a GET or HEAD request
    never ends with a status code set by the handler. *)
Theorem status_only_for_other_methods root opts w req :
  (method req <> "GET" -> method req <> "HEAD" ->
   handle root opts w req =
     ([], End (Some (if "OPTIONS" =?s method req then 200 else 405))
              [("Allow", Text "GET, HEAD, OPTIONS");
               ("Content-Length", Text "0")] ""))
  /\
  (reads req ->
   forall s hs b, snd (handle root opts w req) <> End (Some s) hs b).
Proof.
  split.
  - intros Hg Hh. apply handle_other_method.
    apply String.eqb_neq in Hg, Hh. rewrite Hg, Hh. reflexivity.
  - intros Hm s hs b.
    unfold handle. rewrite (reads_gate req Hm).
    unfold on_stat, on_readdir, after, finish.
    repeat match goal with
           | |- context [if ?c then _ else _] => destruct c; simpl
           | |- context [match ?x with _ => _ end] => destruct x; simpl
           end; try discriminate.
    all: unfold respond;
      destruct (mediaType _) as [[| |]|]; simpl; try discriminate;
      unfold serveIndex_html, serveIndex_json, serveIndex_plain;
      match goal with
      | |- snd (stat ?w ?p ?l ?cb) <> _ =>
          destruct (stat_calls_back w p l cb) as [[fileList|e] ->]
      end; simpl; try discriminate.
    all: unfold html_render, createHtmlRender, after, finish; simpl;
      repeat match goal with
             | |- context [match ?x with _ => _ end] => destruct x; simpl
             end; discriminate.
Qed.

(** X2.  A directory is read only when the request is a GET or HEAD, the
    directory is the decoded path joined under the root and normalized, it
    holds no NUL, the root is a prefix of it (followed by the separator),
    and the lookup before has said that it is a directory. *)
Theorem directory_reads_are_confined root opts w req p :
  In (CallReaddir p) (fst (handle root opts w req)) ->
  reads req /\
  exists dir,
    getRequestedDir req = Some dir /\ p = resolved root dir /\
    Js.is_prefix (root_path root) (p ++ sep) /\
    ~ Js.contains Ascii.zero p /\
    exists st, fs_stat (fs w) p = Ok st /\ isDirectory st = true.
Proof.
  intros Hin.
  destruct (handle_tree root opts w req)
    as [[E _]|(dir & od & Hm & Hd & Hn & Hp & E)]; rewrite E in Hin;
    [contradiction|].
  simpl in Hin. destruct Hin as [Hin|Hin]; [discriminate|].
  destruct (on_stat_tree opts w req od (show_up root dir) (resolved root dir)
              (fs_stat (fs w) (resolved root dir)))
    as [[E' _]|(st & Hst & Hdir & E')]; rewrite E' in Hin; [contradiction|].
  simpl in Hin. destruct Hin as [Hin|Hin].
  - injection Hin as <-. split; [exact Hm|]. exists dir.
    destruct Hd as [Hd _]. repeat (split; [assumption || reflexivity|]).
    exists st. auto.
  - exfalso.
    destruct (on_readdir_tree opts w req od (show_up root dir)
                (resolved root dir) (fs_readdir (fs w) (resolved root dir)))
      as [[E'' _]|(raw & type & t & _ & _ & _ & E'')]; rewrite E'' in Hin;
      [contradiction|].
    apply respond_calls in Hin
      as [(f & _ & Hc)|[Hc|(q & _ & Hc)]]; discriminate.
Qed.

(** X3.  Every call of a run to [fs.stat], [fs.readdir] or [fs.readFile]
    is the lookup of the requested path, the reading of that directory, the
    lookup of one of the names read from it or of [..] joined to it, or the
    reading of the stylesheet or of the template file of the options.  (The
    icon files, which the rendering of the template reads with
    [fs.readFileSync], are the matter of X14.) *)
Theorem file_system_footprint root opts w req c :
  In c (fst (handle root opts w req)) ->
  exists dir,
    getRequestedDir req = Some dir /\
    (c = CallStat (resolved root dir)
     \/ c = CallReaddir (resolved root dir)
     \/ (exists f,
           c = CallStat (join (resolved root dir) f) /\
           (f = ".." \/
            exists raw, fs_readdir (fs w) (resolved root dir) = Ok raw /\
                        In f raw))
     \/ c = CallReadFile (stylesheet_of opts)
     \/ exists q, template_of opts = TemplatePath q /\ c = CallReadFile q).
Proof.
  intros Hin.
  destruct (handle_tree root opts w req)
    as [[E _]|(dir & od & Hm & Hd & Hn & Hp & E)]; rewrite E in Hin;
    [contradiction|].
  exists dir. split; [exact (proj1 Hd)|].
  simpl in Hin. destruct Hin as [<-|Hin]; [auto|].
  destruct (on_stat_tree opts w req od (show_up root dir) (resolved root dir)
              (fs_stat (fs w) (resolved root dir)))
    as [[E' _]|(st & Hst & Hdir & E')]; rewrite E' in Hin; [contradiction|].
  simpl in Hin. destruct Hin as [<-|Hin]; [auto|].
  destruct (on_readdir_tree opts w req od (show_up root dir)
              (resolved root dir) (fs_readdir (fs w) (resolved root dir)))
    as [[E'' _]|(raw & type & t & Hraw & _ & _ & E'')]; rewrite E'' in Hin;
    [contradiction|].
  apply respond_calls in Hin as [(f & Hf & ->)|[->|(q & Hq & ->)]].
  - right. right. left. exists f. split; [reflexivity|].
    destruct Hf as [->|Hf]; [auto|]. right. exists raw.
    split; [exact Hraw|]. apply listed_in in Hf. tauto.
  - auto.
  - right. right. right. right. eauto.
Qed.

(** X4.  Whenever the handler answers with a body, the request is a GET or
    HEAD that reached the listing of a directory inside the root, a media
    type was negotiated, every lookup of an entry succeeded, and the
    headers are [nosniff], the negotiated type with the UTF-8 charset, and
    the length of the body. *)
Theorem answers_are_listings root opts w req hs body :
  snd (handle root opts w req) = End None hs body ->
  exists dir originalDir raw type t,
    reaches_listing root w req dir originalDir raw /\
    accepts_type (accept req) mediaTypes = Some type /\
    mediaType type = Some t /\
    lookups_succeed w (resolved root dir)
      (given_to_stat t (show_up root dir)
         (listed opts (resolved root dir) raw)) /\
    hs = [("X-Content-Type-Options", Text "nosniff");
          ("Content-Type", Text (type ++ "; charset=utf-8"));
          ("Content-Length", Num (String.length body))].
Proof.
  intros Hend.
  destruct (handle_tree root opts w req)
    as [[_ [(s & hs' & E)|[E|[E|E]]]]|(dir & od & Hm & Hd & Hn & Hp & E)];
    try (rewrite E in Hend; discriminate).
  rewrite E in Hend. simpl in Hend.
  destruct (on_stat_tree opts w req od (show_up root dir) (resolved root dir)
              (fs_stat (fs w) (resolved root dir)))
    as [[_ [E'|(e & _ & _ & E')]]|(st & Hst & Hdir & E')];
    try (rewrite E' in Hend; discriminate).
  rewrite E' in Hend. simpl in Hend.
  destruct (on_readdir_tree opts w req od (show_up root dir)
              (resolved root dir) (fs_readdir (fs w) (resolved root dir)))
    as [[_ [(e & _ & E'')|E'']]|(raw & type & t & Hraw & Ha & Ht & E'')];
    try (rewrite E'' in Hend; discriminate).
  rewrite E'' in Hend.
  assert (Hr : reaches_listing root w req dir od raw).
  { repeat (split; [assumption|]). split; [exists st; auto | exact Hraw]. }
  exists dir, od, raw, type, t.
  split; [exact Hr|]. split; [exact Ha|]. split; [exact Ht|].
  destruct (respond_cases opts w type t (listed opts (resolved root dir) raw)
              od (show_up root dir) (resolved root dir) Ht)
    as [(calls & f & e & _ & _ & _ & R)|[Hno R]]; rewrite R in Hend;
    [discriminate|].
  split; [exact Hno|]. simpl in Hend.
  assert (Htype : forall u body',
            send u body' = End None hs body ->
            hs = [("X-Content-Type-Options", Text "nosniff");
                  ("Content-Type", Text (u ++ "; charset=utf-8"));
                  ("Content-Length", Num (String.length body))]).
  { unfold send. intros u body' H. injection H as <- <-. reflexivity. }
  unfold mediaType in Ht.
  destruct (String.eqb_spec type "text/html") as [->|_];
    [|destruct (String.eqb_spec type "text/plain") as [->|_];
      [|destruct (String.eqb_spec type "application/json") as [->|_];
        [|discriminate]]];
    injection Ht as <-; simpl in Hend; try (eapply Htype; exact Hend).
  unfold html_render, createHtmlRender, after, finish in Hend.
  simpl in Hend.
  repeat match type of Hend with
         | context [match ?x with _ => _ end] => destruct x; simpl in Hend
         end; try discriminate; eapply Htype; exact Hend.
Qed.

End Footprint.

(* ================================================================== *)
(** ** Errors, order and edge cases of the listing *)

Section ListingFacts.
Context {host : Host}.

Lemma html_render_error w dir icons p view template stylesheet fileList e :
  snd (html_render w dir icons p view template stylesheet fileList)
    = Next (Some e) ->
  fs_readFile (fs w) stylesheet = Err e
  \/ (exists q, template = TemplatePath q /\ fs_readFile (fs w) q = Err e)
  \/ (exists g locals, template = TemplateFunction g /\ g locals = Err e).
Proof.
  unfold html_render, createHtmlRender, after, finish. simpl.
  destruct (fs_readFile (fs w) stylesheet) as [style|e0] eqn:S; simpl.
  - destruct template as [q|g]; simpl.
    + destruct (fs_readFile (fs w) q) as [str|e1] eqn:Q; simpl;
        [discriminate|].
      intros H. injection H as <-. right. left. eauto.
    + match goal with
      | |- context [g ?l] => destruct (g l) as [body|e1] eqn:G
      end; simpl; [discriminate|].
      intros H. injection H as <-. right. right. eauto.
  - intros H. injection H as <-. auto.
Qed.

(** X5.  An error that the handler passes to [next] is one of its own
    (400, 403, 406), the error of the lookup of the requested path with
    status 414 or 500 attached, or, unchanged, an error that [readdir], the
    lookup of an entry, the reading of the stylesheet or of the template
    file, or the template function returned. *)
Theorem errors_passed_on root opts w req e :
  snd (handle root opts w req) = Next (Some e) ->
  e = createError 400 \/ e = createError 403 \/ e = createError 406
  \/ exists dir,
       getRequestedDir req = Some dir /\
       ((exists e0,
           fs_stat (fs w) (resolved root dir) = Err e0 /\
           code_is e0 "ENOENT" = false /\
           e = {| err_code := err_code e0;
                  err_status :=
                    Some (if code_is e0 "ENAMETOOLONG" then 414 else 500) |})
        \/ fs_readdir (fs w) (resolved root dir) = Err e
        \/ (exists f, lookup_fails w (resolved root dir) f e)
        \/ fs_readFile (fs w) (stylesheet_of opts) = Err e
        \/ (exists q, template_of opts = TemplatePath q /\
                      fs_readFile (fs w) q = Err e)
        \/ (exists g locals, template_of opts = TemplateFunction g /\
                             g locals = Err e)).
Proof.
  intros Hend.
  destruct (handle_tree root opts w req)
    as [[_ [(s & hs' & E)|[E|[E|E]]]]|(dir & od & Hm & Hd & Hn & Hp & E)];
    rewrite E in Hend; try discriminate;
    try (injection Hend as <-; auto; fail).
  simpl in Hend.
  destruct (on_stat_tree opts w req od (show_up root dir) (resolved root dir)
              (fs_stat (fs w) (resolved root dir)))
    as [[_ [E'|(e0 & He0 & C & E')]]|(st & Hst & Hdir & E')];
    rewrite E' in Hend; try discriminate.
  { injection Hend as <-. right. right. right. exists dir.
    split; [exact (proj1 Hd)|]. left. exists e0. auto. }
  simpl in Hend.
  destruct (on_readdir_tree opts w req od (show_up root dir)
              (resolved root dir) (fs_readdir (fs w) (resolved root dir)))
    as [[_ [(e1 & He1 & E'')|E'']]|(raw & type & t & Hraw & Ha & Ht & E'')];
    rewrite E'' in Hend.
  { injection Hend as <-. right. right. right. exists dir.
    split; [exact (proj1 Hd)|]. auto. }
  { injection Hend as <-. auto. }
  right. right. right. exists dir. split; [exact (proj1 Hd)|].
  destruct (respond_cases opts w type t (listed opts (resolved root dir) raw)
              od (show_up root dir) (resolved root dir) Ht)
    as [(calls & f & e1 & _ & Hf & _ & R)|[Hno R]]; rewrite R in Hend;
    simpl in Hend.
  { injection Hend as <-. right. right. left. eauto. }
  destruct t; simpl in Hend; try discriminate.
  apply html_render_error in Hend. tauto.
Qed.



Lemma filter_from_iff {A} (g : A -> nat -> list A -> bool) whole l x :
  forall i,
  In x (Js.filter_from g whole i l) <->
  exists k, nth_error l k = Some x /\ g x (i + k)%nat whole = true.
Proof.
  induction l as [|y l IH]; intros i; simpl.
  - split; [tauto|]. intros ([|k] & H & _); discriminate.
  - split.
    + intros H.
      assert (H' : (y = x /\ g y i whole = true)
                   \/ In x (Js.filter_from g whole (S i) l)).
      { destruct (g y i whole) eqn:G; [destruct H as [H|H]|]; auto. }
      destruct H' as [[-> G]|H'].
      * exists 0%nat. rewrite Nat.add_0_r. split; [reflexivity | exact G].
      * apply IH in H' as (k & Hk & G). exists (S k).
        rewrite Nat.add_succ_r. split; [exact Hk | exact G].
    + intros ([|k] & Hk & G).
      * simpl in Hk. injection Hk as ->. rewrite Nat.add_0_r in G.
        rewrite G. left. reflexivity.
      * simpl in Hk. rewrite Nat.add_succ_r in G.
        assert (In x (Js.filter_from g whole (S i) l))
          by (apply IH; exists k; auto).
        destruct (g y i whole); [right|]; assumption.
Qed.

(** X7.  A name is handed to the responder exactly when it stands at some
    index of the names left after the hidden ones are dropped (all names
    when [hidden] is set) and the [filter] option, if there is one, accepts
    it when called with the name, that index, that list and the path of
    the directory. *)
Theorem listed_iff opts p raw f :
  In f (listed opts p raw) <->
  exists i,
    nth_error (visible opts raw) i = Some f /\
    forall g, filter opts = Some g -> g f i (visible opts raw) p = true.
Proof.
  unfold listed. rewrite sort_in. fold (visible opts raw).
  destruct (filter opts) as [g|].
  - unfold Js.filter. rewrite filter_from_iff. simpl.
    split; intros (i & Hi & G); exists i; split; auto.
    intros g' Hg. injection Hg as <-. exact G.
  - split.
    + intros H. apply In_nth_error in H as [i Hi]. exists i.
      split; [exact Hi | discriminate].
    + intros (i & Hi & _). eapply nth_error_In; eauto.
Qed.



(** X9.  When no name is handed to the responder (the directory is empty,
    or all its names are hidden or filtered out), the JSON listing is the
    text of the empty array and the plain listing is one newline, and no
    entry is looked up. *)
Theorem empty_directory root opts w req dir originalDir raw :
  reaches_listing root w req dir originalDir raw ->
  listed opts (resolved root dir) raw = [] ->
  (accepts_type (accept req) mediaTypes = Some "application/json" ->
   handle root opts w req =
     ([CallStat (resolved root dir); CallReaddir (resolved root dir)],
      send "application/json" "[]"))
  /\
  (accepts_type (accept req) mediaTypes = Some "text/plain" ->
   handle root opts w req =
     ([CallStat (resolved root dir); CallReaddir (resolved root dir)],
      send "text/plain" LF)).
Proof.
  intros Hr Hl.
  rewrite (handle_listed root opts w req dir originalDir raw Hr).
  unfold on_readdir. rewrite Hl.
  split; intros Ha; rewrite Ha; reflexivity.
Qed.

End ListingFacts.

(* ================================================================== *)
(** ** These facts on the small site *)

Lemma directory_reads_are_confined_witness :
  reads (Site.get "/A/" Site.anything) /\
  exists dir,
    @getRequestedDir Posix.host (Site.get "/A/" Site.anything) = Some dir /\
    "/srv/www/A/" = @resolved Posix.host "/srv/www" dir /\
    Js.is_prefix (@root_path Posix.host "/srv/www")
      ("/srv/www/A/" ++ @sep Posix.host) /\
    ~ Js.contains Ascii.zero "/srv/www/A/" /\
    exists st, fs_stat (fs Site.world) "/srv/www/A/" = Ok st /\
               isDirectory st = true.
Proof.
  apply (@directory_reads_are_confined Posix.host "/srv/www" Site.options
           Site.world (Site.get "/A/" Site.anything) "/srv/www/A/").
  vm_compute. right. left. reflexivity.
Defined.

Lemma file_system_footprint_witness :
  exists dir,
    @getRequestedDir Posix.host (Site.get "/A/" Site.anything) = Some dir /\
    (CallStat "/srv/www" = CallStat (@resolved Posix.host "/srv/www" dir)
     \/ CallStat "/srv/www" = CallReaddir (@resolved Posix.host "/srv/www" dir)
     \/ (exists f,
           CallStat "/srv/www"
           = CallStat (@join Posix.host (@resolved Posix.host "/srv/www" dir) f)
           /\
           (f = ".." \/
            exists raw,
              fs_readdir (fs Site.world) (@resolved Posix.host "/srv/www" dir)
              = Ok raw /\ In f raw))
     \/ CallStat "/srv/www"
        = CallReadFile (@stylesheet_of Posix.host Site.options)
     \/ exists q, @template_of Posix.host Site.options = TemplatePath q /\
                  CallStat "/srv/www" = CallReadFile q).
Proof.
  apply (@file_system_footprint Posix.host "/srv/www" Site.options
           Site.world (Site.get "/A/" Site.anything) (CallStat "/srv/www")).
  vm_compute. right. right. left. reflexivity.
Defined.

Lemma answers_are_listings_witness :
  exists dir originalDir raw type t,
    @reaches_listing Posix.host "/srv/www" Site.world
      (Site.get "/" (Site.only "text/plain")) dir originalDir raw /\
    accepts_type (accept (Site.get "/" (Site.only "text/plain"))) mediaTypes
    = Some type /\
    mediaType type = Some t /\
    @lookups_succeed Posix.host Site.world (@resolved Posix.host "/srv/www" dir)
      (given_to_stat t (@show_up Posix.host "/srv/www" dir)
         (listed Site.options (@resolved Posix.host "/srv/www" dir) raw)) /\
    [("X-Content-Type-Options", Text "nosniff");
     ("Content-Type", Text "text/plain; charset=utf-8");
     ("Content-Length", Num 8)]
    = [("X-Content-Type-Options", Text "nosniff");
       ("Content-Type", Text (type ++ "; charset=utf-8"));
       ("Content-Length", Num (String.length ("A" ++ LF ++ "b.txt" ++ LF)))].
Proof.
  apply (@answers_are_listings Posix.host "/srv/www" Site.options Site.world
           (Site.get "/" (Site.only "text/plain"))).
  reflexivity.
Defined.

Lemma errors_passed_on_witness :
  Site.EACCES = createError 400 \/ Site.EACCES = createError 403
  \/ Site.EACCES = createError 406
  \/ exists dir,
       @getRequestedDir Posix.host (Site.get "/" Site.anything) = Some dir /\
       ((exists e0,
           fs_stat (fs Site.locked) (@resolved Posix.host "/srv/www" dir)
           = Err e0 /\
           code_is e0 "ENOENT" = false /\
           Site.EACCES
           = {| err_code := err_code e0;
                err_status :=
                  Some (if code_is e0 "ENAMETOOLONG" then 414 else 500) |})
        \/ fs_readdir (fs Site.locked) (@resolved Posix.host "/srv/www" dir)
           = Err Site.EACCES
        \/ (exists f,
              @lookup_fails Posix.host Site.locked
                (@resolved Posix.host "/srv/www" dir) f Site.EACCES)
        \/ fs_readFile (fs Site.locked) (@stylesheet_of Posix.host Site.options)
           = Err Site.EACCES
        \/ (exists q, @template_of Posix.host Site.options = TemplatePath q /\
                      fs_readFile (fs Site.locked) q = Err Site.EACCES)
        \/ (exists g locals,
              @template_of Posix.host Site.options = TemplateFunction g /\
              g locals = Err Site.EACCES)).
Proof.
  apply (@errors_passed_on Posix.host "/srv/www" Site.options Site.locked
           (Site.get "/" Site.anything)).
  reflexivity.
Defined.

Lemma empty_directory_witness :
  @handle Posix.host "/srv/www" Cases.nothing Site.world
    (Site.get "/" (Site.only "application/json"))
  = ([CallStat "/srv/www/"; CallReaddir "/srv/www/"],
     send "application/json" "[]")
  /\ @handle Posix.host "/srv/www" Cases.nothing Site.world
       (Site.get "/" (Site.only "text/plain"))
     = ([CallStat "/srv/www/"; CallReaddir "/srv/www/"],
        send "text/plain" LF).
Proof.
  split.
  - exact (proj1 (@empty_directory Posix.host "/srv/www" Cases.nothing
                    Site.world (Site.get "/" (Site.only "application/json"))
                    "/" "/" ["b.txt"; ".hidden"; "A"] (root_reached _)
                    eq_refl) eq_refl).
  - exact (proj2 (@empty_directory Posix.host "/srv/www" Cases.nothing
                    Site.world (Site.get "/" (Site.only "text/plain"))
                    "/" "/" ["b.txt"; ".hidden"; "A"] (root_reached _)
                    eq_refl) eq_refl).
Defined.

(* ================================================================== *)
(** ** Paths of the page *)

Section PathsOfThePage.
Context {host : Host} {markup : Markup}.
Local Open Scope string_scope.

Lemma split_cons c s : exists seg segs, Posix.split c s = seg :: segs.
Proof.
  induction s as [|x s (seg & segs & E)]; simpl; [eauto|].
  rewrite E. destruct (Ascii.eqb x c); eauto.
Qed.

Lemma concat_head sep x a (l : list string) :
  String.concat sep (String x a :: l) = String x (String.concat sep (a :: l)).
Proof. destruct l; reflexivity. Qed.

Lemma join_split c s :
  Js.join "/" (Posix.split c s)
  = Text.map_chars (fun x => if Ascii.eqb x c then "/"%char else x) s.
Proof.
  unfold Js.join. induction s as [|x s IH]; simpl; [reflexivity|].
  destruct (split_cons c s) as (seg & segs & E). rewrite E in *.
  destruct (Ascii.eqb x c).
  - change (String.concat "/" ("" :: seg :: segs))
      with (String "/" (String.concat "/" (seg :: segs))).
    now rewrite IH.
  - rewrite concat_head. now rewrite IH.
Qed.

Lemma map_chars_length f s :
  String.length (Text.map_chars f s) = String.length s.
Proof. induction s; simpl; congruence. Qed.

Lemma map_chars_id f s :
  (forall c, f c = c) -> Text.map_chars f s = s.
Proof. intros H. induction s; simpl; [reflexivity|]. now rewrite H, IHs. Qed.

(** X10.  [normalizeSlashes] replaces every separator of the system by
    [/] and changes nothing else: the result has the length of the path,
    holds no separator other than [/], and is the path itself where the
    separator is [/]. *)
Theorem normalizeSlashes_replaces path :
  normalizeSlashes path
  = Text.map_chars
      (fun c => if Ascii.eqb c separator then "/"%char else c) path
  /\ String.length (normalizeSlashes path) = String.length path
  /\ (separator <> "/"%char ->
      ~ Js.contains separator (normalizeSlashes path))
  /\ (separator = "/"%char -> normalizeSlashes path = path).
Proof.
  unfold normalizeSlashes. rewrite join_split.
  split; [reflexivity|]. split; [apply map_chars_length|]. split.
  - intros Hsep. unfold Js.contains.
    induction path as [|x p IH]; simpl; [tauto|].
    intros [H|H]; [|exact (IH H)].
    destruct (Ascii.eqb_spec x separator); congruence.
  - intros Hsep. apply map_chars_id. intros c. rewrite Hsep.
    destruct (Ascii.eqb_spec c "/"%char); congruence.
Qed.

Lemma crumbs_nth parts : forall done i,
  nth_error (crumbs done parts) i
  = option_map
      (fun part =>
         if part =?s "" then ""
         else crumb_link
                (Js.join "/" (done ++ map encoded_part (firstn (S i) parts)))
                part)
      (nth_error parts i).
Proof.
  induction parts as [|part rest IH]; intros done i.
  - destruct i; reflexivity.
  - assert (E : crumbs done (part :: rest)
              = (if part =?s "" then ""
                 else crumb_link (Js.join "/" (done ++ [encoded_part part]))
                        part)
                :: crumbs (done ++ [encoded_part part]) rest).
    { unfold encoded_part. simpl.
      destruct (String.eqb_spec part ""); [subst|]; reflexivity. }
    rewrite E. destruct i as [|i]; [reflexivity|].
    simpl nth_error. rewrite IH.
    destruct (nth_error rest i) as [q|]; [|reflexivity].
    simpl. now rewrite <- app_assoc.
Qed.

Lemma crumbs_length parts : forall done,
  List.length (crumbs done parts) = List.length parts.
Proof.
  induction parts as [|part rest IH]; intros done; simpl; [reflexivity|].
  destruct (part =?s ""); simpl; now rewrite IH.
Qed.

(** X11.  [htmlPath] joins one crumb per part of the directory (the parts
    between its slashes) by [ / ]: an empty part gives an empty crumb, and
    the crumb of any other part links to the parts up to and including it,
    each percent-encoded, joined by slashes, and shows the part itself;
    both are HTML-escaped. *)
Theorem htmlPath_crumbs dir :
  exists crumb,
    htmlPath dir = Js.join " / " crumb
    /\ List.length crumb = List.length (Posix.split "/" dir)
    /\ forall i part,
         nth_error (Posix.split "/" dir) i = Some part ->
         nth_error crumb i
         = Some (if part =?s "" then ""
                 else crumb_link
                        (Js.join "/"
                           (map encoded_part
                              (firstn (S i) (Posix.split "/" dir))))
                        part).
Proof.
  exists (crumbs [] (Posix.split "/" dir)).
  split; [reflexivity|]. split; [apply crumbs_length|].
  intros i part Hi. rewrite crumbs_nth, Hi. reflexivity.
Qed.

End PathsOfThePage.

(* ================================================================== *)
(** ** Icons *)

Section IconFacts.
Context {host : Host} {markup : Markup}.
Local Open Scope string_scope.

Lemma inherited_in k :
  Text.inherited k = true -> In k Text.object_prototype.
Proof.
  unfold Text.inherited. intros H. apply existsb_exists in H.
  destruct H as (x & Hin & E). apply String.eqb_eq in E. now subst.
Qed.

Lemma assoc_in {A} k (l : list (string * A)) v :
  Text.assoc k l = Some v -> In (k, v) l.
Proof.
  induction l as [|[k' v'] l IH]; simpl; [discriminate|].
  destruct (String.eqb_spec k' k).
  - intros [= ->]. subst. now left.
  - intros H. right. auto.
Qed.

(** The keys the lookup tries for a file with an extension of the usual
    shape are no property of [Object.prototype]. *)
Lemma not_inherited_empty : Text.inherited "" = false.
Proof. reflexivity. Qed.

Lemma not_inherited_char c r :
  (c = "."%char \/ c = "+"%char) -> Text.inherited (String c r) = false.
Proof.
  intros Hc. destruct (Text.inherited (String c r)) eqn:E; [|reflexivity].
  apply inherited_in in E. simpl in E.
  repeat (destruct E as [E|E];
          [injection E as E1 _; destruct Hc; subst; discriminate|]).
  destruct E.
Qed.

Lemma contains_test c s :
  Js.contains c s <-> existsb (Ascii.eqb c) (list_ascii_of_string s) = true.
Proof.
  unfold Js.contains. rewrite existsb_exists. split.
  - intros H. exists c. split; [exact H|apply Ascii.eqb_refl].
  - intros (x & Hin & E). apply Ascii.eqb_eq in E. now subst.
Qed.

Lemma not_inherited_slash m :
  Js.contains "/" m -> Text.inherited m = false.
Proof.
  intros Hc. destruct (Text.inherited m) eqn:E; [|reflexivity].
  apply inherited_in in E. apply contains_test in Hc.
  assert (Hall : forallb
                   (fun k => negb (existsb (Ascii.eqb "/")
                                     (list_ascii_of_string k)))
                   Text.object_prototype = true) by reflexivity.
  rewrite forallb_forall in Hall. specialize (Hall _ E).
  rewrite Hc in Hall. discriminate.
Qed.

Lemma icons_get_own k v :
  Text.inherited k = false -> icons_get k = Some v ->
  In v (map snd Assets.icons).
Proof.
  unfold icons_get. intros Hk.
  destruct (Text.assoc k Assets.icons) as [v'|] eqn:E.
  - intros [= <-]. apply assoc_in in E.
    apply in_map_iff. exists (k, v'). auto.
  - rewrite Hk. discriminate.
Qed.

Lemma in_table v :
  existsb (String.eqb v) (map snd Assets.icons) = true ->
  In v (map snd Assets.icons).
Proof.
  intros H. apply existsb_exists in H. destruct H as (x & Hin & E).
  apply String.eqb_eq in E. now subst.
Qed.

Lemma default_icon : In (icons_dot "default") (map snd Assets.icons).
Proof. apply in_table. vm_compute. reflexivity. Qed.

Lemma folder_icon : In (icons_dot "folder") (map snd Assets.icons).
Proof. apply in_table. vm_compute. reflexivity. Qed.

Lemma extension_not_inherited ext :
  extension_like ext -> Text.inherited ext = false.
Proof.
  intros [->|[rest ->]]; [reflexivity|].
  apply not_inherited_char. now left.
Qed.

Lemma iconLookup_known filename :
  extension_like (extname filename) ->
  (forall m, mime_lookup (extname filename) = Some m -> media_type_like m) ->
  In (fileName (iconLookup filename)) (map snd Assets.icons)
  /\ exists c, className (iconLookup filename) = "icon-" ++ c.
Proof.
  intros Hext Hmime. unfold iconLookup.
  destruct (icons_get (extname filename)) as [f|] eqn:E1.
  { split; [|eexists; reflexivity].
    apply (icons_get_own _ _ (extension_not_inherited _ Hext) E1). }
  destruct (mime_lookup (extname filename)) as [m|] eqn:E2.
  2:{ split; [apply default_icon|exists "default"; reflexivity]. }
  destruct (Hmime m eq_refl) as [Hslash Htype].
  destruct (icons_get m) as [f|] eqn:E3.
  { split; [|eexists; reflexivity].
    apply (icons_get_own _ _ (not_inherited_slash _ Hslash) E3). }
  assert (Hby :
    forall i : Icon,
      i = match icons_get (hd "" (Posix.split "/" m)) with
          | Some f => {| className := "icon-" ++ hd "" (Posix.split "/" m);
                         fileName := f |}
          | None => {| className := "icon-default";
                       fileName := icons_dot "default" |}
          end ->
      In (fileName i) (map snd Assets.icons)
      /\ exists c, className i = "icon-" ++ c).
  { intros i ->.
    destruct (icons_get (hd "" (Posix.split "/" m))) as [f|] eqn:E4.
    - split; [|eexists; reflexivity].
      apply (icons_get_own _ _ Htype E4).
    - split; [apply default_icon|exists "default"; reflexivity]. }
  cbv zeta.
  destruct (nth_error (Posix.split "+" m) 1) as [suffix|];
    [|apply Hby; reflexivity].
  destruct (suffix =?s ""); [apply Hby; reflexivity|].
  destruct (icons_get ("+" ++ suffix)) as [f|] eqn:E5;
    [|apply Hby; reflexivity].
  split; [|eexists; reflexivity].
  refine (icons_get_own _ _ _ E5).
  apply not_inherited_char. now right.
Qed.

(** The files of the icon map have plain names. *)
Lemma table_names v :
  In v (map snd Assets.icons) ->
  v <> "" /\ ~ Js.contains "/" v /\ Text.inherited v = false.
Proof.
  intros Hin.
  assert (Hall : forallb
                   (fun v => negb (v =?s "")
                             && negb (existsb (Ascii.eqb "/")
                                        (list_ascii_of_string v))
                             && negb (Text.inherited v))
                   (map snd Assets.icons) = true) by (vm_compute; reflexivity).
  rewrite forallb_forall in Hall. specialize (Hall _ Hin).
  apply andb_true_iff in Hall. destruct Hall as [Hall H3].
  apply andb_true_iff in Hall. destruct Hall as [H1 H2].
  apply negb_true_iff in H1, H2, H3. split; [|split; [|exact H3]].
  - intros E. rewrite E in H1. discriminate.
  - intros H. apply contains_test in H. congruence.
Qed.

(** X12.  For a file whose extension has the shape node:path gives
    (nothing, or a dot and more) and whose media type, if mime-types
    knows one, has a slash after a type that no object inherits,
    [iconLookup] answers with an icon file of the icon map, whichever
    way it finds it; the name of that file is not empty and holds no
    slash, and the class starts with [icon-]. *)
Theorem iconLookup_in_table filename :
  extension_like (extname filename) ->
  (forall m, mime_lookup (extname filename) = Some m -> media_type_like m) ->
  In (fileName (iconLookup filename)) (map snd Assets.icons)
  /\ fileName (iconLookup filename) <> ""
  /\ ~ Js.contains "/" (fileName (iconLookup filename))
  /\ exists c, className (iconLookup filename) = "icon-" ++ c.
Proof.
  intros Hext Hmime.
  destruct (iconLookup_known filename Hext Hmime) as [Hin Hc].
  destruct (table_names _ Hin) as (H1 & H2 & _). auto.
Qed.

Lemma icon_of_known file :
  (is_dir file = false ->
   extension_like (extname (file_name file))
   /\ forall m, mime_lookup (extname (file_name file)) = Some m ->
                media_type_like m) ->
  In (fileName (icon_of file)) (map snd Assets.icons).
Proof.
  intros H. unfold icon_of. destruct (is_dir file).
  - apply folder_icon.
  - destruct (H eq_refl) as [H1 H2]. apply (iconLookup_known _ H1 H2).
Qed.

End IconFacts.

(* ================================================================== *)
(** ** The style sheet of the icons *)

Section StyleLists.
Context {host : Host} {markup : Markup}.

Lemma has_rule_in n sheet :
  has_rule n sheet = existsb (String.eqb n) (map rule_icon sheet).
Proof.
  induction sheet as [|r sheet IH]; simpl; [reflexivity|].
  now rewrite IH, (String.eqb_sym (rule_icon r) n).
Qed.

Lemma eqb_in n l : existsb (String.eqb n) l = true <-> In n l.
Proof.
  rewrite existsb_exists. split.
  - intros (x & Hin & E). apply String.eqb_eq in E. now subst.
  - intros H. exists n. split; [exact H|apply String.eqb_refl].
Qed.

Lemma eqb_out n l : existsb (String.eqb n) l = false <-> ~ In n l.
Proof.
  rewrite <- eqb_in. destruct (existsb (String.eqb n) l); split;
    congruence.
Qed.

Lemma add_selector_icons n s sheet :
  map rule_icon (add_selector n s sheet) = map rule_icon sheet.
Proof.
  induction sheet as [|r sheet IH]; simpl; [reflexivity|].
  destruct (rule_icon r =?s n); simpl.
  - destruct (existsb (String.eqb s) (rule_selectors r)); reflexivity.
  - now rewrite IH.
Qed.

Lemma firsts_out seen names n :
  In n (firsts seen names) -> In n names /\ ~ In n seen.
Proof.
  revert seen. induction names as [|m names IH]; simpl; intros seen H;
    [contradiction|].
  destruct (existsb (String.eqb m) seen) eqn:E.
  - apply IH in H. tauto.
  - destruct H as [<-|H].
    + split; [now left|]. now apply eqb_out.
    + apply IH in H. destruct H as [H1 H2]. split; [now right|].
      intros Hs. apply H2, in_or_app. now left.
Qed.

Lemma firsts_in seen names n :
  In n names -> ~ In n seen -> In n (firsts seen names).
Proof.
  revert seen. induction names as [|m names IH]; simpl; intros seen H Hs;
    [contradiction|].
  destruct (existsb (String.eqb m) seen) eqn:E.
  - apply IH; [|exact Hs]. destruct H as [->|H]; [|exact H].
    apply eqb_in in E. contradiction.
  - destruct (string_dec m n) as [->|Hne]; [now left|]. right.
    apply IH; [destruct H; [contradiction|assumption]|].
    intros Hin. apply in_app_or in Hin. destruct Hin as [Hin|[Hin|[]]];
      contradiction.
Qed.

Lemma firsts_NoDup seen names : NoDup (firsts seen names).
Proof.
  revert seen. induction names as [|m names IH]; simpl; intros seen;
    [constructor|].
  destruct (existsb (String.eqb m) seen); [apply IH|].
  constructor; [|apply IH].
  intros H. apply firsts_out in H. destruct H as [_ H].
  apply H, in_or_app. right. now left.
Qed.

Lemma selectors_for_same f rest :
  selectors_for (fileName (icon_of f)) (f :: rest)
  = selector_of (icon_of f) :: selectors_for (fileName (icon_of f)) rest.
Proof.
  unfold selectors_for. simpl. now rewrite String.eqb_refl.
Qed.

Lemma selectors_for_other f rest n :
  fileName (icon_of f) <> n ->
  selectors_for n (f :: rest) = selectors_for n rest.
Proof.
  intros H. unfold selectors_for. simpl.
  destruct (String.eqb_spec (fileName (icon_of f)) n); [contradiction|].
  reflexivity.
Qed.

Lemma grow_other f rest r :
  rule_icon r <> fileName (icon_of f) -> grow rest r = grow (f :: rest) r.
Proof.
  intros H. unfold grow. rewrite selectors_for_other; [reflexivity|].
  congruence.
Qed.

Lemma grow_nil r : grow [] r = r.
Proof.
  unfold grow, selectors_for. simpl. rewrite app_nil_r. now destruct r.
Qed.

Lemma grow_add f rest sheet :
  NoDup (map rule_icon sheet) ->
  map (grow rest)
    (add_selector (fileName (icon_of f)) (selector_of (icon_of f)) sheet)
  = map (grow (f :: rest)) sheet.
Proof.
  induction sheet as [|r sheet IH]; intros Hnd; [reflexivity|].
  cbn [map] in Hnd. inversion Hnd as [|? ? Hout Hnd']; subst.
  cbn [add_selector].
  destruct (String.eqb_spec (rule_icon r) (fileName (icon_of f))) as [E|E].
  - assert (Htail : map (grow rest) sheet = map (grow (f :: rest)) sheet).
    { apply map_ext_in. intros r' Hin. apply grow_other.
      intros E'. apply Hout. rewrite E, <- E'. now apply in_map. }
    destruct (existsb (String.eqb (selector_of (icon_of f)))
                (rule_selectors r)) eqn:S;
      cbn [map]; rewrite Htail; f_equal;
      unfold grow; cbn [rule_icon rule_text rule_selectors];
      rewrite E, selectors_for_same; cbn [firsts]; rewrite S.
    + reflexivity.
    + now rewrite <- app_assoc.
  - cbn [map]. f_equal; [now apply grow_other|]. now apply IH.
Qed.

Lemma add_selector_fresh n s sheet text :
  ~ In n (map rule_icon sheet) ->
  add_selector n s
    (sheet ++ [{| rule_icon := n; rule_text := text; rule_selectors := [] |}])
  = sheet ++ [{| rule_icon := n; rule_text := text; rule_selectors := [s] |}].
Proof.
  induction sheet as [|r sheet IH]; simpl; intros H.
  - now rewrite String.eqb_refl.
  - destruct (String.eqb_spec (rule_icon r) n) as [E|E]; [tauto|].
    rewrite IH; [reflexivity|tauto].
Qed.

Lemma cached_other cache n d m :
  m <> n -> cached ((n, d) :: cache) m = cached cache m.
Proof.
  intros H. unfold cached. simpl.
  destruct (String.eqb_spec n m); [congruence|reflexivity].
Qed.

Lemma missing_other cache n d m :
  m <> n -> missing ((n, d) :: cache) m = missing cache m.
Proof. intros H. unfold missing. now rewrite cached_other. Qed.

(** The first loop of [iconStyle], in closed form, when every icon it
    needs can be had. *)

Lemma firsts_nil_in names n : In n (firsts [] names) <-> In n names.
Proof.
  split.
  - intros H. now apply firsts_out in H.
  - intros H. apply firsts_in; [exact H|]. intros [].
Qed.

Lemma filter_none {A} (f : A -> bool) l :
  (forall x, In x l -> f x = false) -> List.filter f l = [].
Proof.
  induction l as [|x l IH]; intros H; [reflexivity|].
  cbn [List.filter]. rewrite (H x (or_introl eq_refl)).
  apply IH. intros y Hy. apply H. now right.
Qed.

Lemma assoc_app {A} k (l1 l2 : list (string * A)) :
  Text.assoc k (l1 ++ l2)
  = match Text.assoc k l1 with
    | Some v => Some v
    | None => Text.assoc k l2
    end.
Proof.
  induction l1 as [|[k' v] l1 IH]; simpl; [reflexivity|].
  destruct (k' =?s k); [reflexivity|exact IH].
Qed.

Lemma assoc_tabulate {A} (g : string -> A) l k :
  Text.assoc k (map (fun m => (m, g m)) l)
  = if existsb (String.eqb k) l then Some (g k) else None.
Proof.
  induction l as [|m l IH]; simpl; [reflexivity|].
  rewrite (String.eqb_sym k m).
  destruct (String.eqb_spec m k) as [->|]; [reflexivity|exact IH].
Qed.

(** What the cache answers after the icons [read] were loaded. *)

End StyleLists.

Section StyleFacts.
Context {host : Host} {markup : Markup}.
Variable disk : string -> Result string.

Lemma icon_text_other cache n d m :
  m <> n -> icon_text disk ((n, d) :: cache) m = icon_text disk cache m.
Proof. intros H. unfold icon_text. now rewrite cached_other. Qed.

Lemma style_loop_returns files : forall cache sheet,
  NoDup (map rule_icon sheet) ->
  (forall n, In n (firsts (map rule_icon sheet) (icon_names files)) ->
     Text.inherited n = false) ->
  (forall n, In n (firsts (map rule_icon sheet) (icon_names files)) ->
     cached cache n = None -> exists d, disk (icon_path n) = Ok d) ->
  style_loop disk cache sheet files
  = (rev (map (fun n => (n, icon_text disk cache n))
            (List.filter (missing cache)
               (firsts (map rule_icon sheet) (icon_names files))))
     ++ cache,
     map read_icon
       (List.filter (missing cache)
          (firsts (map rule_icon sheet) (icon_names files))),
     Returned
       (map (grow files) sheet
        ++ map (rule_of disk cache files)
             (firsts (map rule_icon sheet) (icon_names files)))).
Proof.
  induction files as [|f rest IH]; intros cache sheet Hnd Hinh Hdisk.
  - simpl. rewrite app_nil_r.
    rewrite (map_ext _ (fun r => r) grow_nil), map_id. reflexivity.
  - change (icon_names (f :: rest))
      with (fileName (icon_of f) :: icon_names rest) in *.
    cbn [style_loop firsts] in *.
    set (n := fileName (icon_of f)) in *.
    set (s := selector_of (icon_of f)) in *.
    rewrite has_rule_in.
    destruct (existsb (String.eqb n) (map rule_icon sheet)) eqn:E.
    + (* the icon has its rule *)
      apply eqb_in in E.
      rewrite IH; rewrite ?add_selector_icons; try assumption.
      subst n s. rewrite grow_add by exact Hnd.
      rewrite (map_ext_in (rule_of disk cache rest)
                 (rule_of disk cache (f :: rest))); [reflexivity|].
      intros m Hm. apply firsts_out in Hm.
      unfold rule_of. rewrite selectors_for_other; [reflexivity|].
      intros Hn. rewrite <- Hn in Hm. tauto.
    + apply eqb_out in E.
      rewrite (Hinh n (or_introl eq_refl)).
      assert (Hrest : forall m,
                In m (firsts (map rule_icon sheet ++ [n]) (icon_names rest)) ->
                m <> n).
      { intros m Hm ->. apply firsts_out in Hm. destruct Hm as [_ Hm].
        apply Hm, in_or_app. right. now left. }
      assert (Hsel : forall cache' m,
                In m (firsts (map rule_icon sheet ++ [n]) (icon_names rest)) ->
                icon_text disk cache' m = icon_text disk cache m ->
                rule_of disk cache' rest m = rule_of disk cache (f :: rest) m).
      { intros cache' m Hm Ht. unfold rule_of. rewrite Ht.
        rewrite selectors_for_other; [reflexivity|].
        fold n. intros Hn. apply (Hrest m Hm). congruence. }
      assert (Hgrow : forall text,
                map (grow rest)
                  (sheet ++ [{| rule_icon := n; rule_text := text;
                                rule_selectors := [s] |}])
                = map (grow (f :: rest)) sheet
                  ++ [{| rule_icon := n; rule_text := text;
                         rule_selectors :=
                           firsts [] (selectors_for n (f :: rest)) |}]).
      { intros text. rewrite map_app. f_equal.
        - apply map_ext_in. intros r Hr. apply grow_other. fold n.
          intros Hn. apply E. rewrite <- Hn. now apply in_map.
        - cbn [map]. f_equal. unfold grow.
          cbn [rule_icon rule_text rule_selectors]. f_equal.
          subst n s. rewrite selectors_for_same.
          cbn [firsts existsb app]. reflexivity. }
      assert (Hicons : forall text,
                map rule_icon
                  (sheet ++ [{| rule_icon := n; rule_text := text;
                                rule_selectors := [s] |}])
                = map rule_icon sheet ++ [n])
        by (intros; now rewrite map_app).
      assert (Hnd' : NoDup (map rule_icon sheet ++ [n])).
      { apply NoDup_app; [exact Hnd|repeat constructor; simpl; tauto|].
        intros x Hx [<-|[]]. contradiction. }
      unfold load. destruct (cached cache n) as [v|] eqn:C.
      * (* the cache has the icon *)
        rewrite add_selector_fresh by exact E.
        rewrite IH; rewrite ?Hicons.
        -- assert (M : missing cache n = false)
             by (unfold missing; now rewrite C).
           cbn [List.filter]. rewrite M, Hgrow, <- app_assoc.
           rewrite (map_ext_in (rule_of disk cache rest)
                      (rule_of disk cache (f :: rest)));
             [|intros m Hm; now apply Hsel].
           replace (background v) with (background (icon_text disk cache n))
             by (unfold icon_text; now rewrite C).
           reflexivity.
        -- exact Hnd'.
        -- intros m Hm. apply Hinh. now right.
        -- intros m Hm. apply Hdisk. now right.
      * destruct (Hdisk n (or_introl eq_refl) C) as [d D]. rewrite D.
        rewrite add_selector_fresh by exact E.
        rewrite IH; rewrite ?Hicons.
        -- assert (M : missing cache n = true)
             by (unfold missing; now rewrite C).
           cbn [List.filter]. rewrite M.
           rewrite (filter_ext_in (missing ((n, d) :: cache)) (missing cache)).
           2:{ intros m Hm. apply missing_other. now apply Hrest. }
           rewrite Hgrow, <- app_assoc.
           rewrite (map_ext_in (rule_of disk ((n, d) :: cache) rest)
                      (rule_of disk cache (f :: rest))).
           2:{ intros m Hm. apply Hsel; [exact Hm|].
               apply icon_text_other. now apply Hrest. }
           rewrite (map_ext_in
                      (fun m => (m, icon_text disk ((n, d) :: cache) m))
                      (fun m => (m, icon_text disk cache m))).
           2:{ intros m Hm. apply filter_In in Hm. destruct Hm as [Hm _].
               rewrite icon_text_other; [reflexivity|now apply Hrest]. }
           assert (T : icon_text disk cache n = d)
             by (unfold icon_text; now rewrite C, D).
           assert (Rn : rule_of disk cache (f :: rest) n
                        = {| rule_icon := n; rule_text := background d;
                             rule_selectors :=
                               firsts [] (selectors_for n (f :: rest)) |})
             by (unfold rule_of; now rewrite T).
           cbn [map rev]. rewrite T, Rn, <- app_assoc. reflexivity.
        -- exact Hnd'.
        -- intros m Hm. apply Hinh. now right.
        -- intros m Hm Cm. apply (Hdisk m); [now right|].
           rewrite cached_other in Cm; [exact Cm|now apply Hrest].
Qed.

Lemma at_hand_loop cache files :
  icons_at_hand disk cache files ->
  (forall n, In n (firsts (map rule_icon []) (icon_names files)) ->
     Text.inherited n = false)
  /\ (forall n, In n (firsts (map rule_icon []) (icon_names files)) ->
        cached cache n = None -> exists d, disk (icon_path n) = Ok d).
Proof.
  intros H. split; intros n Hn; apply (proj1 (firsts_nil_in _ _)) in Hn;
    destruct (H n Hn); assumption.
Qed.

Lemma cached_after cache read n :
  cached (rev (map (fun m => (m, icon_text disk cache m)) read) ++ cache) n
  = if existsb (String.eqb n) read then
      (if icon_text disk cache n =?s "" then None
       else Some (icon_text disk cache n))
    else cached cache n.
Proof.
  unfold cached at 1. rewrite assoc_app, <- map_rev, assoc_tabulate.
  assert (E : existsb (String.eqb n) (rev read)
              = existsb (String.eqb n) read).
  { destruct (existsb (String.eqb n) read) eqn:R.
    - apply eqb_in. apply eqb_in in R. now apply in_rev in R.
    - apply eqb_out. apply eqb_out in R. intros H. apply R.
      now apply in_rev. }
  rewrite E. destruct (existsb (String.eqb n) read); reflexivity.
Qed.

Lemma iconStyle_returns cache files :
  icons_at_hand disk cache files ->
  iconStyle disk cache files true
  = (rev (map (fun n => (n, icon_text disk cache n)) (icons_read cache files))
     ++ cache,
     map read_icon (icons_read cache files),
     Returned
       (String.concat ""
          (map print_rule
             (map (rule_of disk cache files)
                (firsts [] (icon_names files)))))).
Proof.
  intros H. destruct (at_hand_loop cache files H) as [H1 H2].
  unfold iconStyle. cbn [negb].
  rewrite (style_loop_returns files cache [] (NoDup_nil _) H1 H2).
  reflexivity.
Qed.

Lemma style_loop_raises files : forall cache sheet cache' calls t,
  style_loop disk cache sheet files = (cache', calls, Raised t) ->
  (t = TypeError
   /\ exists n, In n (icon_names files) /\ Text.inherited n = true)
  \/ (exists e n before,
        t = ReadError e /\ In n (icon_names files)
        /\ cached cache' n = None
        /\ disk (icon_path n) = Err e
        /\ calls = before ++ [read_icon n]).
Proof.
  induction files as [|f rest IH]; intros cache sheet cache' calls t;
    cbn [style_loop]; [discriminate|].
  change (icon_names (f :: rest))
    with (fileName (icon_of f) :: icon_names rest).
  set (n := fileName (icon_of f)).
  assert (Hlift :
    forall c s' c' k t',
      style_loop disk c s' rest = (c', k, Raised t') ->
      forall pre,
      (t' = TypeError
       /\ exists m, In m (n :: icon_names rest) /\ Text.inherited m = true)
      \/ (exists e m before,
            t' = ReadError e /\ In m (n :: icon_names rest)
            /\ cached c' m = None
            /\ disk (icon_path m) = Err e
            /\ pre ++ k = before ++ [read_icon m])).
  { intros c s' c' k t' H pre.
    destruct (IH _ _ _ _ _ H)
      as [(-> & m & Hm & Hi)|(e & m & before & -> & Hm & Hc & Hd & ->)].
    - left. split; [reflexivity|]. exists m. split; [now right|exact Hi].
    - right. exists e, m, (pre ++ before).
      rewrite app_assoc. repeat split; try assumption. now right. }
  destruct (has_rule n sheet).
  - intros H. rewrite <- (app_nil_l calls). exact (Hlift _ _ _ _ _ H []).
  - destruct (Text.inherited n) eqn:I.
    + intros [= <- <- <-]. left. split; [reflexivity|].
      exists n. split; [now left|exact I].
    + unfold load. destruct (cached cache n) as [v|] eqn:C.
      * destruct (style_loop disk cache _ rest) as [[c2 k2] r2] eqn:L.
        intros [= <- <- ->]. exact (Hlift _ _ _ _ _ L []).
      * destruct (disk (icon_path n)) as [d|e] eqn:D.
        -- destruct (style_loop disk ((n, d) :: cache) _ rest)
             as [[c2 k2] r2] eqn:L.
           intros [= <- <- ->].
           exact (Hlift _ _ _ _ _ L [CallReadFile (icon_path n)]).
        -- intros [= <- <- <-]. right. exists e, n, [].
           repeat split; try assumption. now left.
Qed.

End StyleFacts.

Section IconTheorems.
Context {host : Host} {markup : Markup}.

(** X13.  [load] reads an icon file only when the cache has no text for
    the icon, and then reads the file of that name below the [public/icons]
    directory of the module.  A text it returns is what it returns from then
    on without reading, whatever becomes of the file, unless the text is
    empty; what the cache held, it still holds; and when the file cannot be
    read, the error is thrown and the cache stays as it was. *)
Theorem load_caches disk cache icon :
  match load disk cache icon with
  | (cache', calls, Returned data) =>
      (calls = [] /\ cache' = cache /\ cached cache icon = Some data
       \/ calls = [CallReadFile (icon_path icon)]
          /\ cached cache icon = None /\ disk (icon_path icon) = Ok data)
      /\ (data <> "" ->
          forall disk', load disk' cache' icon = (cache', [], Returned data))
      /\ (forall other v,
            cached cache other = Some v -> cached cache' other = Some v)
  | (cache', calls, Raised t) =>
      cache' = cache /\ calls = [CallReadFile (icon_path icon)]
      /\ cached cache icon = None
      /\ exists e, t = ReadError e /\ disk (icon_path icon) = Err e
  end.
Proof.
  unfold load. destruct (cached cache icon) as [v|] eqn:C.
  - split; [left; auto|]. split; [|auto].
    intros _ disk'. now rewrite C.
  - destruct (disk (icon_path icon)) as [data|e] eqn:D.
    + split; [right; auto|]. split.
      * intros Hd disk'. unfold cached. cbn [Text.assoc].
        rewrite String.eqb_refl.
        destruct (String.eqb_spec data ""); [contradiction|reflexivity].
      * intros other v Ho. rewrite cached_other; [exact Ho|].
        intros ->. congruence.
    + repeat split; try reflexivity. exists e. auto.
Qed.

(** X14.  When every icon of the entries can be had, [iconStyle] returns,
    and the files it reads are those of the icons of the entries that the
    cache has no text for, each once, in the order in which the entries
    first show them; their texts are in the cache afterwards, before what
    it held. *)
Theorem iconStyle_reads disk cache files :
  icons_at_hand disk cache files ->
  (exists style,
     iconStyle disk cache files true
     = (rev (map (fun n => (n, icon_text disk cache n))
               (icons_read cache files)) ++ cache,
        map read_icon (icons_read cache files),
        Returned style))
  /\ NoDup (icons_read cache files)
  /\ (forall n, In n (icons_read cache files) <->
                In n (icon_names files) /\ cached cache n = None)
  /\ (forall n, In n (icons_read cache files) ->
                disk (icon_path n) = Ok (icon_text disk cache n)).
Proof.
  intros H. split; [|split; [|split]].
  - eexists. apply iconStyle_returns. exact H.
  - unfold icons_read. apply NoDup_filter. apply firsts_NoDup.
  - intros n. unfold icons_read. rewrite filter_In, firsts_nil_in.
    unfold missing. destruct (cached cache n); split; intros [H1 H2];
      (split; [exact H1|]); congruence.
  - intros n Hn. unfold icons_read in Hn. apply filter_In in Hn.
    destruct Hn as [Hn M]. apply (proj1 (firsts_nil_in _ _)) in Hn.
    unfold missing in M. unfold icon_text.
    destruct (cached cache n) eqn:C; [discriminate|].
    destruct (H n Hn) as [_ Hd]. destruct (Hd C) as [d ->]. reflexivity.
Qed.

(** X15.  When every icon of the entries can be had, the style sheet of
    [iconStyle] is one rule per icon of the entries, in the order in which
    the entries first show the icons: the selectors of the entries with
    that icon, each once and in the order of the entries, joined by a comma
    and a newline, and the image of the icon as a data URL. *)
Theorem iconStyle_sheet disk cache files :
  icons_at_hand disk cache files ->
  snd (iconStyle disk cache files true)
  = Returned
      (String.concat ""
         (map (fun n =>
                 Js.join ("," ++ LF) (firsts [] (selectors_for n files))
                 ++ " {" ++ LF ++ "  "
                 ++ background (icon_text disk cache n)
                 ++ LF ++ "}" ++ LF)%string
            (firsts [] (icon_names files))))
  /\ NoDup (firsts [] (icon_names files))
  /\ (forall n, In n (firsts [] (icon_names files)) <->
                exists file, In file files /\ fileName (icon_of file) = n)
  /\ (forall n, NoDup (firsts [] (selectors_for n files)))
  /\ (forall n s, In s (firsts [] (selectors_for n files)) <->
                  exists file, In file files /\ fileName (icon_of file) = n
                               /\ s = selector_of (icon_of file)).
Proof.
  intros H. split; [|split; [|split; [|split]]].
  - rewrite (iconStyle_returns disk cache files H). cbn [snd].
    rewrite map_map. reflexivity.
  - apply firsts_NoDup.
  - intros n. rewrite firsts_nil_in. unfold icon_names. rewrite in_map_iff.
    split; intros (file & H1 & H2); exists file; auto.
  - intros n. apply firsts_NoDup.
  - intros n s. rewrite firsts_nil_in. unfold selectors_for.
    rewrite in_map_iff. split.
    + intros (file & <- & Hin). apply filter_In in Hin.
      destruct Hin as [Hin E]. apply String.eqb_eq in E.
      exists file. auto.
    + intros (file & Hin & E & ->). exists file. split; [reflexivity|].
      apply filter_In. split; [exact Hin|]. now apply String.eqb_eq.
Qed.

(** X16.  When every icon of the entries can be had and no icon file that
    is read is empty, [iconStyle] leaves a cache on which it reads nothing
    and returns the same style sheet, whatever has become of the files. *)
Theorem iconStyle_again disk cache files :
  icons_at_hand disk cache files ->
  (forall n, In n (icons_read cache files) ->
             disk (icon_path n) <> Ok ""%string) ->
  exists cache' calls style,
    iconStyle disk cache files true = (cache', calls, Returned style)
    /\ forall disk',
         iconStyle disk' cache' files true = (cache', [], Returned style).
Proof.
  intros H Hfull.
  set (cache' := rev (map (fun n => (n, icon_text disk cache n))
                        (icons_read cache files)) ++ cache).
  assert (Hc : forall n, In n (icon_names files) ->
                 cached cache' n = Some (icon_text disk cache n)).
  { intros n Hn. unfold cache'. rewrite cached_after.
    destruct (existsb (String.eqb n) (icons_read cache files)) eqn:R.
    - apply eqb_in in R. specialize (Hfull n R).
      unfold icons_read in R. apply filter_In in R. destruct R as [_ M].
      unfold missing in M. unfold icon_text in *.
      destruct (cached cache n) eqn:C; [discriminate|].
      destruct (H n Hn) as [_ Hd]. destruct (Hd C) as [d D].
      rewrite D in *. destruct (String.eqb_spec d ""); [|reflexivity].
      subst d. contradiction.
    - apply eqb_out in R. unfold icons_read in R. rewrite filter_In in R.
      unfold missing in R. unfold icon_text.
      destruct (cached cache n) eqn:C; [reflexivity|].
      exfalso. apply R. split; [|reflexivity].
      apply firsts_nil_in. exact Hn. }
  exists cache'. eexists. eexists.
  split; [apply iconStyle_returns; exact H|].
  intros disk'.
  assert (H' : icons_at_hand disk' cache' files).
  { intros n Hn. split; [exact (proj1 (H n Hn))|].
    rewrite (Hc n Hn). discriminate. }
  rewrite (iconStyle_returns disk' cache' files H').
  assert (R : icons_read cache' files = []).
  { unfold icons_read. apply filter_none. intros n Hn.
    apply (proj1 (firsts_nil_in _ _)) in Hn. unfold missing.
    now rewrite (Hc n Hn). }
  rewrite R. cbn [map rev app].
  rewrite (map_ext_in (rule_of disk' cache' files)
             (rule_of disk cache files)); [reflexivity|].
  intros n Hn. apply (proj1 (firsts_nil_in _ _)) in Hn.
  unfold rule_of. f_equal. f_equal. unfold icon_text at 1.
  now rewrite (Hc n Hn).
Qed.

(** X17.  [iconStyle] throws only with icons switched on, and then
    either because an icon file could not be read, with the error of that
    reading, which is the last thing it did, or because the name of an
    icon is one that every object inherits. *)
Theorem iconStyle_throws disk cache files useIcons cache' calls t :
  iconStyle disk cache files useIcons = (cache', calls, Raised t) ->
  useIcons = true
  /\ ((t = TypeError
       /\ exists n, In n (icon_names files) /\ Text.inherited n = true)
      \/ (exists e n before,
            t = ReadError e /\ In n (icon_names files)
            /\ cached cache' n = None
            /\ disk (icon_path n) = Err e
            /\ calls = before ++ [read_icon n])).
Proof.
  unfold iconStyle. destruct useIcons; cbn [negb]; [|discriminate].
  destruct (style_loop disk cache [] files) as [[c k] [sheet|t']] eqn:L;
    [discriminate|].
  intros [= <- <- <-]. split; [reflexivity|].
  exact (style_loop_raises disk files _ _ _ _ _ L).
Qed.

End IconTheorems.

(* ================================================================== *)
(** ** The icons of a small page *)

Lemma entries_at_hand :
  @icons_at_hand Posix.host Web.markup Web.disk [] Web.entries.
Proof.
  intros n Hn. vm_compute in Hn.
  repeat (destruct Hn as [<-|Hn];
          [split; [reflexivity|intros _; eexists; vm_compute; reflexivity]|]).
  destruct Hn.
Qed.

Lemma iconLookup_in_table_witness :
  In (fileName (@iconLookup Web.markup "c.svg")) (map snd Assets.icons)
  /\ fileName (@iconLookup Web.markup "c.svg") <> ""
  /\ ~ Js.contains "/" (fileName (@iconLookup Web.markup "c.svg"))
  /\ exists c, className (@iconLookup Web.markup "c.svg")
               = ("icon-" ++ c)%string.
Proof.
  apply (@iconLookup_in_table Web.markup "c.svg").
  - right. exists "svg". reflexivity.
  - intros m E. vm_compute in E. injection E as <-. split.
    + unfold Js.contains. cbn. tauto.
    + reflexivity.
Defined.

Lemma iconStyle_reads_witness :
  (exists style,
     @iconStyle Posix.host Web.markup Web.disk [] Web.entries true
     = (rev (map (fun n => (n, @icon_text Posix.host Web.markup Web.disk [] n))
               (@icons_read Web.markup [] Web.entries)) ++ [],
        map (@read_icon Posix.host) (@icons_read Web.markup [] Web.entries),
        Returned style))
  /\ NoDup (@icons_read Web.markup [] Web.entries)
  /\ (forall n, In n (@icons_read Web.markup [] Web.entries) <->
                In n (@icon_names Web.markup Web.entries)
                /\ @cached Web.markup [] n = None)
  /\ (forall n, In n (@icons_read Web.markup [] Web.entries) ->
                Web.disk (@icon_path Posix.host n)
                = Ok (@icon_text Posix.host Web.markup Web.disk [] n)).
Proof.
  apply (@iconStyle_reads Posix.host Web.markup Web.disk [] Web.entries).
  exact entries_at_hand.
Defined.

Lemma iconStyle_sheet_witness :
  snd (@iconStyle Posix.host Web.markup Web.disk [] Web.entries true)
  = Returned
      (String.concat ""
         (map (fun n =>
                 Js.join ("," ++ LF)
                   (firsts [] (@selectors_for Web.markup n Web.entries))
                 ++ " {" ++ LF ++ "  "
                 ++ background (@icon_text Posix.host Web.markup Web.disk [] n)
                 ++ LF ++ "}" ++ LF)%string
            (firsts [] (@icon_names Web.markup Web.entries)))).
Proof.
  apply (@iconStyle_sheet Posix.host Web.markup Web.disk [] Web.entries).
  exact entries_at_hand.
Defined.

Lemma iconStyle_again_witness :
  exists cache' calls style,
    @iconStyle Posix.host Web.markup Web.disk [] Web.entries true
    = (cache', calls, Returned style)
    /\ forall disk',
         @iconStyle Posix.host Web.markup disk' cache' Web.entries true
         = (cache', [], Returned style).
Proof.
  apply (@iconStyle_again Posix.host Web.markup Web.disk [] Web.entries).
  - exact entries_at_hand.
  - intros n Hn. vm_compute in Hn.
    repeat (destruct Hn as [<-|Hn]; [vm_compute; discriminate|]).
    destruct Hn.
Defined.

Lemma iconStyle_throws_witness :
  true = true
  /\ ((ReadError Site.ENOENT = TypeError
       /\ exists n, In n (@icon_names Web.markup Web.entries)
                    /\ Text.inherited n = true)
      \/ (exists e n before,
            ReadError Site.ENOENT = ReadError e
            /\ In n (@icon_names Web.markup Web.entries)
            /\ @cached Web.markup [] n = None
            /\ @Err string Site.ENOENT = @Err string e
            /\ [@read_icon Posix.host "folder.png"]
               = before ++ [@read_icon Posix.host n])).
Proof.
  apply (@iconStyle_throws Posix.host Web.markup
           (fun _ => @Err string Site.ENOENT) []
           Web.entries true [] [@read_icon Posix.host "folder.png"]
           (ReadError Site.ENOENT)).
  vm_compute. reflexivity.
Defined.

(* ================================================================== *)
(** ** The batch: how many lookups are in flight *)

Section InFlight.
Context {R : Type}.
Import Batch.






End InFlight.

Section StatInFlight.
Context {host : Host}.
Import Batch.


End StatInFlight.

(* ================================================================== *)
(** ** The markup of the list *)

Section MarkupFacts.
Context {host : Host} {markup : Markup}.

Lemma count_app c a b :
  Text.count c (a ++ b) = (Text.count c a + Text.count c b)%nat.
Proof. induction a as [|x a IH]; simpl; [reflexivity|]. rewrite IH. lia. Qed.

Lemma count_join c sep l :
  Text.count c sep = 0%nat ->
  Text.count c (Js.join sep l) = list_sum (map (Text.count c) l).
Proof.
  intros Hsep. unfold Js.join.
  induction l as [|a l IH]; [reflexivity|].
  destruct l as [|b l].
  { cbn [String.concat map list_sum fold_right]. lia. }
  change (String.concat sep (a :: b :: l))
    with (a ++ sep ++ String.concat sep (b :: l))%string.
  rewrite !count_app, IH, Hsep. cbn [map list_sum fold_right]. lia.
Qed.

Lemma list_sum_const {A} (f : A -> nat) k l :
  (forall x, In x l -> f x = k) ->
  list_sum (map f l) = (k * List.length l)%nat.
Proof.
  induction l as [|x l IH]; intros H; cbn [map list_sum fold_right List.length]; [lia|].
  fold (list_sum (map f l)). rewrite (H x (or_introl eq_refl)), IH; [lia|].
  intros y Hy. apply H. now right.
Qed.

Lemma item_counts dir useIcons file :
  escapes escapeHtml ->
  Text.count "<" (list_item dir useIcons file) = 10%nat
  /\ Text.count ">" (list_item dir useIcons file) = 10%nat
  /\ Text.count Js.dquote (list_item dir useIcons file) = 12%nat.
Proof.
  intros E. unfold list_item, attribute, span.
  repeat split.
  all: repeat (rewrite count_app || cbn [Text.count]).
  all: repeat match goal with
         | |- context [Text.count ?c (escapeHtml ?s)] =>
             rewrite (proj1 (E s)) || rewrite (proj1 (proj2 (E s)))
             || rewrite (proj2 (proj2 (E s)))
         end.
  all: reflexivity.
Qed.

Lemma items_count c k dir useIcons files :
  (forall file, Text.count c (list_item dir useIcons file) = k) ->
  Text.count c LF = 0%nat ->
  Text.count c (Js.join LF (map (list_item dir useIcons) files))
  = (k * List.length files)%nat.
Proof.
  intros Hk Hlf. rewrite count_join by exact Hlf. rewrite map_map.
  apply list_sum_const. intros file _. apply Hk.
Qed.

(** X19.  Given what escape-html promises (its result holds no [<], no
    [>] and no double quote), the list that [createHtmlFileList] returns
    has the tags and the attributes of its own making and no other: ten
    tags and six attributes for each entry, the list itself, and the
    header of the details view; no name of a file or of a directory, no
    view, date or size adds a tag or closes an attribute. *)
Theorem createHtmlFileList_markup files dir useIcons view :
  escapes escapeHtml ->
  Text.count "<" (createHtmlFileList files dir useIcons view)
  = (2 + (if view =?s "details" then 8 else 0)
     + 10 * List.length files)%nat
  /\ Text.count ">" (createHtmlFileList files dir useIcons view)
     = (2 + (if view =?s "details" then 8 else 0)
        + 10 * List.length files)%nat
  /\ Text.count Js.dquote (createHtmlFileList files dir useIcons view)
     = (4 + (if view =?s "details" then 8 else 0)
        + 12 * List.length files)%nat.
Proof.
  intros E. unfold createHtmlFileList.
  repeat split.
  all: repeat (rewrite count_app || cbn [Text.count]).
  all: erewrite items_count;
    [|intros file; apply (item_counts dir useIcons file E)|reflexivity].
  all: repeat match goal with
         | |- context [Text.count ?c (escapeHtml ?s)] =>
             rewrite (proj1 (E s)) || rewrite (proj1 (proj2 (E s)))
             || rewrite (proj2 (proj2 (E s)))
         end.
  all: destruct (view =?s "details"); cbn; lia.
Qed.

Lemma crumbs_count c k : forall parts done,
  (forall href text, Text.count c (crumb_link href text) = k) ->
  list_sum (map (Text.count c) (crumbs done parts))
  = (k * List.length (List.filter (fun p => negb (p =?s "")) parts))%nat.
Proof.
  induction parts as [|part rest IH]; intros done Hk; [cbn; lia|].
  cbn [crumbs List.filter].
  destruct (part =?s ""); cbn [negb map list_sum fold_right List.length];
    fold (list_sum (map (Text.count c)
                      (crumbs (done ++ [part]) rest)));
    fold (list_sum (map (Text.count c)
                      (crumbs (done ++ [encodeURIComponent part]) rest)));
    rewrite IH by exact Hk; [cbn [Text.count]; lia|].
  rewrite Hk. lia.
Qed.

(** X20.  Given what escape-html promises, the linked path of [htmlPath]
    holds one anchor for each part of the directory that is not empty, and
    no other tag or attribute, whatever the parts are. *)
Theorem htmlPath_markup dir :
  escapes escapeHtml ->
  Text.count "<" (htmlPath dir)
  = (2 * List.length
           (List.filter (fun p => negb (p =?s "")) (Posix.split "/" dir)))%nat
  /\ Text.count ">" (htmlPath dir)
     = (2 * List.length
              (List.filter (fun p => negb (p =?s ""))
                 (Posix.split "/" dir)))%nat
  /\ Text.count Js.dquote (htmlPath dir)
     = (2 * List.length
              (List.filter (fun p => negb (p =?s ""))
                 (Posix.split "/" dir)))%nat.
Proof.
  intros E. unfold htmlPath.
  repeat split.
  all: rewrite count_join by reflexivity; apply crumbs_count.
  all: intros href text; unfold crumb_link.
  all: repeat (rewrite count_app || cbn [Text.count]).
  all: repeat match goal with
         | |- context [Text.count ?c (escapeHtml ?s)] =>
             rewrite (proj1 (E s)) || rewrite (proj1 (proj2 (E s)))
             || rewrite (proj2 (proj2 (E s)))
         end.
  all: reflexivity.
Qed.

End MarkupFacts.

(* ================================================================== *)
(** ** The markup of a small page *)

Lemma web_escapes : escapes Web.escapeHtml.
Proof.
  assert (Hc : forall c x,
            In c ["<"; ">"; Js.dquote]%char ->
            Text.count c (Web.escape_char x) = 0%nat).
  { intros c x Hc.
    destruct Hc as [<-|[<-|[<-|[]]]];
      destruct x as [[] [] [] [] [] [] [] []]; reflexivity. }
  assert (H : forall c s,
            In c ["<"; ">"; Js.dquote]%char ->
            Text.count c (Web.escapeHtml s) = 0%nat).
  { intros c s Hin. induction s as [|x s IH]; [reflexivity|].
    cbn [Web.escapeHtml].
    assert (A : forall a b,
              Text.count c (a ++ b)
              = (Text.count c a + Text.count c b)%nat).
    { intros a b. induction a as [|y a IHa]; simpl; [reflexivity|].
      rewrite IHa. lia. }
    rewrite A, IH, (Hc c x Hin). reflexivity. }
  intros s. repeat split; apply H; simpl; auto.
Qed.

Lemma createHtmlFileList_markup_witness :
  Text.count "<"
    (@createHtmlFileList Posix.host Web.markup Web.entries "/a b/" true
       "details")
  = 60%nat
  /\ Text.count ">"
       (@createHtmlFileList Posix.host Web.markup Web.entries "/a b/" true
          "details")
     = 60%nat
  /\ Text.count Js.dquote
       (@createHtmlFileList Posix.host Web.markup Web.entries "/a b/" true
          "details")
     = 72%nat.
Proof.
  exact (@createHtmlFileList_markup Posix.host Web.markup Web.entries "/a b/"
           true "details" web_escapes).
Defined.

Lemma htmlPath_markup_witness :
  Text.count "<" (@htmlPath Web.markup "/a b/<c>/") = 4%nat
  /\ Text.count ">" (@htmlPath Web.markup "/a b/<c>/") = 4%nat
  /\ Text.count Js.dquote (@htmlPath Web.markup "/a b/<c>/") = 4%nat.
Proof.
  exact (@htmlPath_markup Web.markup "/a b/<c>/" web_escapes).
Defined.

(* ================================================================== *)
(** ** What a run depends on *)

Section Dependence.
Context {host : Host}.

Lemma on_readdir_accept opts w req req' originalDir showUp path r :
  accept req = accept req' ->
  on_readdir opts w req originalDir showUp path r
  = on_readdir opts w req' originalDir showUp path r.
Proof. intros H. unfold on_readdir. now rewrite H. Qed.

Lemma on_stat_accept opts w req req' originalDir showUp path r :
  accept req = accept req' ->
  on_stat opts w req originalDir showUp path r
  = on_stat opts w req' originalDir showUp path r.
Proof.
  intros H. unfold on_stat.
  now rewrite (on_readdir_accept opts w req req' _ _ _ _ H).
Qed.

(** X21.  The handler treats HEAD as GET: two requests that are each a GET
    or a HEAD and agree on the path, the original path and what the client
    accepts get the same run, with the same calls, headers and body. *)
Theorem head_as_get root opts w req req' :
  reads req -> reads req' ->
  pathname req = pathname req' ->
  original_pathname req = original_pathname req' ->
  accept req = accept req' ->
  handle root opts w req = handle root opts w req'.
Proof.
  intros Hr Hr' Hp Ho Ha. unfold handle, getRequestedDir.
  assert (G : forall r, reads r ->
            negb (method r =?s "GET") && negb (method r =?s "HEAD") = false)
    by (intros r [H|H]; rewrite H; reflexivity).
  rewrite (G req Hr), (G req' Hr'), Hp, Ho.
  destruct (decodeURIComponent
              match pathname req' with Some p => p | None => "" end);
    [|reflexivity].
  destruct (decodeURIComponent
              match original_pathname req' with Some p => p | None => "" end);
    [|reflexivity].
  cbv zeta.
  repeat match goal with
         | |- (if ?b then _ else _) = _ => destruct b; [reflexivity|]
         end.
  now rewrite (on_stat_accept opts w req req' _ _ _ _ Ha).
Qed.

Lemma mediaType_html type : mediaType type = Some html -> type = "text/html".
Proof.
  unfold mediaType.
  destruct (String.eqb_spec type "text/html"); [auto|].
  destruct (type =?s "text/plain"); [discriminate|].
  destruct (type =?s "application/json"); discriminate.
Qed.

(** X22.  Only the HTML listing depends on the options [icons], [view],
    [template] and [stylesheet]: when the negotiated type is not
    [text/html], two handlers whose options agree on [filter] and [hidden]
    give the same run. *)
Theorem options_only_html root opts opts' w req type :
  accepts_type (accept req) mediaTypes = Some type ->
  type <> "text/html" ->
  filter opts = filter opts' ->
  hidden opts = hidden opts' ->
  handle root opts w req = handle root opts' w req.
Proof.
  intros Ha Ht Hf Hh. unfold handle.
  destruct (negb (method req =?s "GET") && negb (method req =?s "HEAD"));
    [reflexivity|].
  destruct (getRequestedDir req); [|reflexivity].
  destruct (decodeURIComponent
              match original_pathname req with Some p => p | None => "" end);
    [|reflexivity].
  cbv zeta.
  repeat match goal with
         | |- (if ?b then _ else _) = _ => destruct b; [reflexivity|]
         end.
  f_equal. unfold on_stat.
  match goal with |- match ?r with _ => _ end = _ => destruct r as [st|e] end;
    [|reflexivity].
  destruct (negb (isDirectory st)); [reflexivity|].
  f_equal. unfold on_readdir.
  match goal with |- match ?r with _ => _ end = _ => destruct r as [raw|e] end;
    [|reflexivity].
  cbv zeta. rewrite Ha.
  assert (L : forall p, listed opts p raw = listed opts' p raw)
    by (intros p; unfold listed; now rewrite Hf, Hh).
  rewrite L. unfold respond.
  destruct (mediaType type) as [[]|] eqn:M; try reflexivity.
  apply mediaType_html in M. contradiction.
Qed.

End Dependence.

(* ================================================================== *)
(** ** Reading the plain listing back *)

Section PlainLines.

Lemma split_segment c a rest :
  ~ Js.contains c a ->
  Posix.split c (a ++ String c rest) = a :: Posix.split c rest.
Proof.
  unfold Js.contains. induction a as [|x a IH]; intros H.
  - cbn [append Posix.split]. rewrite Ascii.eqb_refl.
    destruct (Posix.split c rest) as [|seg segs] eqn:E; [|reflexivity].
    exfalso. clear -E. induction rest as [|y rest IHr]; [discriminate|].
    cbn [Posix.split] in E.
    destruct (Posix.split c rest) as [|s ss]; [auto|].
    destruct (Ascii.eqb y c); discriminate.
  - cbn [append Posix.split]. rewrite IH.
    + destruct (Ascii.eqb_spec x c) as [->|]; [|reflexivity].
      exfalso. apply H. now left.
    + intros Hin. apply H. now right.
Qed.

Lemma split_lines c : forall names name,
  Forall (fun n => ~ Js.contains c n) (name :: names) ->
  Posix.split c (Js.join (String c "") (name :: names) ++ String c "")
  = (name :: names) ++ [""].
Proof.
  unfold Js.join.
  induction names as [|b names IH]; intros a H;
    inversion H as [|? ? Ha Hrest]; subst.
  - cbn [String.concat app]. now rewrite split_segment.
  - change (String.concat (String c "") (a :: b :: names))
      with (a ++ String c "" ++ String.concat (String c "") (b :: names))%string.
    rewrite !append_assoc. cbn [append].
    rewrite split_segment by exact Ha. rewrite (IH b Hrest). reflexivity.
Qed.

(** X23.  The plain listing can be read back line by line: when there is
    an entry and no name holds a newline, the pieces of the body between
    its newlines are the names of the entries, in order, and one empty
    piece after the last newline.  The body of an empty listing is a
    single newline. *)
Theorem plain_body_lines fileList :
  fileList <> [] ->
  Forall (fun file => ~ Js.contains "010" (file_name file)) fileList ->
  Posix.split "010" (plain_body fileList) = map file_name fileList ++ [""].
Proof.
  intros Hne Hall. unfold plain_body, LF.
  destruct fileList as [|file rest]; [contradiction|].
  cbn [map]. apply split_lines.
  change (file_name file :: map file_name rest)
    with (map file_name (file :: rest)).
  apply Forall_map. exact Hall.
Qed.

End PlainLines.

Lemma plain_body_lines_witness :
  Posix.split "010" (plain_body Web.entries)
  = map file_name Web.entries ++ [""].
Proof.
  apply (plain_body_lines Web.entries).
  - discriminate.
  - unfold Js.contains. repeat constructor; cbn; intuition discriminate.
Defined.

Lemma head_as_get_witness :
  @handle Posix.host "/srv/www" Site.options Site.world
    (Site.request "GET" "/" (Site.only "text/plain"))
  = @handle Posix.host "/srv/www" Site.options Site.world
      (Site.request "HEAD" "/" (Site.only "text/plain")).
Proof.
  apply (@head_as_get Posix.host "/srv/www" Site.options Site.world
           (Site.request "GET" "/" (Site.only "text/plain"))
           (Site.request "HEAD" "/" (Site.only "text/plain"))).
  - left. reflexivity.
  - right. reflexivity.
  - reflexivity.
  - reflexivity.
  - reflexivity.
Defined.

Lemma options_only_html_witness :
  @handle Posix.host "/srv/www" Site.options Site.world
    (Site.get "/" (Site.only "application/json"))
  = @handle Posix.host "/srv/www" Site.options_lines Site.world
      (Site.get "/" (Site.only "application/json")).
Proof.
  apply (@options_only_html Posix.host "/srv/www" Site.options
           Site.options_lines Site.world
           (Site.get "/" (Site.only "application/json")) "application/json").
  - vm_compute. reflexivity.
  - discriminate.
  - reflexivity.
  - reflexivity.
Defined.

(* ================================================================== *)
(** ** Where the icons are read from *)

Section IconReads.
Context {host : Host} {markup : Markup}.

Lemma load_calls disk cache icon c :
  In c (snd (fst (load disk cache icon))) -> c = read_icon icon.
Proof.
  unfold load. destruct (cached cache icon); [intros []|].
  destruct (disk (icon_path icon)); intros [<-|[]]; reflexivity.
Qed.

Lemma style_loop_calls disk c files : forall cache sheet,
  In c (snd (fst (style_loop disk cache sheet files))) ->
  exists n, In n (icon_names files) /\ c = read_icon n.
Proof.
  induction files as [|f rest IH]; intros cache sheet; cbn [style_loop];
    [intros []|].
  change (icon_names (f :: rest))
    with (fileName (icon_of f) :: icon_names rest).
  set (n := fileName (icon_of f)).
  assert (Hlift : forall c0 s0,
            In c (snd (fst (style_loop disk c0 s0 rest))) ->
            exists m, In m (n :: icon_names rest) /\ c = read_icon m).
  { intros c0 s0 H. destruct (IH _ _ H) as (m & Hm & E).
    exists m. split; [now right|exact E]. }
  destruct (has_rule n sheet); [apply Hlift|].
  destruct (Text.inherited n); [intros []|].
  destruct (load disk cache n) as [[c1 k1] [d|t]] eqn:L.
  - destruct (style_loop disk c1 _ rest) as [[c2 k2] r2] eqn:S.
    cbn [fst snd]. intros H. apply in_app_or in H. destruct H as [H|H].
    + exists n. split; [now left|].
      apply (load_calls disk cache n). now rewrite L.
    + eapply (Hlift c1). rewrite S. exact H.
  - cbn [fst snd]. intros H. exists n. split; [now left|].
    apply (load_calls disk cache n). now rewrite L.
Qed.

Lemma usual_icons files :
  usual_names files ->
  forall n, In n (icon_names files) -> In n (map snd Assets.icons).
Proof.
  intros H n Hn. unfold icon_names in Hn. apply in_map_iff in Hn.
  destruct Hn as (file & <- & Hin). apply icon_of_known. apply (H file Hin).
Qed.

(** X24.  For entries with names of the usual kind, whatever the names
    are: every file that [iconStyle] reads, whether it returns or throws,
    is a file of the icon map, directly in the [public/icons] directory of
    the module (its name is not empty and holds no slash), and [iconStyle]
    throws no TypeError. *)
Theorem iconStyle_reads_confined disk cache files useIcons :
  usual_names files ->
  (forall c,
     In c (snd (fst (iconStyle disk cache files useIcons))) ->
     exists icon,
       In icon (map snd Assets.icons)
       /\ icon <> ""%string /\ ~ Js.contains "/" icon
       /\ c = CallReadFile (dirname ++ "/public/icons/" ++ icon)%string)
  /\ snd (iconStyle disk cache files useIcons) <> Raised TypeError.
Proof.
  intros Hu. unfold iconStyle. destruct useIcons; cbn [negb].
  2:{ split; [intros c []|discriminate]. }
  destruct (style_loop disk cache [] files) as [[c1 k1] [sheet|t]] eqn:L.
  - split; [|discriminate]. cbn [fst snd]. intros c Hc.
    destruct (style_loop_calls disk c files cache []) as (n & Hn & ->);
      [now rewrite L|].
    exists n. pose proof (usual_icons files Hu n Hn) as Hin.
    destruct (table_names n Hin) as (H1 & H2 & _). auto.
  - split.
    + cbn [fst snd]. intros c Hc.
      destruct (style_loop_calls disk c files cache []) as (n & Hn & ->);
        [now rewrite L|].
      exists n. pose proof (usual_icons files Hu n Hn) as Hin.
      destruct (table_names n Hin) as (H1 & H2 & _). auto.
    + cbn [snd]. intros [= ->].
      destruct (style_loop_raises disk files _ _ _ _ _ L)
        as [(_ & n & Hn & Hi)|(e & n & before & E & _)]; [|discriminate].
      pose proof (usual_icons files Hu n Hn) as Hin.
      destruct (table_names n Hin) as (_ & _ & H3). congruence.
Qed.

End IconReads.

Lemma entries_usual : @usual_names Web.markup Web.entries.
Proof.
  intros file Hin Hd. vm_compute in Hin.
  repeat (destruct Hin as [<-|Hin];
          [first [discriminate Hd
                 |split;
                  [first [left; reflexivity
                         |right; eexists; vm_compute; reflexivity]
                  |intros m E; vm_compute in E;
                   first [discriminate E
                         |injection E as <-; split;
                          [unfold Js.contains; cbn; tauto|reflexivity]]]]|]).
  destruct Hin.
Qed.

Lemma iconStyle_reads_confined_witness :
  (forall c,
     In c (snd (fst (@iconStyle Posix.host Web.markup Web.disk []
                       Web.entries true))) ->
     exists icon,
       In icon (map snd Assets.icons)
       /\ icon <> ""%string /\ ~ Js.contains "/" icon
       /\ c = CallReadFile
                (@dirname Posix.host ++ "/public/icons/" ++ icon)%string)
  /\ snd (@iconStyle Posix.host Web.markup Web.disk [] Web.entries true)
     <> Raised TypeError.
Proof.
  apply (@iconStyle_reads_confined Posix.host Web.markup Web.disk []
           Web.entries true).
  exact entries_usual.
Defined.
